(** * rollup-plugin-iife-split: the merge-and-rewrite engine

    A shallow embedding of [src/chunk-merger.ts], [src/esm-to-iife.ts] and the
    part of [src/index.ts] that drives them, with the properties the
    specification states about them.

    Conventions.
    - JavaScript strings are [string]; [Set<string>] is [gset string];
      [Map<string, string>] is [gmap string string].  The [globals] and
      [secondaryProps] records are plain objects, given by their own
      properties and read through [getProperty], which also finds what an
      object inherits from [Object.prototype].
    - The host parser ([ParseFn], Rollup's [this.parse]) is external.  The
      functions of the engine consume the ESTree it returns; [node] below has
      one constructor per node kind the engine dispatches on and a generic
      [Other] for the rest, each with its [start]/[end] offsets.
    - [MagicString] is its chain of chunks, edited in the order the edits
      are made.
    - A string is the sequence of its UTF-16 code units, one character per
      unit; the texts considered have their units below 256, so offsets and
      lengths count code units as the parser and MagicString do. *)

From Stdlib Require Import Ascii.
From stdpp Require Import gmap strings list.

Set Default Proof Using "Type".
Set Warnings "-register-all,-clear-no-such-hyp".

(** ** JavaScript string primitives *)

Module Js.

(** [s.startsWith(p)] *)
Fixpoint startsWith (s p : string) {struct p} : bool :=
  match p with
  | EmptyString => true
  | String a p' =>
      match s with
      | EmptyString => false
      | String b s' => if decide (a = b) then startsWith s' p' else false
      end
  end.

(** [s.includes(sub)] *)
Fixpoint includes (s sub : string) : bool :=
  startsWith s sub ||
  match s with
  | EmptyString => false
  | String _ s' => includes s' sub
  end.

(** [s.replace(/\.js$/, '')]: the pattern is anchored at the end of the
    input, so at most the final three characters are dropped. *)
Fixpoint stripJsExtension (s : string) : string :=
  match s with
  | EmptyString => EmptyString
  | String c s' => if decide (s = ".js") then EmptyString else String c (stripJsExtension s')
  end.

(** [parts.join(sep)] *)
Fixpoint join (sep : string) (parts : list string) : string :=
  match parts with
  | [] => ""
  | [p] => p
  | p :: rest => p +:+ sep +:+ join sep rest
  end.

(** JavaScript truthiness of a string value: [""] is falsy. *)
Definition truthy (s : string) : bool :=
  match s with EmptyString => false | _ => true end.

(** Truthiness of an optional ([undefined]/[null]) string. *)
Definition truthyOpt (o : option string) : bool :=
  match o with Some s => truthy s | None => false end.

(** [s] occurs inside [t] *)
Definition occursIn (sub s : string) : Prop :=
  ∃ pre post, s = pre +:+ sub +:+ post.

End Js.

(** ** The syntax tree returned by the host parser

    ESTree nodes with the [start]/[end] offsets acorn-compatible parsers
    attach.  Positions an [Identifier] is required in by the ESTree types the
    source casts to ([spec.local], [spec.imported], [spec.exported], the [id]
    of a function or class declaration) hold an [ident]; positions the source
    tests with [.type === 'Identifier'] hold a [node]. *)

Record ident : Type := Ident { idStart : nat; idEnd : nat; idName : string }.

Inductive node : Type :=
| Identifier (start fin : nat) (name : string)
| Literal (start fin : nat) (value : option string)
| MemberExpression (start fin : nat) (object property : node) (computed : bool)
| FunctionExpression (start fin : nat) (id : option ident) (params : list node) (body : node)
| ExpressionStatement (start fin : nat) (expression : node)
| ImportSpecifier (start fin : nat) (imported local : ident)
| ImportDefaultSpecifier (start fin : nat) (local : ident)
| ImportNamespaceSpecifier (start fin : nat) (local : ident)
| ImportDeclaration (start fin : nat) (specifiers : list node) (source : string)
| ExportSpecifier (start fin : nat) (local exported : ident)
| ExportNamedDeclaration (start fin : nat) (declaration : option node)
    (specifiers : list node) (source : option string)
| ExportDefaultDeclaration (start fin : nat) (declaration : node)
| VariableDeclaration (start fin : nat) (declarations : list node)
| VariableDeclarator (start fin : nat) (id : node) (init : option node)
| FunctionDeclaration (start fin : nat) (id : option ident) (params : list node) (body : node)
| ClassDeclaration (start fin : nat) (id : option ident) (superClass : option node) (body : node)
| Other (start fin : nat) (type : string) (children : list node)
| Program (start fin : nat) (body : list node).

(** The [Identifier] node an [ident] stands for. *)
Definition identNode (i : ident) : node := Identifier (idStart i) (idEnd i) (idName i).

Definition nodeStart (n : node) : nat :=
  match n with
  | Identifier s _ _ | Literal s _ _ | MemberExpression s _ _ _ _
  | FunctionExpression s _ _ _ _ | ExpressionStatement s _ _
  | ImportSpecifier s _ _ _ | ImportDefaultSpecifier s _ _
  | ImportNamespaceSpecifier s _ _ | ImportDeclaration s _ _ _
  | ExportSpecifier s _ _ _ | ExportNamedDeclaration s _ _ _ _
  | ExportDefaultDeclaration s _ _ | VariableDeclaration s _ _
  | VariableDeclarator s _ _ _ | FunctionDeclaration s _ _ _ _
  | ClassDeclaration s _ _ _ _ | Other s _ _ _ | Program s _ _ => s
  end.

Definition nodeEnd (n : node) : nat :=
  match n with
  | Identifier _ e _ | Literal _ e _ | MemberExpression _ e _ _ _
  | FunctionExpression _ e _ _ _ | ExpressionStatement _ e _
  | ImportSpecifier _ e _ _ | ImportDefaultSpecifier _ e _
  | ImportNamespaceSpecifier _ e _ | ImportDeclaration _ e _ _
  | ExportSpecifier _ e _ _ | ExportNamedDeclaration _ e _ _ _
  | ExportDefaultDeclaration _ e _ | VariableDeclaration _ e _
  | VariableDeclarator _ e _ _ | FunctionDeclaration _ e _ _ _
  | ClassDeclaration _ e _ _ _ | Other _ e _ _ | Program _ e _ => e
  end.

(** [ast.body] of the [Program] the parser returns. *)
Definition programBody (ast : node) : list node :=
  match ast with Program _ _ body => body | _ => [] end.

(** The host parser, [ParseFn] of [src/types.ts].  A syntax error throws and
    aborts the whole pass; we record it as [None]. *)
Definition ParseFn : Type := string → option node.

(** ** estree-walker

    [walk(ast, { enter })] calls [enter] on a node and then, unless the callback
    called [this.skip()], on its children in field order.  A callback is a
    state transformer that also reports whether it skipped. *)

Definition visitor (S : Type) : Type := node → S → S * bool.

Fixpoint walk {S : Type} (enter : visitor S) (n : node) (s : S) {struct n} : S :=
  let '(s, skipped) := enter n s in
  if skipped then s else
  let leaf (i : ident) (s : S) := (enter (identNode i) s).1 in
  let leafOpt (o : option ident) (s : S) :=
    match o with Some i => leaf i s | None => s end in
  let many (l : list node) (s : S) := foldl (λ s c, walk enter c s) s l in
  let opt (o : option node) (s : S) :=
    match o with Some c => walk enter c s | None => s end in
  match n with
  | Identifier _ _ _ | Literal _ _ _ => s
  | MemberExpression _ _ o p _ => walk enter p (walk enter o s)
  | FunctionExpression _ _ i ps b => walk enter b (many ps (leafOpt i s))
  | ExpressionStatement _ _ e => walk enter e s
  | ImportSpecifier _ _ i l => leaf l (leaf i s)
  | ImportDefaultSpecifier _ _ l => leaf l s
  | ImportNamespaceSpecifier _ _ l => leaf l s
  | ImportDeclaration _ _ specs _ => many specs s
  | ExportSpecifier _ _ l e => leaf e (leaf l s)
  | ExportNamedDeclaration _ _ d specs _ => many specs (opt d s)
  | ExportDefaultDeclaration _ _ d => walk enter d s
  | VariableDeclaration _ _ ds => many ds s
  | VariableDeclarator _ _ i init => opt init (walk enter i s)
  | FunctionDeclaration _ _ i ps b => walk enter b (many ps (leafOpt i s))
  | ClassDeclaration _ _ i sup b => walk enter b (opt sup (leafOpt i s))
  | Other _ _ _ cs => many cs s
  | Program _ _ body => many body s
  end.

(** The nodes a walk enters, in order, when the callback skips the children
    of the nodes [skips] holds of. *)
Fixpoint entered (skips : node → bool) (n : node) : list node :=
  let leafOpt (o : option ident) := match o with Some i => [identNode i] | None => [] end in
  let opt (o : option node) := match o with Some c => entered skips c | None => [] end in
  n ::
  if skips n then [] else
  match n with
  | Identifier _ _ _ | Literal _ _ _ => []
  | MemberExpression _ _ o p _ => entered skips o ++ entered skips p
  | FunctionExpression _ _ i ps b =>
      leafOpt i ++ flat_map (entered skips) ps ++ entered skips b
  | ExpressionStatement _ _ e => entered skips e
  | ImportSpecifier _ _ i l => [identNode i; identNode l]
  | ImportDefaultSpecifier _ _ l => [identNode l]
  | ImportNamespaceSpecifier _ _ l => [identNode l]
  | ImportDeclaration _ _ specs _ => flat_map (entered skips) specs
  | ExportSpecifier _ _ l e => [identNode l; identNode e]
  | ExportNamedDeclaration _ _ d specs _ => opt d ++ flat_map (entered skips) specs
  | ExportDefaultDeclaration _ _ d => entered skips d
  | VariableDeclaration _ _ ds => flat_map (entered skips) ds
  | VariableDeclarator _ _ i init => entered skips i ++ opt init
  | FunctionDeclaration _ _ i ps b =>
      leafOpt i ++ flat_map (entered skips) ps ++ entered skips b
  | ClassDeclaration _ _ i sup b => leafOpt i ++ opt sup ++ entered skips b
  | Other _ _ _ cs => flat_map (entered skips) cs
  | Program _ _ body => flat_map (entered skips) body
  end.

(** All the nodes of a tree. *)
Definition subnodes (n : node) : list node := entered (λ _, false) n.

(** The child nodes of a node (identifier leaves apart), for induction. *)
Definition childNodes (n : node) : list node :=
  let opt (o : option node) := match o with Some c => [c] | None => [] end in
  match n with
  | Identifier _ _ _ | Literal _ _ _ => []
  | MemberExpression _ _ o p _ => [o; p]
  | FunctionExpression _ _ _ ps b => ps ++ [b]
  | ExpressionStatement _ _ e => [e]
  | ImportSpecifier _ _ _ _ | ImportDefaultSpecifier _ _ _
  | ImportNamespaceSpecifier _ _ _ | ExportSpecifier _ _ _ _ => []
  | ImportDeclaration _ _ specs _ => specs
  | ExportNamedDeclaration _ _ d specs _ => opt d ++ specs
  | ExportDefaultDeclaration _ _ d => [d]
  | VariableDeclaration _ _ ds => ds
  | VariableDeclarator _ _ i init => i :: opt init
  | FunctionDeclaration _ _ _ ps b => ps ++ [b]
  | ClassDeclaration _ _ _ sup b => opt sup ++ [b]
  | Other _ _ _ cs => cs
  | Program _ _ body => body
  end.

(** ** Property lookup on a plain object

    [obj[key]] on an object created by a literal finds an own property or,
    failing that, a member inherited from [Object.prototype]: one of its
    functions, or the prototype itself for [__proto__]. *)

Definition objectPrototypeMembers : list string :=
  ["constructor"; "hasOwnProperty"; "isPrototypeOf"; "propertyIsEnumerable";
   "toLocaleString"; "toString"; "valueOf"; "__defineGetter__"; "__defineSetter__";
   "__lookupGetter__"; "__lookupSetter__"; "__proto__"].

Inductive propertyValue : Type :=
| OwnValue (value : string)
| Inherited (member : string)
| Undefined.

#[global] Instance propertyValue_eq_dec : EqDecision propertyValue.
Proof. solve_decision. Defined.

(** [obj[key]], for an object whose own properties are [own]. *)
Definition getProperty (own : string → option string) (key : string) : propertyValue :=
  match own key with
  | Some value => OwnValue value
  | None => if bool_decide (key ∈ objectPrototypeMembers) then Inherited key else Undefined
  end.

(** JavaScript truthiness of what a lookup returns: objects and functions
    are truthy. *)
Definition truthyProperty (v : propertyValue) : bool :=
  match v with
  | OwnValue value => Js.truthy value
  | Inherited _ => true
  | Undefined => false
  end.

(** ** MagicString

    The engine edits text through [MagicString]: [overwrite(start, end,
    content)] and [remove(start, end)] on offsets of the original string, then
    [toString()].  MagicString keeps the original as a chain of chunks.  An
    edit first splits the chain at its two offsets, then replaces the content
    of the chunks in between: [remove] empties them all, [overwrite] puts the
    new content in the first and empties the others.  A chunk that holds new
    content cannot be split again (MagicString throws); one that was emptied
    can, so text overwritten inside a removed range comes back. *)

Inductive edit : Type :=
| Overwrite (start fin : nat) (content : string)
| Remove (start fin : nat).

Definition editStart (e : edit) : nat :=
  match e with Overwrite s _ _ | Remove s _ => s end.
Definition editEnd (e : edit) : nat :=
  match e with Overwrite _ f _ | Remove _ f => f end.
Definition editContent (e : edit) : string :=
  match e with Overwrite _ _ c => c | Remove _ _ => "" end.

(** A [Chunk]: the range of the original it stands for, what it prints, and
    whether it was edited. *)
Record chunk : Type :=
  { chunkStart : nat; chunkEnd : nat; chunkContent : string; chunkEdited : bool }.

(** [_split(index)]: nothing to do at a chunk boundary; the chunk that
    contains [index] is cut in two, unless it holds new content. *)
Fixpoint splitAt (index : nat) (chunks : list chunk) : option (list chunk) :=
  match chunks with
  | [] => Some []
  | c :: rest =>
      if decide (chunkStart c < index ∧ index < chunkEnd c)
      then
        if chunkEdited c && Js.truthy (chunkContent c) then None
        else
          let k := index - chunkStart c in
          Some ({| chunkStart := chunkStart c; chunkEnd := index;
                   chunkContent := String.substring 0 k (chunkContent c);
                   chunkEdited := chunkEdited c |}
                :: {| chunkStart := index; chunkEnd := chunkEnd c;
                      chunkContent := String.substring k (chunkEnd c - index) (chunkContent c);
                      chunkEdited := chunkEdited c |}
                :: rest)
      else rest' ← splitAt index rest; Some (c :: rest')
  end.

(** [chunk.edit(...)] on the chunks of the range from [start] to [fin]: the
    one that starts the range gets [content], the others the empty string. *)
Definition editChunk (start fin : nat) (content : string) (c : chunk) : chunk :=
  if decide (start ≤ chunkStart c ∧ chunkEnd c ≤ fin)
  then {| chunkStart := chunkStart c; chunkEnd := chunkEnd c;
          chunkContent := if decide (chunkStart c = start) then content else "";
          chunkEdited := true |}
  else c.

Definition editRange (start fin : nat) (content : string) (chunks : list chunk)
  : option (list chunk) :=
  match splitAt start chunks with
  | Some atStart =>
      match splitAt fin atStart with
      | Some atBoth => Some (editChunk start fin content <$> atBoth)
      | None => None
      end
  | None => None
  end.

(** [s.remove(start, fin)] and [s.overwrite(start, fin, content)] on a string
    of length [len]; [None] where MagicString throws: a range out of bounds or
    backwards, an empty range to overwrite, a split inside new content.
    Removing an empty range does nothing. *)
Definition applyEdit (len : nat) (chunks : list chunk) (e : edit) : option (list chunk) :=
  match e with
  | Remove start fin =>
      if decide (start = fin) then Some chunks
      else if decide (start < fin ∧ fin ≤ len) then editRange start fin "" chunks
           else None
  | Overwrite start fin content =>
      if decide (start < fin ∧ fin ≤ len) then editRange start fin content chunks
      else None
  end.

(** [new MagicString(code)] *)
Definition magicString (code : string) : list chunk :=
  [{| chunkStart := 0; chunkEnd := String.length code;
      chunkContent := code; chunkEdited := false |}].

Definition applyEdits (len : nat) (edits : list edit) (chunks : list chunk)
  : option (list chunk) :=
  foldl (λ acc e, chunks ← acc; applyEdit len chunks e) (Some chunks) edits.

Definition chunksText (chunks : list chunk) : string :=
  foldr (λ c text, chunkContent c +:+ text) "" chunks.

(** [new MagicString(code)] followed by [edits], in the order they are made,
    and [toString()]; [None] when an edit throws. *)
Definition toString (code : string) (edits : list edit) : option string :=
  chunksText <$> applyEdits (String.length code) edits (magicString code).

(** More string primitives used on whole chunks. *)

(** [code.slice(start, fin)] *)
Definition slice (code : string) (start fin : nat) : string :=
  String.substring start (fin - start) code.

Fixpoint trimStart (s : string) : string :=
  match s with
  | String c s' => if Ascii.is_space c then trimStart s' else s
  | EmptyString => EmptyString
  end.

(** [s.trim()] *)
Definition trim (s : string) : string :=
  String.rev (trimStart (String.rev (trimStart s))).

(** ** [src/chunk-analyzer.ts] *)

Definition SHARED_CHUNK_NAME : string := "__shared__".

(** ** [src/chunk-merger.ts]: extraction *)

Record ExportMapping : Type := { exportedName : string; localName : string }.

Record ExportInfo : Type := { exports : list ExportMapping; hasDefault : bool }.

(** The names a [VariableDeclaration] binds through plain identifiers
    ([decl.id.type === 'Identifier']); destructuring patterns are passed over. *)
Definition declaratorNames (declarations : list node) : list string :=
  flat_map (λ decl, match decl with
                    | VariableDeclarator _ _ (Identifier _ _ name) _ => [name]
                    | _ => []
                    end) declarations.

(** The names one item of [ast.body] contributes in
    [extractTopLevelDeclarations]. *)
Definition declaredNames (item : node) : list string :=
  match item with
  | VariableDeclaration _ _ declarations => declaratorNames declarations
  | FunctionDeclaration _ _ (Some i) _ _ => [idName i]
  | ClassDeclaration _ _ (Some i) _ _ => [idName i]
  | ExportNamedDeclaration _ _ (Some declaration) _ _ =>
      match declaration with
      | VariableDeclaration _ _ declarations => declaratorNames declarations
      | FunctionDeclaration _ _ (Some i) _ _ => [idName i]
      | ClassDeclaration _ _ (Some i) _ _ => [idName i]
      | _ => []
      end
  | _ => []
  end.

(** [extractTopLevelDeclarations], on the tree of [parse(code)]. *)
Definition topLevelDeclarations (ast : node) : gset string :=
  list_to_set (flat_map declaredNames (programBody ast)).

(** [!source.startsWith('.') && !source.startsWith('/')] *)
Definition isExternalSource (source : string) : bool :=
  negb (Js.startsWith source ".") && negb (Js.startsWith source "/").

(** [spec.local.name] of an import specifier. *)
Definition specifierLocal (spec : node) : list string :=
  match spec with
  | ImportSpecifier _ _ _ l | ImportDefaultSpecifier _ _ l
  | ImportNamespaceSpecifier _ _ l => [idName l]
  | _ => []
  end.

Definition importedBindings (item : node) : list string :=
  match item with
  | ImportDeclaration _ _ specifiers source =>
      if isExternalSource source then flat_map specifierLocal specifiers else []
  | _ => []
  end.

(** [extractExternalImportBindings], on the tree of [parse(code)]. *)
Definition externalImportBindings (ast : node) : gset string :=
  list_to_set (flat_map importedBindings (programBody ast)).

(** [extractExports] *)
Definition declarationExports (declaration : node) : list ExportMapping :=
  let same name := {| exportedName := name; localName := name |} in
  match declaration with
  | VariableDeclaration _ _ declarations => same <$> declaratorNames declarations
  | FunctionDeclaration _ _ (Some i) _ _ => [same (idName i)]
  | ClassDeclaration _ _ (Some i) _ _ => [same (idName i)]
  | _ => []
  end.

Definition specifierExports (specifiers : list node) : list ExportMapping :=
  flat_map (λ spec, match spec with
                    | ExportSpecifier _ _ l e =>
                        [{| exportedName := idName e; localName := idName l |}]
                    | _ => []
                    end) specifiers.

Definition exportsVisitor : visitor ExportInfo := λ n info,
  match n with
  | ExportNamedDeclaration _ _ declaration specifiers _ =>
      ({| exports := exports info
                     ++ match declaration with
                        | Some d => declarationExports d
                        | None => []
                        end
                     ++ specifierExports specifiers;
          hasDefault := hasDefault info |}, false)
  | ExportDefaultDeclaration _ _ _ =>
      ({| exports := exports info; hasDefault := true |}, false)
  | _ => (info, false)
  end.

Definition exportsOf (ast : node) : ExportInfo :=
  walk exportsVisitor ast {| exports := []; hasDefault := false |}.

(** ** [renameIdentifiers] *)

(** [const newName = renameMap.get(name); if (newName) ...] *)
Definition renameTarget (renameMap : gmap string string) (name : string) : option string :=
  match renameMap !! name with
  | Some newName => if Js.truthy newName then Some newName else None
  | None => None
  end.

Definition renameVisitor (renameMap : gmap string string) : visitor (list edit) := λ n s,
  match n with
  | ImportSpecifier start fin imported local =>
      (match renameTarget renameMap (idName local) with
       | Some newName => s ++ [Overwrite start fin (idName imported +:+ " as " +:+ newName)]
       | None => s
       end, true)
  | ImportDefaultSpecifier start fin local =>
      (match renameTarget renameMap (idName local) with
       | Some newName => s ++ [Overwrite start fin ("{ default as " +:+ newName +:+ " }")]
       | None => s
       end, true)
  | ImportNamespaceSpecifier start fin local =>
      (match renameTarget renameMap (idName local) with
       | Some newName => s ++ [Overwrite start fin ("* as " +:+ newName)]
       | None => s
       end, true)
  | Identifier start fin name =>
      (match renameTarget renameMap name with
       | Some newName => s ++ [Overwrite start fin newName]
       | None => s
       end, false)
  | _ => (s, false)
  end.

Definition renameEdits (renameMap : gmap string string) (ast : node) : list edit :=
  walk (renameVisitor renameMap) ast [].

(** ** [stripExports] *)

Definition stripVisitor : visitor (list edit) := λ n s,
  match n with
  | ExportNamedDeclaration start fin declaration _ _ =>
      (s ++ [match declaration with
             | Some d => Remove start (nodeStart d)
             | None => Remove start fin
             end], false)
  | ExportDefaultDeclaration start _ declaration =>
      (s ++ [Overwrite start (nodeStart declaration) "const __shared_default__ = "], false)
  | _ => (s, false)
  end.

Definition stripEdits (ast : node) : list edit := walk stripVisitor ast [].

(** ** External imports and their deduplication *)

(** [type: 'default' | 'namespace' | 'named'] *)
Inductive specifierType : Type := defaultSpec | namespaceSpec | namedSpec.

#[global] Instance specifierType_eq_dec : EqDecision specifierType.
Proof. solve_decision. Defined.

Record Specifier : Type :=
  { spType : specifierType; spLocalName : string; spImportedName : option string }.

#[global] Instance Specifier_eq_dec : EqDecision Specifier.
Proof. solve_decision. Defined.

Record ExternalImport : Type :=
  { eiSource : string;
    eiSpecifiers : list Specifier;
    eiFullStatement : string;
    eiStart : nat;
    eiEnd : nat }.

Definition importSpecifier (spec : node) : list Specifier :=
  match spec with
  | ImportDefaultSpecifier _ _ l =>
      [{| spType := defaultSpec; spLocalName := idName l; spImportedName := None |}]
  | ImportNamespaceSpecifier _ _ l =>
      [{| spType := namespaceSpec; spLocalName := idName l; spImportedName := None |}]
  | ImportSpecifier _ _ i l =>
      [{| spType := namedSpec; spLocalName := idName l; spImportedName := Some (idName i) |}]
  | _ => []
  end.

Definition externalImportsVisitor (code : string) : visitor (list ExternalImport) := λ n imports,
  match n with
  | ImportDeclaration start fin specifiers source =>
      (if isExternalSource source
       then imports ++ [{| eiSource := source;
                           eiSpecifiers := flat_map importSpecifier specifiers;
                           eiFullStatement := slice code start fin;
                           eiStart := start;
                           eiEnd := fin |}]
       else imports, false)
  | _ => (imports, false)
  end.

(** [extractExternalImports], on the tree of [parse(code)]. *)
Definition externalImportsOf (code : string) (ast : node) : list ExternalImport :=
  walk (externalImportsVisitor code) ast [].

(** The test of the innermost loop of [removeOrRewriteDuplicateExternalImports]:
    same specifier type and, for named specifiers, same imported name. *)
Definition sameBinding (a b : Specifier) : bool :=
  match spType a, spType b with
  | namedSpec, namedSpec => bool_decide (spImportedName a = spImportedName b)
  | defaultSpec, defaultSpec => true
  | namespaceSpec, namespaceSpec => true
  | _, _ => false
  end.

(** The two inner loops with their [break]s: the first specifier of the other
    chunk's imports of this source that denotes the same binding. *)
Definition findDuplicate (spec : Specifier) (others : list ExternalImport) : option Specifier :=
  find (sameBinding spec) (flat_map eiSpecifiers others).

(** The statement rebuilt from the specifiers that are kept. *)
Definition rebuildParts (specifiersToKeep : list Specifier) : list string * list string :=
  foldl (λ '(parts, namedParts) spec,
           match spType spec with
           | defaultSpec => (spLocalName spec :: parts, namedParts)
           | namespaceSpec => (parts ++ ["* as " +:+ spLocalName spec], namedParts)
           | namedSpec =>
               (parts,
                namedParts ++
                  [if decide (spImportedName spec = Some (spLocalName spec))
                   then spLocalName spec
                   else default "" (spImportedName spec) +:+ " as " +:+ spLocalName spec])
           end) ([], []) specifiersToKeep.

Definition rebuildImport (specifiersToKeep : list Specifier) (source : string) : string :=
  let '(parts, namedParts) := rebuildParts specifiersToKeep in
  let parts := match namedParts with
               | [] => parts
               | _ => parts ++ ["{ " +:+ Js.join ", " namedParts +:+ " }"]
               end in
  "import " +:+ Js.join ", " parts +:+ " from '" +:+ source +:+ "';".

(** The specifiers of [imp] with no duplicate among [others]. *)
Definition specifiersToKeep (others : list ExternalImport) (imp : ExternalImport) : list Specifier :=
  filter (λ spec, findDuplicate spec others = None) (eiSpecifiers imp).

(** One iteration of the loop over the imports of the code being edited.
    [others] is the parameter the source calls [primaryImports], [imp] is
    [sharedImp]; [mergeSharedIntoPrimary] passes the primary's code and the
    shared chunk's imports. *)
Definition dedupeImport (others : list ExternalImport)
    (acc : list edit * gmap string string) (imp : ExternalImport)
  : list edit * gmap string string :=
  let '(edits, renameMap) := acc in
  match filter (λ o, eiSource o = eiSource imp) others with
  | [] => acc
  | forSource =>
      let renameMap :=
        foldl (λ m spec,
                 match findDuplicate spec forSource with
                 | Some other =>
                     if decide (spLocalName spec ≠ spLocalName other)
                     then <[spLocalName spec := spLocalName other]> m
                     else m
                 | None => m
                 end) renameMap (eiSpecifiers imp) in
      let keep := specifiersToKeep forSource imp in
      let edits :=
        if decide (length keep = 0) then edits ++ [Remove (eiStart imp) (eiEnd imp)]
        else if decide (length keep < length (eiSpecifiers imp))
             then edits ++ [Overwrite (eiStart imp) (eiEnd imp)
                              (rebuildImport keep (eiSource imp))]
             else edits in
      (edits, renameMap)
  end.

Definition dedupeImports (imports others : list ExternalImport)
  : list edit * gmap string string :=
  foldl (dedupeImport others) ([], ∅) imports.

(** ** Imports of the shared chunk *)

Definition isSharedChunkSource (source sharedChunkFileName : string) : bool :=
  Js.includes source SHARED_CHUNK_NAME ||
  Js.includes source (Js.stripJsExtension sharedChunkFileName).

(** [sharedExportToLocal.get(name) ?? fallback] *)
Definition resolveExport (sharedExportToLocal : gmap string string) (name fallback : string)
  : string :=
  default fallback (sharedExportToLocal !! name).

(** First pass of [removeSharedImportsAndRewriteRefs]: the namespace names and
    the renames of named and default import aliases. *)
Definition collectSpecifier (sharedExportToLocal : gmap string string)
    (acc : gset string * gmap string string) (spec : node)
  : gset string * gmap string string :=
  let '(namespaceNames, namedImportRenames) := acc in
  match spec with
  | ImportNamespaceSpecifier _ _ l => ({[idName l]} ∪ namespaceNames, namedImportRenames)
  | ImportSpecifier _ _ i l =>
      let actualLocal := resolveExport sharedExportToLocal (idName i) (idName i) in
      if decide (idName l ≠ actualLocal)
      then (namespaceNames, <[idName l := actualLocal]> namedImportRenames)
      else acc
  | ImportDefaultSpecifier _ _ l =>
      let actualLocal := resolveExport sharedExportToLocal "default" "__shared_default__" in
      if decide (idName l ≠ actualLocal)
      then (namespaceNames, <[idName l := actualLocal]> namedImportRenames)
      else acc
  | _ => acc
  end.

Definition collectVisitor (sharedChunkFileName : string)
    (sharedExportToLocal : gmap string string)
  : visitor (gset string * gmap string string) := λ n acc,
  match n with
  | ImportDeclaration _ _ specifiers source =>
      (if isSharedChunkSource source sharedChunkFileName
       then foldl (collectSpecifier sharedExportToLocal) acc specifiers
       else acc, false)
  | _ => (acc, false)
  end.

(** The text of a re-export rewritten against the merged shared code. *)
Definition reexportParts (sharedExportToLocal : gmap string string) (specifiers : list node)
  : list string :=
  flat_map (λ spec,
              match spec with
              | ExportSpecifier _ _ l e =>
                  let local := resolveExport sharedExportToLocal (idName l) (idName l) in
                  [if decide (local = idName e) then local
                   else local +:+ " as " +:+ idName e]
              | _ => []
              end) specifiers.

(** Second pass: remove the imports, rewrite re-exports, member accesses on a
    namespace and uses of a renamed alias. *)
Definition rewriteVisitor (sharedChunkFileName : string)
    (sharedExportToLocal : gmap string string)
    (namespaceNames : gset string) (namedImportRenames : gmap string string)
  : visitor (list edit) := λ n s,
  match n with
  | ImportDeclaration start fin _ source =>
      if isSharedChunkSource source sharedChunkFileName
      then (s ++ [Remove start fin], true)
      else (s, false)
  | ExportNamedDeclaration start fin _ specifiers (Some source) =>
      if isSharedChunkSource source sharedChunkFileName
      then (s ++ [Overwrite start fin
                    ("export { "
                     +:+ Js.join ", " (reexportParts sharedExportToLocal specifiers)
                     +:+ " };")], true)
      else (s, false)
  | MemberExpression start fin (Identifier _ _ objectName) (Identifier _ _ propertyName) false =>
      if Js.truthy objectName && bool_decide (objectName ∈ namespaceNames)
         && Js.truthy propertyName
      then (s ++ [Overwrite start fin
                    (resolveExport sharedExportToLocal propertyName propertyName)], true)
      else (s, false)
  | Identifier start fin name =>
      (if bool_decide (0 < size namedImportRenames)
       then match renameTarget namedImportRenames name with
            | Some newName => s ++ [Overwrite start fin newName]
            | None => s
            end
       else s, false)
  | _ => (s, false)
  end.

Definition rewriteSharedEdits (sharedChunkFileName : string)
    (sharedExportToLocal : gmap string string) (ast : node) : list edit :=
  let '(namespaceNames, namedImportRenames) :=
    walk (collectVisitor sharedChunkFileName sharedExportToLocal) ast (∅, ∅) in
  walk (rewriteVisitor sharedChunkFileName sharedExportToLocal
          namespaceNames namedImportRenames) ast [].

(** [extractSharedImports]: the imported names (not the aliases). *)
Definition sharedImportNames (specifiers : list node) : list string :=
  flat_map (λ spec,
              match spec with
              | ImportSpecifier _ _ i _ => [idName i]
              | ImportDefaultSpecifier _ _ _ => ["default"]
              | _ => []
              end) specifiers.

Definition sharedImportsVisitor (sharedChunkFileName : string) : visitor (gset string) :=
  λ n imports,
  match n with
  | ImportDeclaration _ _ specifiers source =>
      (if isSharedChunkSource source sharedChunkFileName
       then imports ∪ list_to_set (sharedImportNames specifiers)
       else imports, false)
  | _ => (imports, false)
  end.

Definition sharedImportsOf (sharedChunkFileName : string) (ast : node) : gset string :=
  walk (sharedImportsVisitor sharedChunkFileName) ast ∅.

(** ** [mergeSharedIntoPrimary] *)

(** Lines 899-915: the collision resolver.  [sharedDeclarations] are renamed
    when they meet a declaration or an external import binding of the
    (deduplicated) primary; then the shared chunk's external import bindings,
    unless already renamed. *)
Definition collisionRenameMap
    (sharedDeclarations primaryDeclarations
     primaryExternalBindings sharedExternalBindings : gset string)
  : gmap string string :=
  let collides (name : string) :=
    bool_decide (name ∈ primaryDeclarations) || bool_decide (name ∈ primaryExternalBindings) in
  let fromDeclarations :=
    set_fold (λ name (m : gmap string string),
                if collides name then <[name := "__shared$" +:+ name]> m else m)
             ∅ sharedDeclarations in
  set_fold (λ name (m : gmap string string),
              if collides name && negb (bool_decide (is_Some (m !! name)))
              then <[name := "__shared$" +:+ name]> m else m)
           fromDeclarations sharedExternalBindings.

(** [collisionRenameMap.get(exp.localName) ?? exp.localName] *)
Definition renamedLocal (renames : gmap string string) (exp : ExportMapping) : string :=
  default (localName exp) (renames !! localName exp).

(** [sharedExportToLocal]: later entries of the same exported name win. *)
Definition sharedExportToLocalMap (info : ExportInfo) (renames : gmap string string)
  : gmap string string :=
  let m := foldl (λ (m : gmap string string) exp,
                    <[exportedName exp := renamedLocal renames exp]> m) ∅ (exports info) in
  if hasDefault info then <["default" := "__shared_default__"]> m else m.

(** The entries of the shared object as (key, value) pairs, in the order
    they are written. *)
Definition sharedExportPairs (info : ExportInfo) (neededExports : gset string)
    (renames : gmap string string) : list (string * string) :=
  ((λ exp, (exportedName exp, renamedLocal renames exp))
     <$> filter (λ exp, exportedName exp ∈ neededExports) (exports info))
  ++ (if hasDefault info && bool_decide ("default" ∈ neededExports)
      then [("default", "__shared_default__")] else []).

(** One entry as text: shorthand when key and value coincide. *)
Definition renderEntry (entry : string * string) : string :=
  if decide (entry.1 = entry.2) then entry.2 else entry.1 +:+ ": " +:+ entry.2.

Definition sharedExportEntries (info : ExportInfo) (neededExports : gset string)
    (renames : gmap string string) : list string :=
  renderEntry <$> sharedExportPairs info neededExports renames.

(** The lines appended after the primary's code: nothing when no entry is
    needed by a satellite. *)
Definition sharedObjectLines (sharedProperty : string) (entries : list string) : list string :=
  match entries with
  | [] => []
  | _ => [""; "const " +:+ sharedProperty +:+ " = { " +:+ Js.join ", " entries +:+ " };";
          "export { " +:+ sharedProperty +:+ " };"]
  end.

Section WithParser.

Variable parse : ParseFn.

Definition extractTopLevelDeclarations (code : string) : option (gset string) :=
  topLevelDeclarations <$> parse code.

Definition extractExternalImportBindings (code : string) : option (gset string) :=
  externalImportBindings <$> parse code.

Definition renameIdentifiers (code : string) (renameMap : gmap string string) : option string :=
  if decide (size renameMap = 0) then Some code
  else ast ← parse code; toString code (renameEdits renameMap ast).

Definition extractExports (code : string) : option ExportInfo :=
  exportsOf <$> parse code.

Definition stripExports (code : string) : option string :=
  ast ← parse code; toString code (stripEdits ast).

Definition extractExternalImports (code : string) : option (list ExternalImport) :=
  externalImportsOf code <$> parse code.

Definition removeOrRewriteDuplicateExternalImports
    (sharedCode : string) (primaryImports : list ExternalImport)
  : option (string * gmap string string) :=
  sharedImports ← extractExternalImports sharedCode;
  let '(edits, renameMap) := dedupeImports sharedImports primaryImports in
  deduped ← toString sharedCode edits;
  Some (deduped, renameMap).

Definition removeSharedImportsAndRewriteRefs (code sharedChunkFileName : string)
    (sharedExportToLocal : gmap string string) : option string :=
  ast ← parse code;
  toString code (rewriteSharedEdits sharedChunkFileName sharedExportToLocal ast).

Definition extractSharedImports (code sharedChunkFileName : string) : option (gset string) :=
  sharedImportsOf sharedChunkFileName <$> parse code.

(** [mergeSharedIntoPrimary]; the result is the new [primaryChunk.code]. *)
Definition mergeSharedIntoPrimary
    (primaryCode sharedCode sharedFileName sharedProperty : string)
    (neededExports : gset string) : option string :=
  info ← extractExports sharedCode;
  sharedExternalImports ← extractExternalImports sharedCode;
  '(primaryCodeDeduped, externalRenameMap) ←
    removeOrRewriteDuplicateExternalImports primaryCode sharedExternalImports;
  sharedDeclarations ← extractTopLevelDeclarations sharedCode;
  primaryDeclarations ← extractTopLevelDeclarations primaryCodeDeduped;
  primaryExternalBindings ← extractExternalImportBindings primaryCodeDeduped;
  sharedExternalBindings ← extractExternalImportBindings sharedCode;
  let renames := collisionRenameMap sharedDeclarations primaryDeclarations
                   primaryExternalBindings sharedExternalBindings in
  processedSharedCode ←
    (if decide (0 < size renames) then renameIdentifiers sharedCode renames
     else Some sharedCode);
  strippedSharedCode ← stripExports processedSharedCode;
  let sharedExportToLocal := sharedExportToLocalMap info renames in
  primaryWithoutSharedImports ←
    removeSharedImportsAndRewriteRefs primaryCodeDeduped sharedFileName sharedExportToLocal;
  primaryWithoutSharedImports ←
    (if decide (0 < size externalRenameMap)
     then renameIdentifiers primaryWithoutSharedImports externalRenameMap
     else Some primaryWithoutSharedImports);
  let entries := sharedExportEntries info neededExports renames in
  Some (Js.join (String "010" "")
          ([trim strippedSharedCode; ""; trim primaryWithoutSharedImports]
           ++ sharedObjectLines sharedProperty entries)).

(** [generateBundle], step 2: the exports of the shared chunk the satellites
    import. *)
Definition collectNeededExports (satelliteCodes : list string) (sharedFileName : string)
  : option (gset string) :=
  foldl (λ acc code,
           needed ← acc;
           imports ← extractSharedImports code sharedFileName;
           Some (needed ∪ imports))
        (Some ∅) satelliteCodes.

End WithParser.

(** ** [src/esm-to-iife.ts] *)

Record ImportMapping : Type := { mImported : string; mLocal : string }.

Definition mappingOfSpecifier (spec : node) : list ImportMapping :=
  match spec with
  | ImportSpecifier _ _ i l => [{| mImported := idName i; mLocal := idName l |}]
  | ImportDefaultSpecifier _ _ l => [{| mImported := "default"; mLocal := idName l |}]
  | _ => []
  end.

Definition mappingsVisitor : visitor (list ImportMapping) := λ n mappings,
  match n with
  | ImportDeclaration _ _ specifiers source =>
      (if Js.includes source SHARED_CHUNK_NAME
       then mappings ++ flat_map mappingOfSpecifier specifiers
       else mappings, false)
  | _ => (mappings, false)
  end.

(** [extractSharedImportMappings], on the tree of [parse(code)]. *)
Definition sharedImportMappingsOf (ast : node) : list ImportMapping :=
  walk mappingsVisitor ast [].

(** *** [stripNamespaceGuards]: the two regular expressions *)

(** [\w] *)
Definition isWordChar (c : ascii) : bool :=
  let n := nat_of_ascii c in
  (Nat.leb 48 n && Nat.leb n 57) || (Nat.leb 65 n && Nat.leb n 90)
  || (Nat.leb 97 n && Nat.leb n 122) || Nat.eqb n 95.

Definition isLineBreak (c : ascii) : bool :=
  Nat.eqb (nat_of_ascii c) 10 || Nat.eqb (nat_of_ascii c) 13.

Fixpoint eatLiteral (lit s : string) {struct lit} : option string :=
  match lit with
  | EmptyString => Some s
  | String a lit' =>
      match s with
      | String b s' => if decide (a = b) then eatLiteral lit' s' else None
      | EmptyString => None
      end
  end.

Fixpoint takeWhile (p : ascii → bool) (s : string) : string :=
  match s with
  | String c s' => if p c then String c (takeWhile p s') else EmptyString
  | EmptyString => EmptyString
  end.

Fixpoint dropWhile (p : ascii → bool) (s : string) : string :=
  match s with
  | String c s' => if p c then dropWhile p s' else s
  | EmptyString => EmptyString
  end.

(** [\w+]: the word and what follows it. *)
Definition eatWord (s : string) : option (string * string) :=
  match takeWhile isWordChar s with
  | EmptyString => None
  | w => Some (w, dropWhile isWordChar s)
  end.

(** [\s*] *)
Definition eatSpaces (s : string) : string := dropWhile Ascii.is_space s.

(** [/^this\.\w+\s*=\s*this\.\w+\s*\|\|\s*\{\};\n/]: the replacement (empty)
    and the number of characters matched. *)
Definition matchGuardLine (s0 : string) : option (string * nat) :=
  s ← eatLiteral "this." s0;
  '(_, s) ← eatWord s;
  s ← eatLiteral "=" (eatSpaces s);
  s ← eatLiteral "this." (eatSpaces s);
  '(_, s) ← eatWord s;
  s ← eatLiteral "||" (eatSpaces s);
  s ← eatLiteral "{};" (eatSpaces s);
  rest ← eatLiteral (String "010" "") s;
  Some ("", String.length s0 - String.length rest).

(** [/^this\.(\w+\.\w+)\s*=/] replaced by ['$1 =']. *)
Definition matchThisAssignment (s0 : string) : option (string * nat) :=
  s ← eatLiteral "this." s0;
  '(w1, s) ← eatWord s;
  s ← eatLiteral "." s;
  '(w2, s) ← eatWord s;
  rest ← eatLiteral "=" (eatSpaces s);
  Some (w1 +:+ "." +:+ w2 +:+ " =", String.length s0 - String.length rest).

(** [s.replace(re, ...)] for a pattern anchored with [^] under the [gm]
    flags: [matcher] is tried at every line start outside a previous match. *)
Fixpoint replaceAtLineStarts (matcher : string → option (string * nat))
    (lineStart : bool) (skip : nat) (s : string) : string :=
  match s with
  | EmptyString => EmptyString
  | String c s' =>
      match skip with
      | S k => replaceAtLineStarts matcher (isLineBreak c) k s'
      | O =>
          match (if lineStart then matcher s else None) with
          | Some (replacement, S k) =>
              replacement +:+ replaceAtLineStarts matcher (isLineBreak c) k s'
          | _ => String c (replaceAtLineStarts matcher (isLineBreak c) 0 s')
          end
      end
  end.

Definition stripNamespaceGuards (code : string) : string :=
  replaceAtLineStarts matchThisAssignment true 0
    (replaceAtLineStarts matchGuardLine true 0 code).

(** *** [destructureSharedParameter] *)

(** First walk: the last parameter of the first function expression whose
    last parameter is an identifier. *)
Definition sharedParamVisitor : visitor (option (nat * nat * string)) := λ n found,
  match found, n with
  | None, FunctionExpression _ _ _ params _ =>
      (match last params with
       | Some (Identifier start fin name) => Some (start, fin, name)
       | _ => None
       end, false)
  | _, _ => (found, false)
  end.

Record PropertyAccess : Type := { paStart : nat; paEnd : nat; propName : string }.

(** Second walk: the non-computed member accesses on the shared parameter. *)
Definition accessVisitor (sharedParamName : string) : visitor (list PropertyAccess) :=
  λ n accesses,
  match n with
  | MemberExpression start fin (Identifier _ _ object) (Identifier _ _ property) false =>
      (if decide (object = sharedParamName)
       then accesses ++ [{| paStart := start; paEnd := fin; propName := property |}]
       else accesses, false)
  | _ => (accesses, false)
  end.

(** [Array.from(new Set(names))]: first occurrences, in order. *)
Definition uniq (names : list string) : list string :=
  foldl (λ acc name, if decide (name ∈ acc) then acc else acc ++ [name]) [] names.

Definition effectiveMappings (mappings : list ImportMapping)
    (propertyAccesses : list PropertyAccess) : list ImportMapping :=
  match mappings with
  | [] => (λ prop, {| mImported := prop; mLocal := prop |}) <$> uniq (propName <$> propertyAccesses)
  | _ => mappings
  end.

(** [new Map(effectiveMappings.map(m => [m.imported, m.local]))] *)
Definition importToLocal (mappings : list ImportMapping) : gmap string string :=
  foldl (λ (m : gmap string string) mapping, <[mImported mapping := mLocal mapping]> m)
        ∅ mappings.

Definition destructureEntries (mappings : list ImportMapping) : list string :=
  (λ m, if decide (mImported m = mLocal m) then mImported m
        else mImported m +:+ ": " +:+ mLocal m) <$> mappings.

Definition destructurePattern (mappings : list ImportMapping) : string :=
  "{ " +:+ Js.join ", " (destructureEntries mappings) +:+ " }".

Definition accessEdit (mappings : list ImportMapping) (a : PropertyAccess) : edit :=
  Overwrite (paStart a) (paEnd a)
    (default (propName a) (importToLocal mappings !! propName a)).

(** Third walk: the ['use strict'] directives. *)
Definition useStrictVisitor : visitor (list edit) := λ n s,
  match n with
  | ExpressionStatement start fin (Literal _ _ (Some "use strict")) =>
      (s ++ [Remove start fin], false)
  | _ => (s, false)
  end.

(** The edits [destructureSharedParameter] makes; [None] where it returns
    [code] as it is. *)
Definition destructureEdits (ast : node) (mappings : list ImportMapping) : option (list edit) :=
  match walk sharedParamVisitor ast None with
  | None => None
  | Some (sharedParamStart, sharedParamEnd, sharedParamName) =>
      let propertyAccesses := walk (accessVisitor sharedParamName) ast [] in
      match effectiveMappings mappings propertyAccesses with
      | [] => None
      | effective =>
          Some ([Overwrite sharedParamStart sharedParamEnd (destructurePattern effective)]
                ++ (accessEdit effective <$> propertyAccesses)
                ++ walk useStrictVisitor ast [])
      end
  end.

(** *** [convertToIife]

    The function is [async]: a rejected [await] or a [throw] ends it with the
    error.  It runs against Rollup, which is external: [rollup()] creates a
    build instance that stays open until [bundle.close()]. *)

Inductive completion (A : Type) : Type :=
| Normal (value : A)
| Throw (message : string).
Arguments Normal {A} value.
Arguments Throw {A} message.

Inductive event : Type := BundleCreated | BundleClosed.

(** An asynchronous computation: it appends to the log of what happened to
    build instances and completes normally or abruptly. *)
Definition Task (A : Type) : Type := list event → completion A * list event.

Definition taskRet {A : Type} (a : A) : Task A := λ log, (Normal a, log).

Definition taskBind {A B : Type} (m : Task A) (k : A → Task B) : Task B := λ log,
  match m log with
  | (Normal a, log') => k a log'
  | (Throw message, log') => (Throw message, log')
  end.

Definition await {A : Type} (c : completion A) : Task A := λ log, (c, log).

Definition emit (e : event) : Task unit := λ log, (Normal (), log ++ [e]).

Notation "'let*' x := m 'in' k" := (taskBind m (λ x, k))
  (at level 10, x pattern, m at level 100, k at level 200).

Record ConvertOptions : Type :=
  { optCode : string;
    optGlobalName : option string;
    optGlobals : gmap string string;
    optSharedGlobalPath : option string;
    optSharedChunkFileName : option string;
    optSkipRequireGlobals : option bool }.

(** What the engine uses of Rollup in [convertToIife]. *)
Record Rollup : Type :=
  { (** [rollup({ input, plugins })] on the virtual entry holding [code] *)
    rollupBuild : string → completion unit;
    (** the external module ids [bundle.generate] asks [output.globals] about *)
    externalIds : string → list string;
    (** [output[0].code] for a global name and the resolved globals *)
    renderIife : string → option string → list (string * propertyValue) → completion string }.

Definition quote : string := String "034" "".

Definition missingGlobalMessage (id : string) : string :=
  "[iife-split] Missing global for external " +:+ quote +:+ id +:+ quote +:+ ". "
  +:+ "IIFE builds require all externals to have a global mapping. "
  +:+ "Add it to output.globals in your Rollup config, e.g.: globals: { '"
  +:+ id +:+ "': 'SomeGlobalName' }".

(** [id] is the wrapper's own global name or a prefix of its property path. *)
Definition isOwnGlobal (opts : ConvertOptions) (id : string) : bool :=
  match optGlobalName opts with
  | Some globalName =>
      Js.truthy globalName
      && (bool_decide (id = globalName) || Js.startsWith globalName (id +:+ "."))
  | None => false
  end.

(** [id] is taken for the shared chunk. *)
Definition isSharedImport (opts : ConvertOptions) (id : string) : bool :=
  Js.truthyOpt (optSharedGlobalPath opts)
  && (Js.includes id SHARED_CHUNK_NAME
      || match optSharedChunkFileName opts with
         | Some sharedChunkFileName =>
             Js.truthy sharedChunkFileName
             && Js.includes id (Js.stripJsExtension sharedChunkFileName)
         | None => false
         end).

(** The callback returns what it finds: a string, [undefined], or whatever
    [globals[id]] inherits. *)
Definition rollupGlobals (opts : ConvertOptions) (id : string) : completion propertyValue :=
  if isOwnGlobal opts id then Normal (OwnValue id)
  else if isSharedImport opts id
       then Normal (match optSharedGlobalPath opts with
                    | Some sharedGlobalPath => OwnValue sharedGlobalPath
                    | None => Undefined
                    end)
       else match getProperty (λ key, optGlobals opts !! key) id with
            | Undefined =>
                if default false (optSkipRequireGlobals opts) then Normal Undefined
                else Throw (missingGlobalMessage id)
            | global => Normal global
            end.

(** [bundle.generate]: Rollup resolves the global of every external id, in
    order, and renders; an exception of the callback rejects the promise. *)
Fixpoint resolveGlobals (globalsFn : string → completion propertyValue) (ids : list string)
  : completion (list (string * propertyValue)) :=
  match ids with
  | [] => Normal []
  | id :: ids' =>
      match globalsFn id with
      | Throw message => Throw message
      | Normal g =>
          match resolveGlobals globalsFn ids' with
          | Throw message => Throw message
          | Normal gs => Normal ((id, g) :: gs)
          end
      end
  end.

Definition bundleGenerate (host : Rollup) (code : string) (name : option string)
    (globalsFn : string → completion propertyValue) : completion string :=
  match resolveGlobals globalsFn (externalIds host code) with
  | Throw message => Throw message
  | Normal resolved => renderIife host code name resolved
  end.

Section Conversion.

Variable parse : ParseFn.
Variable host : Rollup.

(** [parse(code)], which throws on a syntax error. *)
Definition parseOrThrow (code : string) : completion node :=
  match parse code with
  | Some ast => Normal ast
  | None => Throw "SyntaxError"
  end.

(** [s.toString()] after the edits, one of which may have thrown. *)
Definition editedOrThrow (edited : option string) : completion string :=
  match edited with
  | Some text => Normal text
  | None => Throw "Error"
  end.

Definition extractSharedImportMappings (code : string) : completion (list ImportMapping) :=
  match parseOrThrow code with
  | Normal ast => Normal (sharedImportMappingsOf ast)
  | Throw message => Throw message
  end.

Definition destructureSharedParameter (code : string) (mappings : list ImportMapping)
  : completion string :=
  match parseOrThrow code with
  | Normal ast =>
      match destructureEdits ast mappings with
      | Some edits => editedOrThrow (toString code edits)
      | None => Normal code
      end
  | Throw message => Throw message
  end.

Definition convertToIife (opts : ConvertOptions) : Task string :=
  let* importMappings :=
    (if Js.truthyOpt (optSharedGlobalPath opts)
     then await (extractSharedImportMappings (optCode opts))
     else taskRet []) in
  let* _ := await (rollupBuild host (optCode opts)) in
  let* _ := emit BundleCreated in
  let* result :=
    await (bundleGenerate host (optCode opts) (optGlobalName opts) (rollupGlobals opts)) in
  let* _ := emit BundleClosed in
  if Js.truthyOpt (optSharedGlobalPath opts) && bool_decide (0 < length importMappings)
  then await (destructureSharedParameter (stripNamespaceGuards result) importMappings)
  else if Js.truthyOpt (optGlobalName opts)
          && negb (Js.includes (default "" (optGlobalName opts)) ".")
       then taskRet result
       else if Js.truthyOpt (optGlobalName opts)
            then taskRet (stripNamespaceGuards result)
            else taskRet result.

End Conversion.

(** * Notions for the statements, and sample programs *)

(** ** Wrapping *)

(** A primary chunk with one external dependency and no [globals] entry for
    it, converted with the default options. *)
Definition lodashOptions : ConvertOptions :=
  {| optCode := "import _ from 'lodash'; export const version = _.VERSION;";
     optGlobalName := Some "MyLib";
     optGlobals := ∅;
     optSharedGlobalPath := None;
     optSharedChunkFileName := None;
     optSkipRequireGlobals := None |}.

(** A primary chunk whose external dependency is the module [constructor],
    with no [globals] entry for it. *)
Definition constructorOptionsWith (skipRequireGlobals : option bool) : ConvertOptions :=
  {| optCode := "import make from 'constructor'; export const made = make();";
     optGlobalName := Some "MyLib";
     optGlobals := ∅;
     optSharedGlobalPath := None;
     optSharedChunkFileName := None;
     optSkipRequireGlobals := skipRequireGlobals |}.

Definition constructorOptions : ConvertOptions := constructorOptionsWith None.

Definition lodashHost : Rollup :=
  {| rollupBuild := λ _, Normal ();
     externalIds := λ _, ["lodash"];
     renderIife := λ code _ _, Normal code |}.

(** ** The collision resolver *)



Definition helperSharedCode : string :=
  "export function helper() { return 'helper-result'; }".

Definition helperSharedAst : node :=
  Program 0 52
    [ExportNamedDeclaration 0 52
       (Some (FunctionDeclaration 7 52 (Some (Ident 16 22 "helper")) []
                (Other 25 52 "BlockStatement"
                   [Other 27 50 "ReturnStatement" [Literal 34 49 (Some "helper-result")]])))
       [] None].


(** ** The shared object *)


(** The shared chunk of the test "should only export needed symbols". *)
Definition threeExports : ExportInfo :=
  {| exports := [ {| exportedName := "usedByPrimary"; localName := "usedByPrimary" |};
                  {| exportedName := "usedBySatellite"; localName := "usedBySatellite" |};
                  {| exportedName := "unusedExport"; localName := "unusedExport" |} ];
     hasDefault := false |}.

(** ** The reference rewriter *)

(** The nodes [renameIdentifiers] calls [this.skip()] on. *)
Definition renameSkips (n : node) : bool :=
  match n with
  | ImportSpecifier _ _ _ _ | ImportDefaultSpecifier _ _ _
  | ImportNamespaceSpecifier _ _ _ => true
  | _ => false
  end.

(** The edit [renameIdentifiers] makes on entering a node. *)
Definition renameNodeEdits (renameMap : gmap string string) (n : node) : list edit :=
  match n with
  | ImportSpecifier start fin imported local =>
      match renameTarget renameMap (idName local) with
      | Some newName => [Overwrite start fin (idName imported +:+ " as " +:+ newName)]
      | None => []
      end
  | ImportDefaultSpecifier start fin local =>
      match renameTarget renameMap (idName local) with
      | Some newName => [Overwrite start fin ("{ default as " +:+ newName +:+ " }")]
      | None => []
      end
  | ImportNamespaceSpecifier start fin local =>
      match renameTarget renameMap (idName local) with
      | Some newName => [Overwrite start fin ("* as " +:+ newName)]
      | None => []
      end
  | Identifier start fin name =>
      match renameTarget renameMap name with
      | Some newName => [Overwrite start fin newName]
      | None => []
      end
  | _ => []
  end.

(** ** Deduplication of external imports *)

(** What one import statement of the edited code contributes to the edits
    and to the rename map. *)
Definition importEdits (others : list ExternalImport) (imp : ExternalImport) : list edit :=
  match filter (λ o, eiSource o = eiSource imp) others with
  | [] => []
  | forSource =>
      let keep := specifiersToKeep forSource imp in
      if decide (length keep = 0) then [Remove (eiStart imp) (eiEnd imp)]
      else if decide (length keep < length (eiSpecifiers imp))
           then [Overwrite (eiStart imp) (eiEnd imp) (rebuildImport keep (eiSource imp))]
           else []
  end.

Definition specifierRename (forSource : list ExternalImport) (spec : Specifier)
  : list (string * string) :=
  match findDuplicate spec forSource with
  | Some other =>
      if decide (spLocalName spec ≠ spLocalName other)
      then [(spLocalName spec, spLocalName other)] else []
  | None => []
  end.

Definition importRenames (others : list ExternalImport) (imp : ExternalImport)
  : list (string * string) :=
  flat_map (specifierRename (filter (λ o, eiSource o = eiSource imp) others))
           (eiSpecifiers imp).

Definition insertPair (m : gmap string string) (p : string * string) : gmap string string :=
  <[p.1 := p.2]> m.

(** The primary imports [a] as [c] and [d] from ['lib']; the shared chunk
    imports [a] as [b] from it. *)
Definition aliasPrimaryCode : string := "import { a as c, d } from 'lib'; c(d);".

Definition aliasPrimaryAst : node :=
  Program 0 38
    [ImportDeclaration 0 32
       [ImportSpecifier 9 15 (Ident 9 10 "a") (Ident 14 15 "c");
        ImportSpecifier 17 18 (Ident 17 18 "d") (Ident 17 18 "d")] "lib";
     ExpressionStatement 33 38
       (Other 33 37 "CallExpression" [Identifier 33 34 "c"; Identifier 35 36 "d"])].

Definition aliasSharedCode : string := "import { a as b } from 'lib'; export const x = b;".

Definition aliasSharedAst : node :=
  Program 0 49
    [ImportDeclaration 0 29
       [ImportSpecifier 9 15 (Ident 9 10 "a") (Ident 14 15 "b")] "lib";
     ExportNamedDeclaration 30 49
       (Some (VariableDeclaration 37 49
                [VariableDeclarator 43 48 (Identifier 43 44 "x")
                   (Some (Identifier 47 48 "b"))]))
       [] None].

(** ** Destructuring recovery *)


(** The parameter a function expression offers to the first walk. *)
Definition lastIdentifierParam (n : node) : option (nat * nat * string) :=
  match n with
  | FunctionExpression _ _ _ params _ =>
      match last params with
      | Some (Identifier start fin name) => Some (start, fin, name)
      | _ => None
      end
  | _ => None
  end.





(** ** Stripping exports and the declared names *)

(** What the grammar admits after [export]: a variable, function or class
    declaration. *)
Definition exportedDeclarationOk (item : node) : bool :=
  match item with
  | ExportNamedDeclaration _ _ (Some declaration) _ _ =>
      match declaration with
      | VariableDeclaration _ _ _ | FunctionDeclaration _ _ _ _ _
      | ClassDeclaration _ _ _ _ _ => true
      | _ => false
      end
  | _ => true
  end.

Definition isDefaultExport (item : node) : bool :=
  match item with ExportDefaultDeclaration _ _ _ => true | _ => false end.

(** [export default 42;] *)
Definition defaultOnlyAst : node :=
  Program 0 18 [ExportDefaultDeclaration 0 18 (Literal 15 17 None)].

(** ** Bindings of a module *)

(** The names a binding pattern binds. *)
Fixpoint patternNames (p : node) : list string :=
  match p with
  | Identifier _ _ name => [name]
  | Other _ _ type children =>
      if decide (type = "ObjectPattern" ∨ type = "ArrayPattern" ∨ type = "RestElement")
      then flat_map patternNames children
      else if decide (type = "Property")
           then match children with [_; value] => patternNames value | _ => [] end
           else if decide (type = "AssignmentPattern")
                then match children with target :: _ => patternNames target | [] => [] end
                else []
  | _ => []
  end.

Definition declaratorBindings (declarator : node) : list string :=
  match declarator with
  | VariableDeclarator _ _ i _ => patternNames i
  | _ => []
  end.

Definition declarationBindings (declaration : node) : list string :=
  match declaration with
  | VariableDeclaration _ _ declarations => flat_map declaratorBindings declarations
  | FunctionDeclaration _ _ (Some i) _ _ => [idName i]
  | ClassDeclaration _ _ (Some i) _ _ => [idName i]
  | _ => []
  end.

(** The names one module item binds in the module scope. *)
Definition itemBindings (item : node) : list string :=
  match item with
  | ImportDeclaration _ _ specifiers _ => flat_map specifierLocal specifiers
  | ExportNamedDeclaration _ _ (Some declaration) _ _ => declarationBindings declaration
  | ExportDefaultDeclaration _ _ declaration =>
      match declaration with
      | FunctionDeclaration _ _ _ _ _ | ClassDeclaration _ _ _ _ _ =>
          declarationBindings declaration
      | _ => []
      end
  | _ => declarationBindings item
  end.

(** Every top-level declaration and import binding of a module, one entry
    per binding. *)
Definition boundNames (ast : node) : list string :=
  flat_map itemBindings (programBody ast).

(** No identifier is bound by more than one top-level declaration or import
    binding. *)
Definition collisionFree (ast : node) : Prop := NoDup (boundNames ast).


(** *** Collision-freedom *)

(** The repository's test "should rename shared declarations that collide
    with primary declarations":
    [import { sharedHelper } from './__shared__.js'; const helper = 'primary-helper'; export function mainFeature() { return helper + ' ' + sharedHelper(); }] *)
Definition collidingPrimaryAst : node :=
  Program 0 152
    [ImportDeclaration 0 47
       [ImportSpecifier 9 21 (Ident 9 21 "sharedHelper") (Ident 9 21 "sharedHelper")]
       "./__shared__.js";
     VariableDeclaration 48 80
       [VariableDeclarator 54 79 (Identifier 54 60 "helper")
          (Some (Literal 63 79 (Some "primary-helper")))];
     ExportNamedDeclaration 81 152
       (Some (FunctionDeclaration 88 152 (Some (Ident 97 108 "mainFeature")) []
                (Other 111 152 "BlockStatement"
                   [Other 113 150 "ReturnStatement"
                      [Other 120 149 "BinaryExpression"
                         [Other 120 132 "BinaryExpression"
                            [Identifier 120 126 "helper"; Literal 129 132 (Some " ")];
                          Other 135 149 "CallExpression"
                            [Identifier 135 147 "sharedHelper"]]]])))
       [] None].

(** A shared chunk that binds [helper] by a destructuring pattern:
    [const { helper } = globalThis.tools; export function sharedHelper() { return helper(); }] *)
Definition destructuringSharedAst : node :=
  Program 0 88
    [VariableDeclaration 0 36
       [VariableDeclarator 6 35
          (Other 6 16 "ObjectPattern"
             [Other 8 14 "Property" [Identifier 8 14 "helper"; Identifier 8 14 "helper"]])
          (Some (MemberExpression 19 35 (Identifier 19 29 "globalThis")
                   (Identifier 30 35 "tools") false))];
     ExportNamedDeclaration 37 88
       (Some (FunctionDeclaration 44 88 (Some (Ident 53 65 "sharedHelper")) []
                (Other 68 88 "BlockStatement"
                   [Other 70 86 "ReturnStatement"
                      [Other 77 85 "CallExpression" [Identifier 77 83 "helper"]]])))
       [] None].

(** * The rest of the engine *)

(** ** [src/chunk-analyzer.ts]: [analyzeChunks] *)

(** What the engine reads of Rollup's [OutputChunk]. *)
Record OutputChunk : Type :=
  { chName : string;
    chFileName : string;
    chIsEntry : bool;
    chCode : string;
    chImports : list string;
    chExports : list string }.

(** A value of the [OutputBundle]: a chunk or an asset. *)
Inductive bundleItem : Type :=
| ChunkItem (chunk : OutputChunk)
| AssetItem (fileName : string).

(** [Object.values(bundle).filter(isOutputChunk)], the bundle given by its
    values in order. *)
Definition outputChunks (bundle : list bundleItem) : list OutputChunk :=
  flat_map (λ item, match item with ChunkItem chunk => [chunk] | AssetItem _ => [] end) bundle.

Record ChunkAnalysis : Type :=
  { sharedChunk : option OutputChunk;
    primaryChunk : OutputChunk;
    satelliteChunks : list OutputChunk;
    unsharedChunks : list OutputChunk }.

Definition isSharedChunk (chunk : OutputChunk) : bool :=
  negb (chIsEntry chunk) && bool_decide (chName chunk = SHARED_CHUNK_NAME).

Definition isPrimaryChunk (primaryEntryName : string) (chunk : OutputChunk) : bool :=
  chIsEntry chunk && bool_decide (chName chunk = primaryEntryName).

Definition isSatelliteChunk (primaryEntryName : string) (chunk : OutputChunk) : bool :=
  chIsEntry chunk && negb (bool_decide (chName chunk = primaryEntryName)).

Definition isUnsharedChunk (chunk : OutputChunk) : bool :=
  negb (chIsEntry chunk) && negb (bool_decide (chName chunk = SHARED_CHUNK_NAME)).

Definition primaryNotFoundMessage (primaryEntryName : string) (chunks : list OutputChunk)
  : string :=
  "Primary entry " +:+ quote +:+ primaryEntryName +:+ quote +:+ " not found in bundle. "
  +:+ "Available entries: "
  +:+ Js.join ", " (chName <$> filter (λ chunk, chIsEntry chunk = true) chunks).

Definition analyzeChunks (bundle : list bundleItem) (primaryEntryName : string)
  : completion ChunkAnalysis :=
  let chunks := outputChunks bundle in
  let sharedChunk := find isSharedChunk chunks in
  match find (isPrimaryChunk primaryEntryName) chunks with
  | None => Throw (primaryNotFoundMessage primaryEntryName chunks)
  | Some primaryChunk =>
      Normal {| sharedChunk := sharedChunk;
                primaryChunk := primaryChunk;
                satelliteChunks :=
                  filter (λ chunk, isSatelliteChunk primaryEntryName chunk = true) chunks;
                unsharedChunks := filter (λ chunk, isUnsharedChunk chunk = true) chunks |}
  end.

(** ** [src/chunk-merger.ts]: unshared chunks *)

Definition isChunkSource (source chunkFileName : string) : bool :=
  Js.includes source (Js.stripJsExtension chunkFileName).

Definition chunkImportsFrom (chunk : OutputChunk) (sourceChunkFileName : string) : bool :=
  existsb (λ imp, isChunkSource imp sourceChunkFileName) (chImports chunk).

(** First pass of [removeChunkImportsAndRewriteRefs]. *)
Definition collectChunkSpecifier (exportToLocal : gmap string string)
    (acc : gset string * gmap string string) (spec : node)
  : gset string * gmap string string :=
  let '(namespaceNames, namedImportRenames) := acc in
  match spec with
  | ImportNamespaceSpecifier _ _ l => ({[idName l]} ∪ namespaceNames, namedImportRenames)
  | ImportSpecifier _ _ i l =>
      let actualLocal := resolveExport exportToLocal (idName i) (idName i) in
      if decide (idName l ≠ actualLocal)
      then (namespaceNames, <[idName l := actualLocal]> namedImportRenames)
      else acc
  | ImportDefaultSpecifier _ _ l =>
      let actualLocal := resolveExport exportToLocal "default" "__default__" in
      if decide (idName l ≠ actualLocal)
      then (namespaceNames, <[idName l := actualLocal]> namedImportRenames)
      else acc
  | _ => acc
  end.

Definition chunkCollectVisitor (chunkFileName : string) (exportToLocal : gmap string string)
  : visitor (gset string * gmap string string) := λ n acc,
  match n with
  | ImportDeclaration _ _ specifiers source =>
      (if isChunkSource source chunkFileName
       then foldl (collectChunkSpecifier exportToLocal) acc specifiers
       else acc, false)
  | _ => (acc, false)
  end.

(** Second pass.  Unlike the rewriter for the shared chunk it never calls
    [this.skip()] and knows no re-exports. *)
Definition chunkRewriteVisitor (chunkFileName : string) (exportToLocal : gmap string string)
    (namespaceNames : gset string) (namedImportRenames : gmap string string)
  : visitor (list edit) := λ n s,
  match n with
  | ImportDeclaration start fin _ source =>
      (if isChunkSource source chunkFileName then s ++ [Remove start fin] else s, false)
  | MemberExpression start fin (Identifier _ _ objectName) (Identifier _ _ propertyName) false =>
      (if Js.truthy objectName && bool_decide (objectName ∈ namespaceNames)
          && Js.truthy propertyName
       then s ++ [Overwrite start fin (resolveExport exportToLocal propertyName propertyName)]
       else s, false)
  | Identifier start fin name =>
      (if bool_decide (0 < size namedImportRenames)
       then match renameTarget namedImportRenames name with
            | Some newName => s ++ [Overwrite start fin newName]
            | None => s
            end
       else s, false)
  | _ => (s, false)
  end.

Definition chunkRewriteEdits (chunkFileName : string) (exportToLocal : gmap string string)
    (ast : node) : list edit :=
  let '(namespaceNames, namedImportRenames) :=
    walk (chunkCollectVisitor chunkFileName exportToLocal) ast (∅, ∅) in
  walk (chunkRewriteVisitor chunkFileName exportToLocal namespaceNames namedImportRenames)
    ast [].

(** [exportToLocal] of [mergeUnsharedIntoImporters]. *)
Definition unsharedExportToLocal (info : ExportInfo) : gmap string string :=
  let m := foldl (λ (m : gmap string string) exp, <[exportedName exp := localName exp]> m)
             ∅ (exports info) in
  if hasDefault info then <["default" := "__unshared_default__"]> m else m.

(** [[a-zA-Z0-9]] *)
Definition isAlphaNumeric (c : ascii) : bool :=
  let n := nat_of_ascii c in
  (Nat.leb 48 n && Nat.leb n 57) || (Nat.leb 65 n && Nat.leb n 90)
  || (Nat.leb 97 n && Nat.leb n 122).

Fixpoint mapChars (f : ascii → ascii) (s : string) : string :=
  match s with
  | EmptyString => EmptyString
  | String c s' => String (f c) (mapChars f s')
  end.

(** [unsharedChunk.name.replace(/[^a-zA-Z0-9]/g, '_')] *)
Definition chunkSuffix (name : string) : string :=
  mapChars (λ c, if isAlphaNumeric c then c else "_"%char) name.

(** [`__${suffix}$${name}`] *)
Definition unsharedName (suffix name : string) : string :=
  "__" +:+ suffix +:+ "$" +:+ name.

Definition unsharedRenameMap (suffix : string) (unsharedDeclarations : gset string)
  : gmap string string :=
  set_fold (λ name (m : gmap string string), <[name := unsharedName suffix name]> m)
    ∅ unsharedDeclarations.

(** [localExportToLocal]: the export map seen through the renames. *)
Definition localExportToLocalMap (exportToLocal renameMap : gmap string string)
  : gmap string string :=
  (λ localName, default localName (renameMap !! localName)) <$> exportToLocal.

(** [s.replace(/<pattern>/g, replacement)] for a pattern without
    metacharacters; [skip] characters belong to the match just replaced. *)
Fixpoint replaceAllFrom (pattern replacement : string) (skip : nat) (s : string) : string :=
  match s with
  | EmptyString => EmptyString
  | String c s' =>
      match skip with
      | S k => replaceAllFrom pattern replacement k s'
      | O =>
          if Js.startsWith s pattern
          then replacement
               +:+ replaceAllFrom pattern replacement (String.length pattern - 1) s'
          else String c (replaceAllFrom pattern replacement 0 s')
      end
  end.

Definition replaceAll (pattern replacement s : string) : string :=
  replaceAllFrom pattern replacement 0 s.

Section Unshared.

Variable parse : ParseFn.

Definition removeChunkImportsAndRewriteRefs (code chunkFileName : string)
    (exportToLocal : gmap string string) : option string :=
  ast ← parse code;
  toString code (chunkRewriteEdits chunkFileName exportToLocal ast).

(** One iteration of the loop over the entry chunks; the result is the entry
    with its new [code]. *)
Definition mergeUnsharedIntoEntry (unsharedChunk : OutputChunk) (strippedCode : string)
    (exportToLocal : gmap string string) (entry : OutputChunk) : option OutputChunk :=
  if negb (chunkImportsFrom entry (chFileName unsharedChunk)) then Some entry
  else
    unsharedDeclarations ← extractTopLevelDeclarations parse (chCode unsharedChunk);
    let suffix := chunkSuffix (chName unsharedChunk) in
    let renameMap := unsharedRenameMap suffix unsharedDeclarations in
    codeToInline ← renameIdentifiers parse strippedCode renameMap;
    let localExportToLocal := localExportToLocalMap exportToLocal renameMap in
    entryWithoutImports ←
      removeChunkImportsAndRewriteRefs (chCode entry) (chFileName unsharedChunk)
        localExportToLocal;
    Some {| chName := chName entry;
            chFileName := chFileName entry;
            chIsEntry := chIsEntry entry;
            chCode := trim codeToInline +:+ String "010" (String "010" "")
                      +:+ trim entryWithoutImports;
            chImports := chImports entry;
            chExports := chExports entry |}.

(** [mergeUnsharedIntoImporters]; the result is the entry chunks after the
    merge. *)
Definition mergeUnsharedIntoImporters (unsharedChunk : OutputChunk)
    (entryChunks : list OutputChunk) : option (list OutputChunk) :=
  info ← extractExports parse (chCode unsharedChunk);
  let exportToLocal := unsharedExportToLocal info in
  strippedCode ← stripExports parse (chCode unsharedChunk);
  let strippedCode :=
    if hasDefault info
    then replaceAll "const __shared_default__ = " "const __unshared_default__ = " strippedCode
    else strippedCode in
  mapM (mergeUnsharedIntoEntry unsharedChunk strippedCode exportToLocal) entryChunks.

End Unshared.

(** ** [src/index.ts]: the options of the conversions *)

(** The own property [name] of a record given by its entries in order. *)
Definition ownProperty (secondaryProps : list (string * string)) (name : string)
  : option string :=
  snd <$> find (λ entry, bool_decide (entry.1 = name)) secondaryProps.

Definition secondaryNotFoundMessage (name : string) (secondaryProps : list (string * string))
  : string :=
  "Secondary entry " +:+ quote +:+ name +:+ quote +:+ " not found in secondaryProps. "
  +:+ "Available entries: "
  +:+ (let keys := Js.join ", " secondaryProps.*1 in
       if Js.truthy keys then keys else "(none)").

(** The options [generateBundle] converts the primary chunk with. *)
Definition primaryOptions (code primaryGlobal : string) (outputGlobals : gmap string string)
    (skipRequireGlobals : option bool) : ConvertOptions :=
  {| optCode := code;
     optGlobalName := Some primaryGlobal;
     optGlobals := outputGlobals;
     optSharedGlobalPath := None;
     optSharedChunkFileName := None;
     optSkipRequireGlobals := skipRequireGlobals |}.

(** The options it converts a satellite with: a satellite that exports
    something needs a property name.  [display] is the text the template
    string gives for a member inherited from [Object.prototype], which the
    JavaScript engine determines. *)
Definition satelliteOptions (display : string → string)
    (satellite : OutputChunk) (primaryGlobal sharedProp : string)
    (secondaryProps : list (string * string)) (outputGlobals : gmap string string)
    (sharedChunkFileName : option string) (skipRequireGlobals : option bool)
  : completion ConvertOptions :=
  let satelliteProp := getProperty (ownProperty secondaryProps) (chName satellite) in
  let hasExports := bool_decide (0 < length (chExports satellite)) in
  if negb (truthyProperty satelliteProp) && hasExports
  then Throw (secondaryNotFoundMessage (chName satellite) secondaryProps)
  else Normal {| optCode := chCode satellite;
                 optGlobalName :=
                   match satelliteProp with
                   | OwnValue prop =>
                       if Js.truthy prop then Some (primaryGlobal +:+ "." +:+ prop) else None
                   | Inherited member => Some (primaryGlobal +:+ "." +:+ display member)
                   | Undefined => None
                   end;
                 optGlobals := outputGlobals;
                 optSharedGlobalPath := Some (primaryGlobal +:+ "." +:+ sharedProp);
                 optSharedChunkFileName := sharedChunkFileName;
                 optSkipRequireGlobals := skipRequireGlobals |}.

(** ** Sample bundles *)

Definition sampleChunk (name fileName : string) (isEntry : bool) (imports : list string)
  : OutputChunk :=
  {| chName := name; chFileName := fileName; chIsEntry := isEntry;
     chCode := ""; chImports := imports; chExports := [] |}.

(** A bundle with a primary entry, one satellite, the shared chunk, an
    unshared chunk and an asset. *)
Definition sampleBundle : list bundleItem :=
  [ChunkItem (sampleChunk "main" "main.js" true ["__shared__.js"]);
   AssetItem "style.css";
   ChunkItem (sampleChunk "admin" "admin.js" true ["__shared__.js"; "locale-en.js"]);
   ChunkItem (sampleChunk "__shared__" "__shared__.js" false []);
   ChunkItem (sampleChunk "locale-en" "locale-en.js" false [])].

(** ** Identifier characters *)

(** A character of an ASCII identifier: a letter, a digit, [_] or [$]. *)
Definition isIdentifierChar (c : ascii) : bool :=
  isAlphaNumeric c || Nat.eqb (nat_of_ascii c) 95 || Nat.eqb (nat_of_ascii c) 36.

Fixpoint allChars (p : ascii → bool) (s : string) : bool :=
  match s with
  | EmptyString => true
  | String c s' => p c && allChars p s'
  end.

(** ** A sample unshared merge *)

(** The unshared chunk [locale-en]: [export const messages = 'hi';] *)
Definition localeChunk : OutputChunk :=
  {| chName := "locale-en"; chFileName := "locale-en.js"; chIsEntry := false;
     chCode := "export const messages = 'hi';"; chImports := []; chExports := ["messages"] |}.

(** An entry that imports from it and one that does not. *)
Definition localeUser : OutputChunk :=
  {| chName := "main"; chFileName := "main.js"; chIsEntry := true;
     chCode := "import { messages } from './locale-en.js'; console.log(messages);";
     chImports := ["locale-en.js"]; chExports := [] |}.

Definition localeStranger : OutputChunk :=
  {| chName := "admin"; chFileName := "admin.js"; chIsEntry := true;
     chCode := "console.log(1);"; chImports := []; chExports := [] |}.

(** The parser on the three texts the merge hands to it. *)
Definition localeParse : ParseFn := λ code,
  if decide (code = "export const messages = 'hi';")
  then Some (Program 0 29
               [ExportNamedDeclaration 0 29
                  (Some (VariableDeclaration 7 29
                           [VariableDeclarator 13 28 (Identifier 13 21 "messages")
                              (Some (Literal 24 28 (Some "hi")))])) [] None])
  else if decide (code = "const messages = 'hi';")
  then Some (Program 0 22
               [VariableDeclaration 0 22
                  [VariableDeclarator 6 21 (Identifier 6 14 "messages")
                     (Some (Literal 17 21 (Some "hi")))]])
  else if decide (code = "import { messages } from './locale-en.js'; console.log(messages);")
  then Some (Program 0 65
               [ImportDeclaration 0 42
                  [ImportSpecifier 9 17 (Ident 9 17 "messages") (Ident 9 17 "messages")]
                  "./locale-en.js";
                ExpressionStatement 43 65
                  (Other 43 64 "CallExpression"
                     [MemberExpression 43 54 (Identifier 43 50 "console")
                        (Identifier 51 54 "log") false;
                      Identifier 55 63 "messages"])])
  else None.

(** ** A sample satellite *)

(** [import { helper } from './__shared__.js'; helper();] *)
Definition satelliteCode : string := "import { helper } from './__shared__.js'; helper();".

Definition satelliteAst : node :=
  Program 0 51
    [ImportDeclaration 0 41
       [ImportSpecifier 9 15 (Ident 9 15 "helper") (Ident 9 15 "helper")] "./__shared__.js";
     ExpressionStatement 42 51 (Other 42 50 "CallExpression" [Identifier 42 48 "helper"])].

Definition satelliteChunk : OutputChunk :=
  {| chName := "admin"; chFileName := "admin.js"; chIsEntry := true;
     chCode := satelliteCode; chImports := ["__shared__.js"]; chExports := [] |}.

(** What Rollup renders for it under the name [MyLib.Admin]. *)
Definition satelliteWrapper : string :=
  "this.MyLib = this.MyLib || {};" +:+ String "010" ""
  +:+ "this.MyLib.Admin = (function (exports, sh) { sh.helper(); return exports; })({}, MyLib.Shared);".

(** The wrapper without its guards, as the parser reads it. *)
Definition strippedWrapperAst : node :=
  Program 0 90
    [ExpressionStatement 0 90
       (Other 0 89 "AssignmentExpression"
          [MemberExpression 0 11 (Identifier 0 5 "MyLib") (Identifier 6 11 "Admin") false;
           Other 14 89 "CallExpression"
             [FunctionExpression 15 70 None
                [Identifier 25 32 "exports"; Identifier 34 36 "sh"]
                (Other 38 70 "BlockStatement"
                   [ExpressionStatement 40 52
                      (Other 40 51 "CallExpression"
                         [MemberExpression 40 49 (Identifier 40 42 "sh")
                            (Identifier 43 49 "helper") false]);
                    Other 53 68 "ReturnStatement" [Identifier 60 67 "exports"]]);
              Other 72 74 "ObjectExpression" [];
              MemberExpression 76 88 (Identifier 76 81 "MyLib")
                (Identifier 82 88 "Shared") false]])].

Definition satelliteParse : ParseFn := λ code,
  if decide (code = satelliteCode) then Some satelliteAst
  else if decide (code = stripNamespaceGuards satelliteWrapper) then Some strippedWrapperAst
  else None.

(** A parser that knows the satellite's module and rejects everything else. *)
Definition moduleOnlyParse : ParseFn := λ code,
  if decide (code = satelliteCode) then Some satelliteAst else None.

Definition wrappingHost : Rollup :=
  {| rollupBuild := λ _, Normal ();
     externalIds := λ _, ["./__shared__.js"];
     renderIife := λ _ _ _, Normal satelliteWrapper |}.

(** ** Lines of a text *)

(** The suffixes of a text that start a line: the places [^] matches at
    under the [m] flag. *)
Fixpoint linesFrom (lineStart : bool) (s : string) : list string :=
  match s with
  | EmptyString => []
  | String c s' => (if lineStart then [s] else []) ++ linesFrom (isLineBreak c) s'
  end.

Definition lineStarts (s : string) : list string := linesFrom true s.

(** ** Shape of a walk *)

(** The identifiers a node holds in [ident] positions, as the walk enters
    them: before the child nodes. *)
Definition identLeaves (n : node) : list node :=
  let leafOpt (o : option ident) := match o with Some i => [identNode i] | None => [] end in
  match n with
  | FunctionExpression _ _ i _ _ | FunctionDeclaration _ _ i _ _
  | ClassDeclaration _ _ i _ _ => leafOpt i
  | ImportSpecifier _ _ i l => [identNode i; identNode l]
  | ImportDefaultSpecifier _ _ l | ImportNamespaceSpecifier _ _ l => [identNode l]
  | ExportSpecifier _ _ l e => [identNode l; identNode e]
  | _ => []
  end.

(** ** A wrapper without parameters *)

(** ['use strict']; (() => { sh.a(); })(); *)
Definition arrowWrapperCode : string := "'use strict'; (() => { sh.a(); })();".

Definition arrowWrapperAst : node :=
  Program 0 36
    [ExpressionStatement 0 13 (Literal 0 12 (Some "use strict"));
     ExpressionStatement 14 36
       (Other 14 35 "CallExpression"
          [Other 15 32 "ArrowFunctionExpression"
             [Other 21 32 "BlockStatement"
                [ExpressionStatement 23 30
                   (Other 23 29 "CallExpression"
                      [MemberExpression 23 27 (Identifier 23 25 "sh")
                         (Identifier 26 27 "a") false])]]])].

Definition isNamespaceSpecifier (spec : node) : bool :=
  match spec with ImportNamespaceSpecifier _ _ _ => true | _ => false end.

(** A satellite that reaches the shared chunk through a namespace import
    only: [import * as S from './__shared__.js'; S.helper();] *)
Definition namespaceSatelliteAst : node :=
  Program 0 49
    [ImportDeclaration 0 37
       [ImportNamespaceSpecifier 7 13 (Ident 12 13 "S")] "./__shared__.js";
     ExpressionStatement 38 49
       (Other 38 48 "CallExpression"
          [MemberExpression 38 46 (Identifier 38 39 "S") (Identifier 40 46 "helper") false])].

(** The mappings [extractSharedImportMappings] records on entering a node. *)
Definition mappingsOfNode (n : node) : list ImportMapping :=
  match n with
  | ImportDeclaration _ _ specifiers source =>
      if Js.includes source SHARED_CHUNK_NAME
      then flat_map mappingOfSpecifier specifiers else []
  | _ => []
  end.

(** The record [extractExternalImports] makes on entering a node. *)
Definition externalImportOfNode (code : string) (n : node) : list ExternalImport :=
  match n with
  | ImportDeclaration start fin specifiers source =>
      if isExternalSource source
      then [{| eiSource := source;
               eiSpecifiers := flat_map importSpecifier specifiers;
               eiFullStatement := slice code start fin;
               eiStart := start;
               eiEnd := fin |}]
      else []
  | _ => []
  end.

(** ** Words *)

(** A match of [\w+]. *)
Definition isWord (w : string) : bool :=
  Js.truthy w && allChars isWordChar w.

(** Whether a line starts after the text [pre], itself at a line start or
    not. *)
Fixpoint lineStartAfter (lineStart : bool) (pre : string) : bool :=
  match pre with
  | EmptyString => lineStart
  | String c pre' => lineStartAfter (isLineBreak c) pre'
  end.

Definition newline : string := String "010" "".

(** ** Export statements *)

Definition isExport (n : node) : bool :=
  match n with
  | ExportNamedDeclaration _ _ _ _ _ | ExportDefaultDeclaration _ _ _ => true
  | _ => false
  end.

(** The tree is a [Program] whose export statements are its own items, as
    the grammar demands: none lies inside an item. *)
Definition exportsAtTopLevel (ast : node) : bool :=
  match ast with
  | Program _ _ body =>
      forallb (λ item, forallb (λ n, negb (isExport n)) (tail (subnodes item))) body
  | _ => false
  end.

(** [export default 42;] and what it is stripped to, as the parser reads
    them. *)
Definition defaultParse : ParseFn := λ code,
  if decide (code = "export default 42;") then Some defaultOnlyAst
  else if decide (code = "const __shared_default__ = 42;")
  then Some (Program 0 30
               [VariableDeclaration 0 30
                  [VariableDeclarator 6 29 (Identifier 6 24 "__shared_default__")
                     (Some (Literal 27 29 None))]])
  else None.

(** [export const x = 1; export default 42;] and what it is stripped to. *)
Definition twoExportsCode : string := "export const x = 1; export default 42;".

Definition twoExportsAst : node :=
  Program 0 38
    [ExportNamedDeclaration 0 19
       (Some (VariableDeclaration 7 19
                [VariableDeclarator 13 18 (Identifier 13 14 "x")
                   (Some (Literal 17 18 None))])) [] None;
     ExportDefaultDeclaration 20 38 (Literal 35 37 None)].

Definition twoExportsParse : ParseFn := λ code,
  if decide (code = twoExportsCode) then Some twoExportsAst
  else if decide (code = "const x = 1; const __shared_default__ = 42;")
  then Some (Program 0 43
               [VariableDeclaration 0 12
                  [VariableDeclarator 6 11 (Identifier 6 7 "x") (Some (Literal 10 11 None))];
                VariableDeclaration 13 43
                  [VariableDeclarator 19 42 (Identifier 19 37 "__shared_default__")
                     (Some (Literal 40 42 None))]])
  else None.

(** [export default (42);]: the parser keeps no node for the parentheses, so
    the declaration starts at the digit. *)
Definition parenthesisedDefaultAst : node :=
  Program 0 20 [ExportDefaultDeclaration 0 20 (Literal 16 18 None)].

(** ** A merge that binds a name twice *)

(** [destructuringSharedAst] and [collidingPrimaryAst] as texts. *)
Definition destructuringSharedCode : string :=
  "const { helper } = globalThis.tools; export function sharedHelper() { return helper(); }".

Definition collidingPrimaryCode : string :=
  "import { sharedHelper } from './__shared__.js'; const helper = 'primary-helper'; "
  +:+ "export function mainFeature() { return helper + ' ' + sharedHelper(); }".

(** What the merge makes of them. *)
Definition mergedHelperCode : string :=
  "const { helper } = globalThis.tools; function sharedHelper() { return helper(); }"
  +:+ newline +:+ newline
  +:+ "const helper = 'primary-helper'; "
  +:+ "export function mainFeature() { return helper + ' ' + sharedHelper(); }"
  +:+ newline +:+ newline
  +:+ "const Shared = { sharedHelper };" +:+ newline
  +:+ "export { Shared };".

Definition mergedHelperAst : node :=
  Program 0 240
    [VariableDeclaration 0 36
       [VariableDeclarator 6 35
          (Other 6 16 "ObjectPattern"
             [Other 8 14 "Property" [Identifier 8 14 "helper"; Identifier 8 14 "helper"]])
          (Some (MemberExpression 19 35 (Identifier 19 29 "globalThis")
                   (Identifier 30 35 "tools") false))];
     FunctionDeclaration 37 81 (Some (Ident 46 58 "sharedHelper")) []
       (Other 61 81 "BlockStatement"
          [Other 63 79 "ReturnStatement"
             [Other 70 78 "CallExpression" [Identifier 70 76 "helper"]]]);
     VariableDeclaration 83 115
       [VariableDeclarator 89 114 (Identifier 89 95 "helper")
          (Some (Literal 98 114 (Some "primary-helper")))];
     ExportNamedDeclaration 116 187
       (Some (FunctionDeclaration 123 187 (Some (Ident 132 143 "mainFeature")) []
                (Other 146 187 "BlockStatement"
                   [Other 148 185 "ReturnStatement"
                      [Other 155 184 "BinaryExpression"
                         [Other 155 167 "BinaryExpression"
                            [Identifier 155 161 "helper"; Literal 164 167 (Some " ")];
                          Other 170 184 "CallExpression"
                            [Identifier 170 182 "sharedHelper"]]]])))
       [] None;
     VariableDeclaration 189 221
       [VariableDeclarator 195 220 (Identifier 195 201 "Shared")
          (Some (Other 204 220 "ObjectExpression"
                   [Other 206 218 "Property"
                      [Identifier 206 218 "sharedHelper"; Identifier 206 218 "sharedHelper"]]))];
     ExportNamedDeclaration 222 240 None
       [ExportSpecifier 231 237 (Ident 231 237 "Shared") (Ident 231 237 "Shared")] None].

(** The parser on the texts of this merge. *)
Definition helperParse : ParseFn := λ code,
  if decide (code = destructuringSharedCode) then Some destructuringSharedAst
  else if decide (code = collidingPrimaryCode) then Some collidingPrimaryAst
  else if decide (code = mergedHelperCode) then Some mergedHelperAst
  else None.

(** ** A deduplicated alias that meets a declaration *)

(** The primary imports [a] as [c] from ['lib'] and declares [b]; the shared
    chunk ([aliasSharedCode]) imports [a] as [b]. *)
Definition shadowedPrimaryCode : string :=
  "import { a as c } from 'lib'; const b = 1; c(b);".

Definition shadowedPrimaryAst : node :=
  Program 0 48
    [ImportDeclaration 0 29
       [ImportSpecifier 9 15 (Ident 9 10 "a") (Ident 14 15 "c")] "lib";
     VariableDeclaration 30 42
       [VariableDeclarator 36 41 (Identifier 36 37 "b") (Some (Literal 40 41 None))];
     ExpressionStatement 43 48
       (Other 43 47 "CallExpression" [Identifier 43 44 "c"; Identifier 45 46 "b"])].

(** The primary without its duplicate import: [ const b = 1; c(b);] *)
Definition shadowedDedupedAst : node :=
  Program 0 19
    [VariableDeclaration 1 13
       [VariableDeclarator 7 12 (Identifier 7 8 "b") (Some (Literal 11 12 None))];
     ExpressionStatement 14 19
       (Other 14 18 "CallExpression" [Identifier 14 15 "c"; Identifier 16 17 "b"])].

(** The shared chunk after the collision rename:
    [import { a as __shared$b } from 'lib'; export const x = __shared$b;] *)
Definition shadowedSharedAst : node :=
  Program 0 67
    [ImportDeclaration 0 38
       [ImportSpecifier 9 24 (Ident 9 10 "a") (Ident 14 24 "__shared$b")] "lib";
     ExportNamedDeclaration 39 67
       (Some (VariableDeclaration 46 67
                [VariableDeclarator 52 66 (Identifier 52 53 "x")
                   (Some (Identifier 56 66 "__shared$b"))]))
       [] None].

Definition shadowedMergedCode : string :=
  "import { a as __shared$b } from 'lib'; const x = __shared$b;"
  +:+ newline +:+ newline +:+ "const b = 1; b(b);".

Definition shadowedMergedAst : node :=
  Program 0 80
    [ImportDeclaration 0 38
       [ImportSpecifier 9 24 (Ident 9 10 "a") (Ident 14 24 "__shared$b")] "lib";
     VariableDeclaration 39 60
       [VariableDeclarator 45 59 (Identifier 45 46 "x")
          (Some (Identifier 49 59 "__shared$b"))];
     VariableDeclaration 62 74
       [VariableDeclarator 68 73 (Identifier 68 69 "b") (Some (Literal 72 73 None))];
     ExpressionStatement 75 80
       (Other 75 79 "CallExpression" [Identifier 75 76 "b"; Identifier 77 78 "b"])].

Definition shadowedParse : ParseFn := λ code,
  if decide (code = aliasSharedCode) then Some aliasSharedAst
  else if decide (code = shadowedPrimaryCode) then Some shadowedPrimaryAst
  else if decide (code = " const b = 1; c(b);") then Some shadowedDedupedAst
  else if decide (code = "import { a as __shared$b } from 'lib'; export const x = __shared$b;")
  then Some shadowedSharedAst
  else if decide (code = shadowedMergedCode) then Some shadowedMergedAst
  else None.

(** ** Reading an object literal back *)







(** ** Edits made from left to right *)

(** The text a list of edits stands for when each edit starts where the
    previous one ended or later: the original with each range replaced by
    its content.  [pos] is the offset reached. *)
Fixpoint spliced (code : string) (pos : nat) (edits : list edit) : string :=
  match edits with
  | [] => slice code pos (String.length code)
  | e :: rest =>
      slice code pos (editStart e) +:+ editContent e +:+ spliced code (editEnd e) rest
  end.

(** The edits are non-empty ranges within [len], in increasing order and
    apart, from [pos] on. *)
Fixpoint leftToRight (pos len : nat) (edits : list edit) : Prop :=
  match edits with
  | [] => True
  | e :: rest =>
      pos ≤ editStart e ∧ editStart e < editEnd e ∧ editEnd e ≤ len
      ∧ leftToRight (editEnd e) len rest
  end.

(** The part of the original a chunk stands for, untouched. *)
Definition originalChunk (code : string) (start fin : nat) : chunk :=
  {| chunkStart := start; chunkEnd := fin;
     chunkContent := slice code start fin; chunkEdited := false |}.

(** ** The stripped module, described directly *)

(** What [stripExports] is meant to return, as the comments of the source
    put it ([export const foo -> const foo], [export { foo } -> remove
    entirely], [export default X -> const __default__ = X]): the text of the
    module from [pos] on, without the [export] in front of a declaration,
    without the export lists, and with [const __shared_default__ = ] in
    place of [export default]. *)
Fixpoint strippedFrom (code : string) (pos : nat) (items : list node) : string :=
  match items with
  | [] => slice code pos (String.length code)
  | item :: rest =>
      match item with
      | ExportNamedDeclaration start _ (Some declaration) _ _ =>
          slice code pos start +:+ strippedFrom code (nodeStart declaration) rest
      | ExportNamedDeclaration start fin None _ _ =>
          slice code pos start +:+ strippedFrom code fin rest
      | ExportDefaultDeclaration start _ declaration =>
          slice code pos start +:+ "const __shared_default__ = "
          +:+ strippedFrom code (nodeStart declaration) rest
      | _ => strippedFrom code pos rest
      end
  end.

Definition strippedText (code : string) (ast : node) : string :=
  strippedFrom code 0 (programBody ast).

(** The export statements of a module lie in its text one after the other,
    each with something to cut in front of its declaration. *)
Fixpoint exportsInOrder (pos len : nat) (items : list node) : Prop :=
  match items with
  | [] => True
  | item :: rest =>
      match item with
      | ExportNamedDeclaration start _ (Some declaration) _ _
      | ExportDefaultDeclaration start _ declaration =>
          pos ≤ start ∧ start < nodeStart declaration ∧ nodeStart declaration ≤ len
          ∧ exportsInOrder (nodeStart declaration) len rest
      | ExportNamedDeclaration start fin None _ _ =>
          pos ≤ start ∧ start < fin ∧ fin ≤ len ∧ exportsInOrder fin len rest
      | _ => exportsInOrder pos len rest
      end
  end.

(** The edit [stripExports] makes on entering a node. *)
Definition stripNodeEdits (n : node) : list edit :=
  match n with
  | ExportNamedDeclaration start fin declaration _ _ =>
      [match declaration with
       | Some d => Remove start (nodeStart d)
       | None => Remove start fin
       end]
  | ExportDefaultDeclaration start _ declaration =>
      [Overwrite start (nodeStart declaration) "const __shared_default__ = "]
  | _ => []
  end.

(** The items the stripped text consists of when it is read as intended:
    the declarations without their [export], the default export as the
    initializer of a [const]. *)
Definition asInitializer (declaration : node) : node :=
  match declaration with
  | FunctionDeclaration s f i ps b => FunctionExpression s f i ps b
  | ClassDeclaration s f i sup b =>
      Other s f "ClassExpression"
        (match i with Some i => [identNode i] | None => [] end
         ++ match sup with Some c => [c] | None => [] end ++ [b])
  | _ => declaration
  end.

Definition strippedItem (item : node) : list node :=
  match item with
  | ExportNamedDeclaration _ _ (Some declaration) _ _ => [declaration]
  | ExportNamedDeclaration _ _ None _ _ => []
  | ExportDefaultDeclaration s f declaration =>
      [VariableDeclaration s f
         [VariableDeclarator s f (Identifier s s "__shared_default__")
            (Some (asInitializer declaration))]]
  | _ => [item]
  end.

Definition strippedItems (ast : node) : list node :=
  flat_map strippedItem (programBody ast).

Definition eraseIdent (i : ident) : ident := Ident 0 0 (idName i).

(** A tree without its offsets. *)
Fixpoint eraseOffsets (n : node) : node :=
  match n with
  | Identifier _ _ name => Identifier 0 0 name
  | Literal _ _ v => Literal 0 0 v
  | MemberExpression _ _ o p c => MemberExpression 0 0 (eraseOffsets o) (eraseOffsets p) c
  | FunctionExpression _ _ i ps b =>
      FunctionExpression 0 0 (eraseIdent <$> i) (eraseOffsets <$> ps) (eraseOffsets b)
  | ExpressionStatement _ _ e => ExpressionStatement 0 0 (eraseOffsets e)
  | ImportSpecifier _ _ i l => ImportSpecifier 0 0 (eraseIdent i) (eraseIdent l)
  | ImportDefaultSpecifier _ _ l => ImportDefaultSpecifier 0 0 (eraseIdent l)
  | ImportNamespaceSpecifier _ _ l => ImportNamespaceSpecifier 0 0 (eraseIdent l)
  | ImportDeclaration _ _ specs source => ImportDeclaration 0 0 (eraseOffsets <$> specs) source
  | ExportSpecifier _ _ l e => ExportSpecifier 0 0 (eraseIdent l) (eraseIdent e)
  | ExportNamedDeclaration _ _ d specs source =>
      ExportNamedDeclaration 0 0 (eraseOffsets <$> d) (eraseOffsets <$> specs) source
  | ExportDefaultDeclaration _ _ d => ExportDefaultDeclaration 0 0 (eraseOffsets d)
  | VariableDeclaration _ _ ds => VariableDeclaration 0 0 (eraseOffsets <$> ds)
  | VariableDeclarator _ _ i init =>
      VariableDeclarator 0 0 (eraseOffsets i) (eraseOffsets <$> init)
  | FunctionDeclaration _ _ i ps b =>
      FunctionDeclaration 0 0 (eraseIdent <$> i) (eraseOffsets <$> ps) (eraseOffsets b)
  | ClassDeclaration _ _ i sup b =>
      ClassDeclaration 0 0 (eraseIdent <$> i) (eraseOffsets <$> sup) (eraseOffsets b)
  | Other _ _ type cs => Other 0 0 type (eraseOffsets <$> cs)
  | Program _ _ body => Program 0 0 (eraseOffsets <$> body)
  end.

(** The parser reads [text] as the module made of [items], offsets apart. *)
Definition readsAs (parse : ParseFn) (text : string) (items : list node) : Prop :=
  ∃ start fin body,
    parse text = Some (Program start fin body)
    ∧ eraseOffsets <$> body = eraseOffsets <$> items.

(** ** The rewriter for unshared chunks, node by node *)

(** The edit the second pass of [removeChunkImportsAndRewriteRefs] makes on
    entering a node. *)
Definition chunkNodeEdits (chunkFileName : string) (exportToLocal : gmap string string)
    (namespaceNames : gset string) (namedImportRenames : gmap string string) (n : node)
  : list edit :=
  match n with
  | ImportDeclaration start fin _ source =>
      if isChunkSource source chunkFileName then [Remove start fin] else []
  | MemberExpression start fin (Identifier _ _ objectName) (Identifier _ _ propertyName) false =>
      if Js.truthy objectName && bool_decide (objectName ∈ namespaceNames)
         && Js.truthy propertyName
      then [Overwrite start fin (resolveExport exportToLocal propertyName propertyName)]
      else []
  | Identifier start fin name =>
      if bool_decide (0 < size namedImportRenames)
      then match renameTarget namedImportRenames name with
           | Some newName => [Overwrite start fin newName]
           | None => []
           end
      else []
  | _ => []
  end.

(** The rename the first pass records for one specifier. *)
Definition chunkSpecifierRename (exportToLocal : gmap string string) (spec : node)
  : list (string * string) :=
  match spec with
  | ImportSpecifier _ _ i l =>
      let actualLocal := resolveExport exportToLocal (idName i) (idName i) in
      if decide (idName l ≠ actualLocal) then [(idName l, actualLocal)] else []
  | ImportDefaultSpecifier _ _ l =>
      let actualLocal := resolveExport exportToLocal "default" "__default__" in
      if decide (idName l ≠ actualLocal) then [(idName l, actualLocal)] else []
  | _ => []
  end.

(** The renames it records on entering a node. *)
Definition chunkAliasRenames (chunkFileName : string) (exportToLocal : gmap string string)
    (n : node) : list (string * string) :=
  match n with
  | ImportDeclaration _ _ specifiers source =>
      if isChunkSource source chunkFileName
      then flat_map (chunkSpecifierRename exportToLocal) specifiers else []
  | _ => []
  end.

(** The local names the imports from the chunk bind, one entry per
    specifier. *)
Definition chunkImportLocals (chunkFileName : string) (ast : node) : list string :=
  flat_map (λ n, match n with
                 | ImportDeclaration _ _ specifiers source =>
                     if isChunkSource source chunkFileName
                     then flat_map specifierLocal specifiers else []
                 | _ => []
                 end) (subnodes ast).

(** No export statement in the tree [n]. *)
Definition noExport (n : node) : bool :=
  forallb (λ n', negb (isExport n')) (subnodes n).

(** * Properties *)

(** ** JavaScript string primitives *)

Module JsFacts.
Import Js.

Lemma app_nil_l s : "" +:+ s = s.
Proof. reflexivity. Qed.

Lemma app_cons c s t : String c s +:+ t = String c (s +:+ t).
Proof. reflexivity. Qed.

Lemma app_nil_r s : s +:+ "" = s.
Proof. induction s as [|c s IH]; [done | by rewrite app_cons, IH]. Qed.

Lemma app_assoc s t u : (s +:+ t) +:+ u = s +:+ t +:+ u.
Proof. induction s as [|c s IH]; [done | by rewrite !app_cons, IH]. Qed.

Lemma startsWith_spec s p : startsWith s p = true ↔ ∃ post, s = p +:+ post.
Proof.
  revert s. induction p as [|a p IH]; intros s; simpl.
  - split; [intros _; exists s; reflexivity | done].
  - destruct s as [|b s].
    + split; [done | intros [post H]; rewrite app_cons in H; discriminate].
    + case_decide as Hab.
      * subst b. rewrite IH. split; intros [post H]; exists post.
        -- by rewrite H.
        -- rewrite app_cons in H. by injection H.
      * split; [done | intros [post H]]. rewrite app_cons in H.
        injection H as H1 H2. by subst.
Qed.

Lemma includes_spec s sub : includes s sub = true ↔ occursIn sub s.
Proof.
  unfold occursIn. induction s as [|c s IH]; simpl.
  - rewrite orb_false_r, startsWith_spec. split.
    + intros [post H]. exists "", post. by rewrite app_nil_l.
    + intros [[|? pre] [post H]]; [by exists post | rewrite app_cons in H; discriminate].
  - rewrite orb_true_iff, IH, startsWith_spec. split.
    + intros [[post H] | (pre & post & H)].
      * exists "", post. by rewrite app_nil_l.
      * exists (String c pre), post. by rewrite app_cons, H.
    + intros ([|c' pre] & post & H).
      * left. by exists post.
      * right. rewrite app_cons in H. injection H as _ H. by exists pre, post.
Qed.

Lemma stripJsExtension_suffix pre : stripJsExtension (pre +:+ ".js") = pre.
Proof.
  induction pre as [|c pre IH]; [done|].
  rewrite app_cons. cbn [stripJsExtension]. case_decide as H.
  - exfalso. injection H as _ H.
    destruct pre as [|? [|? [|? ?]]]; discriminate.
  - by rewrite IH.
Qed.

Lemma stripJsExtension_other s :
  (∀ pre, s ≠ pre +:+ ".js") → stripJsExtension s = s.
Proof.
  induction s as [|c s IH]; intros H; [done|].
  cbn [stripJsExtension]. case_decide as Heq.
  - exfalso. by apply (H "").
  - rewrite IH; [done|]. intros pre ->. by apply (H (String c pre)).
Qed.

End JsFacts.

(** ** The walk and the edits *)

Lemma elem_of_flat_map {A B : Type} (f : A → list B) (l : list A) (y : B) :
  y ∈ flat_map f l ↔ ∃ x, x ∈ l ∧ y ∈ f x.
Proof.
  rewrite list_elem_of_In, in_flat_map. setoid_rewrite list_elem_of_In. done.
Qed.

Lemma node_children_ind (P : node → Prop) :
  (∀ n, Forall P (childNodes n) → P n) → ∀ n, P n.
Proof.
  intros step. fix IH 1. intros n. apply step.
  destruct n as [| |? ? o p ?|? ? ? ps b|? ? e| | | |? ? specs ?| |? ? d specs ?|? ? d
                |? ? ds|? ? i init|? ? ? ps b|? ? ? sup b|? ? ? cs|? ? body]; simpl.
  - constructor.
  - constructor.
  - repeat constructor; apply IH.
  - apply Forall_app. split; [|repeat constructor; apply IH].
    clear -IH. induction ps as [|c ps IHps]; constructor; [apply IH | apply IHps].
  - repeat constructor; apply IH.
  - constructor.
  - constructor.
  - constructor.
  - clear -IH. induction specs as [|c l IHl]; constructor; [apply IH | apply IHl].
  - constructor.
  - apply Forall_app. split.
    + destruct d; repeat constructor; apply IH.
    + clear -IH. induction specs as [|c l IHl]; constructor; [apply IH | apply IHl].
  - repeat constructor; apply IH.
  - clear -IH. induction ds as [|c l IHl]; constructor; [apply IH | apply IHl].
  - constructor; [apply IH|]. destruct init; repeat constructor; apply IH.
  - apply Forall_app. split; [|repeat constructor; apply IH].
    clear -IH. induction ps as [|c l IHl]; constructor; [apply IH | apply IHl].
  - apply Forall_app. split; [|repeat constructor; apply IH].
    destruct sup; repeat constructor; apply IH.
  - clear -IH. induction cs as [|c l IHl]; constructor; [apply IH | apply IHl].
  - clear -IH. induction body as [|c l IHl]; constructor; [apply IH | apply IHl].
Qed.

(** A walk applies its callback to the nodes of [entered], in order. *)
Lemma walk_entered {S : Type} (enter : visitor S) (skips : node → bool) :
  (∀ n s, (enter n s).2 = skips n) →
  ∀ n s, walk enter n s = foldl (λ s c, (enter c s).1) s (entered skips n).
Proof.
  intros Hskip.
  assert (leaf : ∀ n s, enter n s = ((enter n s).1, skips n)).
  { intros n s. rewrite <- (Hskip n s). by destruct (enter n s). }
  set (step := λ (s : S) (c : node), (enter c s).1).
  assert (many : ∀ l, Forall (λ c, ∀ s, walk enter c s = foldl step s (entered skips c)) l →
     ∀ s, foldl (λ s c, walk enter c s) s l = foldl step s (flat_map (entered skips) l)).
  { intros l Hl. induction Hl as [|c l Hc _ IHl]; intros s; [reflexivity|].
    cbn [foldl flat_map]. rewrite foldl_app, <- Hc. apply IHl. }
  induction n as [n IH] using node_children_ind. intros s.
  destruct n as [| |? ? o p ?|? ? i ps b|? ? e|? ? i l|? ? l|? ? l|? ? specs ?|? ? l e
                |? ? d specs ?|? ? d|? ? ds|? ? i init|? ? i ps b|? ? i sup b|? ? ? cs|? ? body];
    cbn [walk entered]; rewrite (leaf _ s); cbn [foldl childNodes] in *;
    (destruct (skips _); [reflexivity|]).
  - reflexivity.
  - reflexivity.
  - apply Forall_cons in IH as [Ho IH]. apply Forall_cons in IH as [Hp _].
    by rewrite foldl_app, Ho, Hp.
  - apply Forall_app in IH as [Hps Hb]. apply Forall_cons in Hb as [Hb _].
    rewrite !foldl_app, Hb, (many _ Hps). by destruct i.
  - apply Forall_cons in IH as [He _]. by rewrite He.
  - reflexivity.
  - reflexivity.
  - reflexivity.
  - by rewrite (many _ IH).
  - reflexivity.
  - apply Forall_app in IH as [Hd Hs]. rewrite foldl_app, (many _ Hs).
    destruct d; [|reflexivity]. apply Forall_cons in Hd as [Hd _]. by rewrite Hd.
  - apply Forall_cons in IH as [Hd _]. by rewrite Hd.
  - by rewrite (many _ IH).
  - apply Forall_cons in IH as [Hi Hinit]. rewrite foldl_app, Hi.
    destruct init; [|reflexivity]. apply Forall_cons in Hinit as [Hc _]. by rewrite Hc.
  - apply Forall_app in IH as [Hps Hb]. apply Forall_cons in Hb as [Hb _].
    rewrite !foldl_app, Hb, (many _ Hps). by destruct i.
  - apply Forall_app in IH as [Hsup Hb]. apply Forall_cons in Hb as [Hb _].
    rewrite !foldl_app, Hb. destruct sup.
    + apply Forall_cons in Hsup as [Hc _]. rewrite Hc. by destruct i.
    + by destruct i.
  - by rewrite (many _ IH).
  - by rewrite (many _ IH).
Qed.

(** A callback that only appends to a list, walked: the concatenation of
    what it appends at each node entered. *)
Lemma walk_appending {A : Type} (enter : visitor (list A)) (skips : node → bool)
    (emits : node → list A) :
  (∀ n s, enter n s = (s ++ emits n, skips n)) →
  ∀ n s, walk enter n s = s ++ flat_map emits (entered skips n).
Proof.
  intros Henter n s. rewrite (walk_entered enter skips) by (intros; by rewrite Henter).
  generalize (entered skips n). intros l. revert s.
  induction l as [|c l IH]; intros s; cbn [foldl flat_map].
  - by rewrite app_nil_r.
  - by rewrite IH, Henter, app_assoc.
Qed.

Lemma toString_no_edits code : toString code [] = Some code.
Proof.
  unfold toString, applyEdits, magicString, chunksText. cbn.
  by rewrite JsFacts.app_nil_r.
Qed.

(** ** Shared-chunk sources *)

(** C10: an import source is taken for the shared chunk exactly when it
    contains ["__shared__"] or contains the shared file name without a trailing
    [".js"]; containment decides, so any path that merely contains one of the
    two is removed by the rewriter and counted by [extractSharedImports]. *)
Theorem isSharedChunkSource_containment (source sharedChunkFileName : string) :
  (isSharedChunkSource source sharedChunkFileName = true
   ↔ Js.occursIn "__shared__" source
     ∨ Js.occursIn (Js.stripJsExtension sharedChunkFileName) source)
  ∧ (∀ stem, Js.stripJsExtension (stem +:+ ".js") = stem)
  ∧ (∀ pre post,
       isSharedChunkSource (pre +:+ "__shared__" +:+ post) sharedChunkFileName = true)
  ∧ (∀ start fin specifiers toLocal namespaces renames edits,
       rewriteVisitor sharedChunkFileName toLocal namespaces renames
         (ImportDeclaration start fin specifiers source) edits
       = if isSharedChunkSource source sharedChunkFileName
         then (edits ++ [Remove start fin], true) else (edits, false))
  ∧ (∀ start fin specifiers imports,
       sharedImportsVisitor sharedChunkFileName
         (ImportDeclaration start fin specifiers source) imports
       = (if isSharedChunkSource source sharedChunkFileName
          then imports ∪ list_to_set (sharedImportNames specifiers) else imports, false)).
Proof.
  assert (iff : ∀ s, isSharedChunkSource s sharedChunkFileName = true
                     ↔ Js.occursIn "__shared__" s
                       ∨ Js.occursIn (Js.stripJsExtension sharedChunkFileName) s).
  { intros s. unfold isSharedChunkSource, SHARED_CHUNK_NAME.
    by rewrite orb_true_iff, !JsFacts.includes_spec. }
  split_and!.
  - apply iff.
  - apply JsFacts.stripJsExtension_suffix.
  - intros pre post. apply iff. left. by exists pre, post.
  - reflexivity.
  - reflexivity.
Qed.

(** ** Wrapping *)

Lemma resolveGlobals_throw globalsFn ids message :
  resolveGlobals globalsFn ids = Throw message →
  ∃ id, id ∈ ids ∧ globalsFn id = Throw message.
Proof.
  induction ids as [|id ids IH]; [done|]. cbn [resolveGlobals].
  destruct (globalsFn id) as [g|m] eqn:Hid.
  - destruct (resolveGlobals globalsFn ids) as [gs|m]; [done|].
    intros [= ->]. destruct IH as (id' & Hin & Hthrow); [done|].
    exists id'. split; [by apply list_elem_of_further | done].
  - intros [= ->]. exists id. split; [apply list_elem_of_here | done].
Qed.

Lemma resolveGlobals_throws globalsFn ids id message :
  id ∈ ids → globalsFn id = Throw message →
  ∃ message', resolveGlobals globalsFn ids = Throw message'.
Proof.
  induction 1 as [id ids|id id' ids _ IH]; intros Hthrow; cbn [resolveGlobals].
  - rewrite Hthrow. eauto.
  - destruct (globalsFn id'); [|eauto].
    destruct (IH Hthrow) as [m ->]. eauto.
Qed.

Lemma rollupGlobals_throw opts id message :
  rollupGlobals opts id = Throw message →
  message = missingGlobalMessage id
  ∧ isOwnGlobal opts id = false ∧ isSharedImport opts id = false
  ∧ optGlobals opts !! id = None ∧ id ∉ objectPrototypeMembers.
Proof.
  unfold rollupGlobals, getProperty.
  destruct (isOwnGlobal opts id); [done|].
  destruct (isSharedImport opts id); [done|].
  destruct (optGlobals opts !! id); [done|].
  case_bool_decide; [done|].
  destruct (default false (optSkipRequireGlobals opts)); [done|].
  by intros [= <-].
Qed.

(** An external id that is neither the wrapper's own global nor the shared
    chunk, has no entry in [globals] and does not name a member of
    [Object.prototype] makes the conversion fail with an error naming an id
    of that kind, unless [skipRequireGlobals] is true, in which case the
    callback returns [undefined] and Rollup picks the name. *)
Theorem missing_global_is_fatal_unless_skipped
    (parse : ParseFn) (host : Rollup) (opts : ConvertOptions) (id : string) :
  isOwnGlobal opts id = false →
  isSharedImport opts id = false →
  optGlobals opts !! id = None →
  id ∉ objectPrototypeMembers →
  (optSkipRequireGlobals opts ≠ Some true →
     rollupGlobals opts id = Throw (missingGlobalMessage id)
     ∧ Js.occursIn id (missingGlobalMessage id)
     ∧ (id ∈ externalIds host (optCode opts) →
        ∃ id', optGlobals opts !! id' = None
               ∧ bundleGenerate host (optCode opts) (optGlobalName opts) (rollupGlobals opts)
                 = Throw (missingGlobalMessage id')))
  ∧ (optSkipRequireGlobals opts = Some true →
       rollupGlobals opts id = Normal Undefined
       ∧ ∀ ids, ∃ resolved, resolveGlobals (rollupGlobals opts) ids = Normal resolved).
Proof.
  intros Hown Hshared Hglobals Hmember. split.
  - intros Hskip.
    assert (Hthrow : rollupGlobals opts id = Throw (missingGlobalMessage id)).
    { unfold rollupGlobals, getProperty. rewrite Hown, Hshared, Hglobals.
      rewrite bool_decide_eq_false_2 by done.
      by destruct (optSkipRequireGlobals opts) as [[]|]. }
    split_and!; [done| |].
    + unfold missingGlobalMessage.
      exists ("[iife-split] Missing global for external " +:+ quote). eexists.
      by rewrite !JsFacts.app_assoc.
    + intros Hin. unfold bundleGenerate.
      destruct (resolveGlobals_throws _ _ _ _ Hin Hthrow) as [m Hm]. rewrite Hm.
      apply resolveGlobals_throw in Hm as (id' & _ & Hid').
      apply rollupGlobals_throw in Hid' as (-> & _ & _ & Hnone & _). eauto.
  - intros Hskip. split.
    + unfold rollupGlobals, getProperty. rewrite Hown, Hshared, Hglobals, Hskip.
      by rewrite bool_decide_eq_false_2 by done.
    + intros ids. destruct (resolveGlobals (rollupGlobals opts) ids) as [r|m] eqn:Hr; [eauto|].
      apply resolveGlobals_throw in Hr as (id' & _ & Hid'). exfalso. revert Hid'.
      unfold rollupGlobals. rewrite Hskip.
      by repeat case_match.
Qed.

(** C7 (violated by the code): the callback tests [globals[id] ===
    undefined] on a plain object.  For the external id [constructor], which
    has no entry in [globals], the lookup finds [Object.prototype.constructor]:
    no missing-global error is raised, with or without [skipRequireGlobals],
    and the function [Object] is handed to Rollup as the global name. *)
Theorem missing_global_hidden_by_prototype :
  isOwnGlobal constructorOptions "constructor" = false
  ∧ isSharedImport constructorOptions "constructor" = false
  ∧ optGlobals constructorOptions !! "constructor" = None
  ∧ optSkipRequireGlobals constructorOptions = None
  ∧ rollupGlobals constructorOptions "constructor" = Normal (Inherited "constructor")
  ∧ (∀ skip,
       rollupGlobals (constructorOptionsWith skip) "constructor"
       = Normal (Inherited "constructor"))
  ∧ (∀ host : Rollup,
       externalIds host (optCode constructorOptions) = ["constructor"] →
       bundleGenerate host (optCode constructorOptions) (optGlobalName constructorOptions)
         (rollupGlobals constructorOptions)
       = renderIife host (optCode constructorOptions) (Some "MyLib")
           [("constructor", Inherited "constructor")]).
Proof.
  split_and!; try reflexivity.
  intros host Hids. unfold bundleGenerate. by rewrite Hids.
Qed.

(** A build instance that [bundle.generate] fails on is never closed. *)
Lemma convertToIife_generate_failure parse host opts log mappings message :
  (if Js.truthyOpt (optSharedGlobalPath opts)
   then extractSharedImportMappings parse (optCode opts) else Normal []) = Normal mappings →
  rollupBuild host (optCode opts) = Normal () →
  bundleGenerate host (optCode opts) (optGlobalName opts) (rollupGlobals opts)
    = Throw message →
  convertToIife parse host opts log = (Throw message, log ++ [BundleCreated]).
Proof.
  intros Hmap Hbuild Hgen. unfold convertToIife, taskBind, await, emit, taskRet.
  destruct (Js.truthyOpt (optSharedGlobalPath opts));
    rewrite ?Hmap, Hbuild, Hgen; simplify_eq; done.
Qed.

(** Whenever the conversion gets past [bundle.generate], the instance it
    created is closed. *)
Lemma convertToIife_generated_closes parse host opts log result outcome log' :
  bundleGenerate host (optCode opts) (optGlobalName opts) (rollupGlobals opts)
    = Normal result →
  convertToIife parse host opts log = (outcome, log') →
  log' = log ∨ log' = log ++ [BundleCreated; BundleClosed].
Proof.
  intros Hgen. unfold convertToIife, taskBind, await, emit, taskRet. rewrite Hgen.
  destruct (Js.truthyOpt (optSharedGlobalPath opts)).
  - destruct (extractSharedImportMappings parse (optCode opts)); [|intros [= _ <-]; by left].
    destruct (rollupBuild host (optCode opts)); [|intros [= _ <-]; by left].
    rewrite <- app_assoc. cbn [app].
    repeat case_match; intros [= _ <-]; by right.
  - destruct (rollupBuild host (optCode opts)); [|intros [= _ <-]; by left].
    rewrite <- app_assoc. cbn [app].
    repeat case_match; intros [= _ <-]; by right.
Qed.

Lemma missing_global_witness :
  rollupGlobals lodashOptions "lodash" = Throw (missingGlobalMessage "lodash")
  ∧ bundleGenerate lodashHost (optCode lodashOptions) (optGlobalName lodashOptions)
      (rollupGlobals lodashOptions) = Throw (missingGlobalMessage "lodash").
Proof.
  destruct (missing_global_is_fatal_unless_skipped (λ _, None) lodashHost lodashOptions "lodash")
    as [Hfatal _]; [reflexivity | reflexivity | reflexivity
                   | apply (bool_decide_unpack _); by vm_compute |].
  destruct Hfatal as (Hthrow & _ & Hgen); [discriminate|].
  split; [exact Hthrow|]. reflexivity.
Defined.

(** C9 (violated by the code): [bundle.close()] is only reached when
    [bundle.generate] resolves.  With an external lacking a global, the
    conversion rejects with the instance created and never closed. *)
Theorem convertToIife_leaves_bundle_open :
  convertToIife (λ _, None) lodashHost lodashOptions []
  = (Throw (missingGlobalMessage "lodash"), [BundleCreated]).
Proof. reflexivity. Qed.

(** ** The collision resolver *)







(** ** The shared object *)


(** ** The reference rewriter *)

Lemma renameVisitor_emits renameMap n s :
  renameVisitor renameMap n s = (s ++ renameNodeEdits renameMap n, renameSkips n).
Proof.
  destruct n; cbn [renameVisitor renameNodeEdits renameSkips];
    try (by rewrite app_nil_r); by destruct (renameTarget _ _); rewrite ?app_nil_r.
Qed.

Lemma renameEdits_entered renameMap ast :
  renameEdits renameMap ast = flat_map (renameNodeEdits renameMap) (entered renameSkips ast).
Proof.
  unfold renameEdits.
  by rewrite (walk_appending _ renameSkips (renameNodeEdits renameMap))
    by apply renameVisitor_emits.
Qed.

Lemma renameTarget_Some renameMap name newName :
  renameMap !! name = Some newName → newName ≠ "" →
  renameTarget renameMap name = Some newName.
Proof. unfold renameTarget. intros -> Hne. by destruct newName. Qed.



(** ** Deduplication of external imports *)

Lemma dedupeImport_spec others edits m imp :
  dedupeImport others (edits, m) imp
  = (edits ++ importEdits others imp, foldl insertPair m (importRenames others imp)).
Proof.
  unfold dedupeImport, importEdits, importRenames.
  destruct (filter _ others) as [|o forSource] eqn:Hfilter.
  - rewrite app_nil_r. f_equal.
    induction (eiSpecifiers imp) as [|spec specs IH] in m |- *; [done|].
    cbn [flat_map]. rewrite foldl_app. by rewrite <- IH.
  - f_equal.
    + by repeat case_decide; rewrite ?app_nil_r.
    + generalize (o :: forSource). intros l.
      induction (eiSpecifiers imp) as [|spec specs IH] in m |- *; [done|].
      cbn [flat_map foldl]. rewrite foldl_app, <- IH. f_equal.
      unfold specifierRename. destruct (findDuplicate spec l); [|done].
      by case_decide.
Qed.

Lemma dedupeImports_spec imports others :
  dedupeImports imports others
  = (flat_map (importEdits others) imports,
     foldl insertPair ∅ (flat_map (importRenames others) imports)).
Proof.
  unfold dedupeImports.
  change (flat_map (importEdits others) imports)
    with ([] ++ flat_map (importEdits others) imports).
  generalize (@nil edit). generalize (∅ : gmap string string).
  induction imports as [|imp imports IH]; intros m edits; cbn [foldl flat_map].
  - by rewrite app_nil_r.
  - rewrite dedupeImport_spec, IH, foldl_app. by rewrite <- app_assoc.
Qed.

Lemma foldl_insertPair_other (pairs : list (string * string)) m key :
  key ∉ pairs.*1 → foldl insertPair m pairs !! key = m !! key.
Proof.
  induction pairs as [|p pairs IH] in m |- *; [done|].
  rewrite fmap_cons, not_elem_of_cons. intros [Hne Hnot]. cbn [foldl].
  rewrite IH by done. unfold insertPair. by rewrite lookup_insert_ne.
Qed.

Lemma foldl_insertPair_lookup (pairs : list (string * string)) m key value :
  NoDup pairs.*1 → (key, value) ∈ pairs → foldl insertPair m pairs !! key = Some value.
Proof.
  induction pairs as [|p pairs IH] in m |- *; [by intros _ ?%elem_of_nil|].
  rewrite fmap_cons, NoDup_cons. intros [Hnot Hnodup] [<-|Hin]%elem_of_cons; cbn [foldl].
  - rewrite foldl_insertPair_other by done. unfold insertPair. apply lookup_insert_eq.
  - by apply IH.
Qed.

Lemma importRenames_keys others imp :
  (importRenames others imp).*1 `sublist_of` spLocalName <$> eiSpecifiers imp.
Proof.
  unfold importRenames. generalize (filter (λ o, eiSource o = eiSource imp) others).
  intros forSource. induction (eiSpecifiers imp) as [|spec specs IH]; [done|].
  cbn [flat_map]. rewrite fmap_app, fmap_cons.
  change (spLocalName spec :: (spLocalName <$> specs))
    with ([spLocalName spec] ++ (spLocalName <$> specs)).
  apply sublist_app; [|done]. unfold specifierRename.
  destruct (findDuplicate spec forSource); [|apply sublist_nil_l].
  case_decide; [done | apply sublist_nil_l].
Qed.

Lemma allRenames_keys others imports :
  (flat_map (importRenames others) imports).*1
    `sublist_of` spLocalName <$> flat_map eiSpecifiers imports.
Proof.
  induction imports as [|imp imports IH]; [done|].
  cbn [flat_map]. rewrite !fmap_app. apply sublist_app; [apply importRenames_keys | done].
Qed.

Lemma findDuplicate_Some spec others other :
  findDuplicate spec others = Some other →
  sameBinding spec other = true ∧ ∃ o, o ∈ others ∧ other ∈ eiSpecifiers o.
Proof.
  unfold findDuplicate. intros [Hin Hsame]%find_some. split; [done|].
  apply list_elem_of_In, elem_of_flat_map in Hin. done.
Qed.

Lemma findDuplicate_None spec others :
  findDuplicate spec others = None
  ↔ ∀ o other, o ∈ others → other ∈ eiSpecifiers o → sameBinding spec other = false.
Proof.
  unfold findDuplicate. split.
  - intros Hnone o other Ho Hother. apply (find_none _ _ Hnone).
    apply list_elem_of_In, elem_of_flat_map. eauto.
  - intros Hall. destruct (find _ _) as [other|] eqn:Hfind; [|done].
    apply find_some in Hfind as [Hin Hsame].
    apply list_elem_of_In, elem_of_flat_map in Hin as (o & Ho & Hother).
    by rewrite (Hall o other) in Hsame.
Qed.

(** The loop of the deduplication on its own: a specifier of an external
    import of the primary that the shared chunk also imports (same source,
    same kind and imported name) is not kept;
    the statement is removed when nothing is kept and otherwise rebuilt from
    exactly the specifiers without a duplicate; and when the local aliases
    differ, the rename map sends the primary's alias to the shared chunk's and
    [renameIdentifiers] overwrites the identifiers of that name it enters. *)
Theorem duplicate_external_imports_removed
    (imports others : list ExternalImport) (imp o : ExternalImport)
    (spec shared : Specifier) :
  NoDup (spLocalName <$> flat_map eiSpecifiers imports) →
  imp ∈ imports →
  spec ∈ eiSpecifiers imp →
  o ∈ others →
  eiSource o = eiSource imp →
  shared ∈ eiSpecifiers o →
  sameBinding spec shared = true →
  let forSource := filter (λ o, eiSource o = eiSource imp) others in
  let keep := specifiersToKeep forSource imp in
  let result := dedupeImports imports others in
  (spec ∉ keep)
  ∧ (∀ sp, sp ∈ keep
           ↔ sp ∈ eiSpecifiers imp
             ∧ ∀ o' other, o' ∈ others → eiSource o' = eiSource imp →
                           other ∈ eiSpecifiers o' → sameBinding sp other = false)
  ∧ (keep = [] → Remove (eiStart imp) (eiEnd imp) ∈ result.1)
  ∧ (keep ≠ [] →
     Overwrite (eiStart imp) (eiEnd imp) (rebuildImport keep (eiSource imp)) ∈ result.1)
  ∧ ∃ first,
      findDuplicate spec forSource = Some first
      ∧ sameBinding spec first = true
      ∧ (spLocalName spec ≠ spLocalName first →
         result.2 !! spLocalName spec = Some (spLocalName first)
         ∧ ∀ ast start fin,
             spLocalName first ≠ "" →
             Identifier start fin (spLocalName spec) ∈ entered renameSkips ast →
             Overwrite start fin (spLocalName first) ∈ renameEdits result.2 ast).
Proof.
  intros Hnodup Himp Hspec Ho Hsource Hshared Hsame forSource keep result.
  assert (Hfs : forSource = filter (λ o, eiSource o = eiSource imp) others) by done.
  assert (Hk : keep = specifiersToKeep forSource imp) by done.
  assert (Hres : result = dedupeImports imports others) by done.
  clearbody result keep forSource.
  assert (HforSource : o ∈ forSource).
  { rewrite Hfs. by apply list_elem_of_filter. }
  assert (Hin : ∀ o', o' ∈ forSource ↔ o' ∈ others ∧ eiSource o' = eiSource imp).
  { intros o'. rewrite Hfs, list_elem_of_filter. naive_solver. }
  destruct (findDuplicate spec forSource) as [first|] eqn:Hfind; last first.
  { exfalso. rewrite findDuplicate_None in Hfind.
    by rewrite (Hfind o shared) in Hsame. }
  assert (Hkeep : ∀ sp, sp ∈ keep ↔ sp ∈ eiSpecifiers imp ∧ findDuplicate sp forSource = None).
  { intros sp. rewrite Hk. unfold specifiersToKeep. rewrite list_elem_of_filter. naive_solver. }
  assert (Hnotkeep : spec ∉ keep).
  { rewrite Hkeep. intros [_ Hnone]. by rewrite Hnone in Hfind. }
  assert (Hedits : ∀ e, e ∈ importEdits others imp → e ∈ result.1).
  { intros e He. rewrite Hres, dedupeImports_spec. cbn [fst].
    apply elem_of_flat_map. eauto. }
  split_and!.
  - done.
  - intros sp. rewrite Hkeep, findDuplicate_None. split.
    + intros [Hsp Hall]. split; [done|]. intros o' other Ho' Hs. apply Hall. by apply Hin.
    + intros [Hsp Hall]. split; [done|]. intros o' other [Ho' Hs]%Hin. by apply Hall.
  - intros Hnil. apply Hedits. unfold importEdits. rewrite <- Hfs.
    destruct forSource; [by apply elem_of_nil in HforSource|].
    rewrite <- Hk, Hnil. cbn. apply list_elem_of_here.
  - intros Hnonnil. apply Hedits. unfold importEdits. rewrite <- Hfs.
    destruct forSource as [|o1 rest]; [by apply elem_of_nil in HforSource|].
    rewrite <- Hk.
    case_decide as Hlen; [by destruct keep|].
    case_decide as Hlt; [apply list_elem_of_here|].
    exfalso. apply Hlt. rewrite Hk. unfold specifiersToKeep.
    apply (length_filter_lt _ _ spec); [done|]. by rewrite Hfind.
  - exists first. apply findDuplicate_Some in Hfind as Hfirst.
    destruct Hfirst as [Hsame' _]. split_and!; [done..|].
    intros Hdiff.
    assert (Hlookup : result.2 !! spLocalName spec = Some (spLocalName first)).
    { rewrite Hres, dedupeImports_spec. cbn [snd].
      apply foldl_insertPair_lookup.
      - eapply sublist_NoDup; [exact Hnodup | apply allRenames_keys].
      - apply elem_of_flat_map. exists imp. split; [done|].
        unfold importRenames. apply elem_of_flat_map. exists spec. split; [done|].
        rewrite <- Hfs. unfold specifierRename. rewrite Hfind.
        rewrite decide_True by done. apply list_elem_of_here. }
    split; [done|]. intros ast start fin Hne Hentered.
    rewrite renameEdits_entered. apply elem_of_flat_map.
    exists (Identifier start fin (spLocalName spec)). split; [done|].
    cbn [renameNodeEdits]. rewrite (renameTarget_Some _ _ _ Hlookup Hne).
    apply list_elem_of_here.
Qed.

Lemma duplicate_external_imports_witness :
  let result := dedupeImports (externalImportsOf aliasPrimaryCode aliasPrimaryAst)
                  (externalImportsOf aliasSharedCode aliasSharedAst) in
  Overwrite 0 32 "import { d } from 'lib';" ∈ result.1
  ∧ result.2 !! "c" = Some "b"
  ∧ toString aliasPrimaryCode result.1 = Some "import { d } from 'lib'; c(d);"
  ∧ toString "import { d } from 'lib'; c(d);"
      (renameEdits result.2
         (Program 0 30
            [ImportDeclaration 0 24
               [ImportSpecifier 9 10 (Ident 9 10 "d") (Ident 9 10 "d")] "lib";
             ExpressionStatement 25 30
               (Other 25 29 "CallExpression" [Identifier 25 26 "c"; Identifier 27 28 "d"])]))
    = Some "import { d } from 'lib'; b(d);".
Proof.
  pose (imp := {| eiSource := "lib";
                  eiSpecifiers :=
                    [{| spType := namedSpec; spLocalName := "c"; spImportedName := Some "a" |};
                     {| spType := namedSpec; spLocalName := "d"; spImportedName := Some "d" |}];
                  eiFullStatement := "import { a as c, d } from 'lib';";
                  eiStart := 0; eiEnd := 32 |}).
  pose (o := {| eiSource := "lib";
                eiSpecifiers :=
                  [{| spType := namedSpec; spLocalName := "b"; spImportedName := Some "a" |}];
                eiFullStatement := "import { a as b } from 'lib';";
                eiStart := 0; eiEnd := 29 |}).
  destruct (duplicate_external_imports_removed
              (externalImportsOf aliasPrimaryCode aliasPrimaryAst)
              (externalImportsOf aliasSharedCode aliasSharedAst) imp o
              {| spType := namedSpec; spLocalName := "c"; spImportedName := Some "a" |}
              {| spType := namedSpec; spLocalName := "b"; spImportedName := Some "a" |})
    as (_ & _ & _ & Hrebuilt & first & Hfind & _ & Hrename).
  - vm_compute. repeat constructor; set_solver.
  - apply list_elem_of_here.
  - apply list_elem_of_here.
  - apply list_elem_of_here.
  - reflexivity.
  - apply list_elem_of_here.
  - reflexivity.
  - intros result. injection Hfind as <-. split_and!.
    + apply Hrebuilt. discriminate.
    + apply Hrename. discriminate.
    + reflexivity.
    + reflexivity.
Defined.

(** ** Destructuring recovery *)











(** ** Lists *)

Lemma submseteq_NoDup {A : Type} (l k : list A) : l ⊆+ k → NoDup k → NoDup l.
Proof.
  intros (k' & Hk)%submseteq_Permutation Hnodup. rewrite Hk in Hnodup.
  by apply NoDup_app in Hnodup as [? _].
Qed.

Lemma flat_map_submseteq {A B : Type} (f g : A → list B) (l : list A) :
  (∀ x, x ∈ l → f x ⊆+ g x) → flat_map f l ⊆+ flat_map g l.
Proof.
  induction l as [|x l IH]; intros H; [done|]. cbn [flat_map].
  apply submseteq_app; [apply H, list_elem_of_here|].
  apply IH. intros y Hy. by apply H, list_elem_of_further.
Qed.

Lemma fmap_flat_map {A B C : Type} (f : A → list B) (g : B → C) (l : list A) :
  g <$> flat_map f l = flat_map (λ x, g <$> f x) l.
Proof. induction l as [|x l IH]; [done|]. cbn. by rewrite fmap_app, IH. Qed.

Lemma forallb_elem {A : Type} (p : A → bool) (l : list A) (x : A) :
  forallb p l = true → x ∈ l → p x = true.
Proof. rewrite forallb_forall. intros H Hx. by apply H, list_elem_of_In. Qed.

(** * Further properties of the engine *)

(** ** Chunk analysis *)

Lemma find_filter_nil {A : Type} (p : A → bool) (l : list A) :
  find p l = None ↔ filter (λ x, p x = true) l = [].
Proof.
  induction l as [|x l IH]; [done|]. cbn [find].
  destruct (p x) eqn:Hx.
  - rewrite filter_cons_True by done. done.
  - rewrite filter_cons_False by congruence. done.
Qed.

Lemma find_filter_head {A : Type} (p : A → bool) (l : list A) (x : A) :
  find p l = Some x → ∃ rest, filter (λ x, p x = true) l = x :: rest.
Proof.
  induction l as [|y l IH]; [done|]. cbn [find].
  destruct (p y) eqn:Hy.
  - intros [= ->]. rewrite filter_cons_True by done. eauto.
  - rewrite filter_cons_False by congruence. done.
Qed.

(** [analyzeChunks] fails exactly when no entry chunk of the bundle has the
    primary name; the error then quotes the name and lists the names of the
    entry chunks; otherwise the primary is the first entry chunk of that
    name, assets set aside. *)
Theorem analyzeChunks_primary (bundle : list bundleItem) (primaryEntryName : string) :
  let chunks := outputChunks bundle in
  let named := filter (λ chunk, isPrimaryChunk primaryEntryName chunk = true) chunks in
  match analyzeChunks bundle primaryEntryName with
  | Throw message =>
      named = []
      ∧ (∀ chunk, chunk ∈ chunks → chIsEntry chunk = true → chName chunk ≠ primaryEntryName)
      ∧ message = primaryNotFoundMessage primaryEntryName chunks
      ∧ Js.occursIn primaryEntryName message
  | Normal analysis =>
      (∃ rest, named = primaryChunk analysis :: rest)
      ∧ primaryChunk analysis ∈ chunks
      ∧ chIsEntry (primaryChunk analysis) = true
      ∧ chName (primaryChunk analysis) = primaryEntryName
  end.
Proof.
  intros chunks named. unfold analyzeChunks. fold chunks.
  destruct (find (isPrimaryChunk primaryEntryName) chunks) as [primary|] eqn:Hfind.
  - destruct (find_filter_head _ _ _ Hfind) as [rest Hrest]. cbn [primaryChunk].
    assert (Hin : primary ∈ named).
    { unfold named. rewrite Hrest. apply list_elem_of_here. }
    apply list_elem_of_filter in Hin as [Hprimary Hin].
    apply andb_true_iff in Hprimary as [Hentry Hname%bool_decide_eq_true].
    split_and!; [by exists rest | done..].
  - apply find_filter_nil in Hfind. split_and!; [done| |done|].
    + intros chunk Hin Hentry Hname.
      assert (chunk ∈ named) as Hnamed.
      { apply list_elem_of_filter. split; [|done]. unfold isPrimaryChunk.
        by rewrite Hentry, bool_decide_eq_true_2. }
      unfold named in Hnamed. rewrite Hfind in Hnamed. by apply elem_of_nil in Hnamed.
    + unfold primaryNotFoundMessage. exists ("Primary entry " +:+ quote). eexists.
      by rewrite !JsFacts.app_assoc.
Qed.

Lemma chunks_by_kind (primaryEntryName : string) (chunks : list OutputChunk) :
  chunks
  ≡ₚ filter (λ chunk, isSharedChunk chunk = true) chunks
     ++ filter (λ chunk, isPrimaryChunk primaryEntryName chunk = true) chunks
     ++ filter (λ chunk, isSatelliteChunk primaryEntryName chunk = true) chunks
     ++ filter (λ chunk, isUnsharedChunk chunk = true) chunks.
Proof.
  induction chunks as [|x l IH]; [done|].
  assert (Hkind :
    (isSharedChunk x = true ∧ isPrimaryChunk primaryEntryName x = false
     ∧ isSatelliteChunk primaryEntryName x = false ∧ isUnsharedChunk x = false)
    ∨ (isSharedChunk x = false ∧ isPrimaryChunk primaryEntryName x = true
       ∧ isSatelliteChunk primaryEntryName x = false ∧ isUnsharedChunk x = false)
    ∨ (isSharedChunk x = false ∧ isPrimaryChunk primaryEntryName x = false
       ∧ isSatelliteChunk primaryEntryName x = true ∧ isUnsharedChunk x = false)
    ∨ (isSharedChunk x = false ∧ isPrimaryChunk primaryEntryName x = false
       ∧ isSatelliteChunk primaryEntryName x = false ∧ isUnsharedChunk x = true)).
  { unfold isSharedChunk, isPrimaryChunk, isSatelliteChunk, isUnsharedChunk.
    destruct (chIsEntry x); repeat case_bool_decide; cbn; tauto. }
  rewrite !filter_cons.
  destruct Hkind as [(-> & -> & -> & ->)|[(-> & -> & -> & ->)|[(-> & -> & -> & ->)|(-> & -> & -> & ->)]]];
    repeat case_decide; try done.
  all: cbn [app]; rewrite <- ?Permutation_middle; by apply perm_skip.
Qed.

(** No chunk is lost and none is taken twice: when at most one entry chunk
    has the primary name and at most one non-entry chunk is named
    [__shared__], the chunks of the bundle are the shared chunk (if any), the
    primary, the satellites and the unshared chunks. *)
Theorem analyzeChunks_partition
    (bundle : list bundleItem) (primaryEntryName : string) (analysis : ChunkAnalysis) :
  length (filter (λ chunk, isPrimaryChunk primaryEntryName chunk = true)
            (outputChunks bundle)) ≤ 1 →
  length (filter (λ chunk, isSharedChunk chunk = true) (outputChunks bundle)) ≤ 1 →
  analyzeChunks bundle primaryEntryName = Normal analysis →
  outputChunks bundle
  ≡ₚ option_list (sharedChunk analysis)
     ++ primaryChunk analysis :: satelliteChunks analysis ++ unsharedChunks analysis.
Proof.
  intros Hprimary Hshared. unfold analyzeChunks.
  destruct (find (isPrimaryChunk primaryEntryName) _) as [primary|] eqn:Hfind; [|done].
  intros [= <-]. cbn [sharedChunk primaryChunk satelliteChunks unsharedChunks].
  rewrite (chunks_by_kind primaryEntryName (outputChunks bundle)) at 1.
  destruct (find_filter_head _ _ _ Hfind) as [rest Hrest].
  rewrite Hrest in Hprimary |- *. destruct rest; [|cbn in Hprimary; lia].
  destruct (find isSharedChunk _) as [shared|] eqn:Hs.
  - destruct (find_filter_head _ _ _ Hs) as [rest' Hrest'].
    rewrite Hrest' in Hshared |- *. destruct rest'; [|cbn in Hshared; lia]. done.
  - apply find_filter_nil in Hs. by rewrite Hs.
Qed.

Lemma analyzeChunks_partition_witness :
  outputChunks sampleBundle
  ≡ₚ [sampleChunk "__shared__" "__shared__.js" false [];
      sampleChunk "main" "main.js" true ["__shared__.js"];
      sampleChunk "admin" "admin.js" true ["__shared__.js"; "locale-en.js"];
      sampleChunk "locale-en" "locale-en.js" false []].
Proof.
  apply (analyzeChunks_partition sampleBundle "main"
           {| sharedChunk := Some (sampleChunk "__shared__" "__shared__.js" false []);
              primaryChunk := sampleChunk "main" "main.js" true ["__shared__.js"];
              satelliteChunks :=
                [sampleChunk "admin" "admin.js" true ["__shared__.js"; "locale-en.js"]];
              unsharedChunks := [sampleChunk "locale-en" "locale-en.js" false []] |}).
  - vm_compute. lia.
  - vm_compute. lia.
  - reflexivity.
Defined.

(** ** Unshared chunks *)

(** An import path is taken for a chunk exactly when it contains the chunk's
    file name without a trailing [".js"].  So every source the unshared merge
    takes for a chunk the shared merge would take for it too, and a path is
    taken for every chunk whose stem it contains: [./locale-en-gb.js] counts
    as an import of [locale-en.js]. *)
Theorem isChunkSource_containment (source chunkFileName : string) (chunk : OutputChunk) :
  (isChunkSource source chunkFileName = true
   ↔ Js.occursIn (Js.stripJsExtension chunkFileName) source)
  ∧ (isChunkSource source chunkFileName = true
     → isSharedChunkSource source chunkFileName = true)
  ∧ (∀ stem pre post, isChunkSource (pre +:+ stem +:+ post) (stem +:+ ".js") = true)
  ∧ (chunkImportsFrom chunk chunkFileName = true
     ↔ ∃ imp, imp ∈ chImports chunk
              ∧ Js.occursIn (Js.stripJsExtension chunkFileName) imp).
Proof.
  assert (Hiff : ∀ s f, isChunkSource s f = true ↔ Js.occursIn (Js.stripJsExtension f) s).
  { intros s f. unfold isChunkSource. apply JsFacts.includes_spec. }
  split_and!.
  - apply Hiff.
  - unfold isChunkSource, isSharedChunkSource. intros ->. apply orb_true_r.
  - intros stem pre post. apply Hiff. rewrite JsFacts.stripJsExtension_suffix.
    by exists pre, post.
  - unfold chunkImportsFrom. rewrite existsb_exists.
    split; intros (imp & Hin & Himp); exists imp.
    + split; [by apply list_elem_of_In | by apply Hiff].
    + split; [by apply list_elem_of_In | by apply Hiff].
Qed.

Lemma unsharedRenameMap_lookup suffix (declarations : gset string) name :
  unsharedRenameMap suffix declarations !! name
  = if bool_decide (name ∈ declarations) then Some (unsharedName suffix name) else None.
Proof.
  unfold unsharedRenameMap. revert declarations.
  apply (set_fold_ind_L
           (λ (m : gmap string string) (X : gset string),
              m !! name = if bool_decide (name ∈ X)
                          then Some (unsharedName suffix name) else None)).
  - by rewrite lookup_empty.
  - intros x X m Hx IH. destruct (decide (name = x)) as [->|Hne].
    + rewrite lookup_insert_eq, bool_decide_eq_true_2 by set_solver. done.
    + rewrite lookup_insert_ne by done. rewrite IH.
      apply (f_equal (λ b : bool, if b then _ else _)).
      apply bool_decide_ext. set_solver.
Qed.

Lemma unsharedName_truthy suffix name : Js.truthy (unsharedName suffix name) = true.
Proof. reflexivity. Qed.

Lemma string_app_inj (p a b : string) : p +:+ a = p +:+ b → a = b.
Proof.
  induction p as [|c p IH]; [done|]. rewrite !JsFacts.app_cons. intros [= H]. by apply IH.
Qed.

Lemma foldl_insert_pairs {A : Type} (key value : A → string) (l : list A)
    (m : gmap string string) :
  foldl (λ (m : gmap string string) x, <[key x := value x]> m) m l
  = foldl insertPair m ((λ x, (key x, value x)) <$> l).
Proof. revert m. induction l as [|x l IH]; intros m; [done|]. cbn [foldl fmap list_fmap]. apply IH. Qed.

Lemma chunkRewriteVisitor_emits chunkFileName exportToLocal namespaceNames renames n s :
  chunkRewriteVisitor chunkFileName exportToLocal namespaceNames renames n s
  = (s ++ chunkNodeEdits chunkFileName exportToLocal namespaceNames renames n, false).
Proof.
  destruct n; cbn [chunkRewriteVisitor chunkNodeEdits]; try (by rewrite app_nil_r);
    repeat case_match; by rewrite ?app_nil_r.
Qed.

Lemma collectChunkSpecifier_renames exportToLocal specifiers acc :
  (foldl (collectChunkSpecifier exportToLocal) acc specifiers).2
  = foldl insertPair acc.2 (flat_map (chunkSpecifierRename exportToLocal) specifiers).
Proof.
  revert acc. induction specifiers as [|spec specifiers IH]; intros [names renames]; [done|].
  cbn [foldl flat_map]. rewrite IH, foldl_app. f_equal.
  destruct spec; try done; cbn [collectChunkSpecifier chunkSpecifierRename snd];
    by case_decide.
Qed.

Lemma chunkCollect_renames chunkFileName exportToLocal (nodes : list node) acc :
  (foldl (λ s c, (chunkCollectVisitor chunkFileName exportToLocal c s).1) acc nodes).2
  = foldl insertPair acc.2 (flat_map (chunkAliasRenames chunkFileName exportToLocal) nodes).
Proof.
  revert acc. induction nodes as [|n nodes IH]; intros acc; [done|].
  cbn [foldl flat_map]. rewrite IH, foldl_app. f_equal.
  destruct n; try done. cbn [chunkCollectVisitor chunkAliasRenames fst].
  case_match; [|done]. apply collectChunkSpecifier_renames.
Qed.

(** What the two passes of [removeChunkImportsAndRewriteRefs] amount to. *)
Lemma chunkRewriteEdits_subnodes chunkFileName exportToLocal ast :
  ∃ namespaceNames,
    chunkRewriteEdits chunkFileName exportToLocal ast
    = flat_map (chunkNodeEdits chunkFileName exportToLocal namespaceNames
                  (foldl insertPair ∅
                     (flat_map (chunkAliasRenames chunkFileName exportToLocal)
                        (subnodes ast))))
        (subnodes ast).
Proof.
  unfold chunkRewriteEdits.
  pose proof (walk_entered (chunkCollectVisitor chunkFileName exportToLocal) (λ _, false))
    as Hcollect.
  rewrite Hcollect by (intros n s; by destruct n).
  pose proof (chunkCollect_renames chunkFileName exportToLocal (subnodes ast) (∅, ∅))
    as Hrenames.
  unfold subnodes in *.
  destruct (foldl _ _ _) as [namespaceNames renames]. cbn [snd] in Hrenames. subst renames.
  exists namespaceNames.
  by rewrite (walk_appending _ (λ _, false)
                (chunkNodeEdits chunkFileName exportToLocal namespaceNames _))
    by apply chunkRewriteVisitor_emits.
Qed.

Lemma chunkAliasRenames_keys chunkFileName exportToLocal ast :
  (flat_map (chunkAliasRenames chunkFileName exportToLocal) (subnodes ast)).*1
  ⊆+ chunkImportLocals chunkFileName ast.
Proof.
  unfold chunkImportLocals. rewrite fmap_flat_map.
  apply flat_map_submseteq. intros n _.
  destruct n; try done. cbn [chunkAliasRenames]. case_match; [|done].
  rewrite fmap_flat_map. apply flat_map_submseteq. intros spec _.
  destruct spec; try (by apply submseteq_nil_l);
    cbn [chunkSpecifierRename specifierLocal]; case_decide;
    by (apply submseteq_nil_l || done).
Qed.

(** References follow the declarations.  For an export of the unshared
    chunk that no other export shares its exported name with, the map
    handed to the rewriter sends the exported name to [__<suffix>$<local>]
    when the local name is a top-level declaration of the chunk, which is
    the name [renameIdentifiers] gives that declaration, and to the local
    name as it is otherwise; two declarations never get the same new name.
    In an entry that imports the export under an alias (each alias of the
    chunk's imports bound once), the rewriter removes the import statement
    and overwrites every identifier named by the alias with that name. *)
Theorem unshared_exports_follow_renames
    (info : ExportInfo) (unsharedDeclarations : gset string) (suffix : string)
    (exp : ExportMapping) :
  exp ∈ exports info →
  NoDup (exportedName <$> exports info) →
  (hasDefault info = true → exportedName exp ≠ "default") →
  let renameMap := unsharedRenameMap suffix unsharedDeclarations in
  let localExportToLocal := localExportToLocalMap (unsharedExportToLocal info) renameMap in
  let target := if bool_decide (localName exp ∈ unsharedDeclarations)
                then unsharedName suffix (localName exp) else localName exp in
  localExportToLocal !! exportedName exp = Some target
  ∧ (localName exp ∈ unsharedDeclarations →
     renameTarget renameMap (localName exp) = Some (unsharedName suffix (localName exp)))
  ∧ (∀ name, name ∉ unsharedDeclarations → renameTarget renameMap name = None)
  ∧ (∀ a b, unsharedName suffix a = unsharedName suffix b → a = b)
  ∧ (∀ entryAst chunkFileName importStart importFin specifiers source
       specStart specFin imported alias,
       ImportDeclaration importStart importFin specifiers source ∈ subnodes entryAst →
       isChunkSource source chunkFileName = true →
       ImportSpecifier specStart specFin imported alias ∈ specifiers →
       idName imported = exportedName exp →
       NoDup (chunkImportLocals chunkFileName entryAst) →
       Js.truthy (localName exp) = true →
       let edits := chunkRewriteEdits chunkFileName localExportToLocal entryAst in
       Remove importStart importFin ∈ edits
       ∧ (idName alias ≠ target →
          ∀ start fin, Identifier start fin (idName alias) ∈ subnodes entryAst →
                       Overwrite start fin target ∈ edits)).
Proof.
  intros Hin Hnodup Hdefault renameMap localExportToLocal target.
  assert (Hexport : unsharedExportToLocal info !! exportedName exp = Some (localName exp)).
  { unfold unsharedExportToLocal.
    assert (foldl (λ (m : gmap string string) e, <[exportedName e := localName e]> m)
              ∅ (exports info) !! exportedName exp = Some (localName exp)) as Hfold.
    { rewrite foldl_insert_pairs. apply foldl_insertPair_lookup.
      - by rewrite <- list_fmap_compose.
      - apply list_elem_of_fmap. by exists exp. }
    destruct (hasDefault info); [|done].
    rewrite lookup_insert_ne; [done|]. intros Heq. by apply Hdefault. }
  assert (Htarget : localExportToLocal !! exportedName exp = Some target).
  { unfold localExportToLocal, localExportToLocalMap.
    rewrite lookup_fmap, Hexport. cbn. unfold renameMap, target.
    rewrite unsharedRenameMap_lookup. by case_bool_decide. }
  split_and!.
  - exact Htarget.
  - intros Hdeclared. unfold renameTarget, renameMap.
    rewrite unsharedRenameMap_lookup, bool_decide_eq_true_2 by done.
    by rewrite unsharedName_truthy.
  - intros name Hnot. unfold renameTarget, renameMap.
    by rewrite unsharedRenameMap_lookup, bool_decide_eq_false_2.
  - intros a b Heq. unfold unsharedName in Heq.
    by do 3 apply string_app_inj in Heq.
  - intros entryAst chunkFileName importStart importFin specifiers source
      specStart specFin imported alias Himport Hsource Hspec Himported Hlocals Htruthy edits.
    destruct (chunkRewriteEdits_subnodes chunkFileName localExportToLocal entryAst)
      as [namespaceNames Hedits].
    unfold edits. rewrite Hedits. clear edits Hedits.
    set (pairs := flat_map (chunkAliasRenames chunkFileName localExportToLocal)
                    (subnodes entryAst)).
    split.
    + apply elem_of_flat_map. eexists. split; [exact Himport|].
      cbn [chunkNodeEdits]. rewrite Hsource. apply list_elem_of_here.
    + intros Hdiff start fin Hident.
      assert (Hpair : (idName alias, target) ∈ pairs).
      { apply elem_of_flat_map. eexists. split; [exact Himport|].
        cbn [chunkAliasRenames]. rewrite Hsource.
        apply elem_of_flat_map. eexists. split; [exact Hspec|].
        cbn [chunkSpecifierRename]. unfold resolveExport.
        rewrite Himported, Htarget. cbn [default].
        rewrite decide_True by done. apply list_elem_of_here. }
      assert (Hlookup : foldl insertPair ∅ pairs !! idName alias = Some target).
      { apply foldl_insertPair_lookup; [|done].
        eapply submseteq_NoDup; [apply chunkAliasRenames_keys | exact Hlocals]. }
      assert (Htruthy' : Js.truthy target = true).
      { unfold target. case_bool_decide; [apply unsharedName_truthy | done]. }
      apply elem_of_flat_map. eexists. split; [exact Hident|].
      cbn [chunkNodeEdits].
      rewrite bool_decide_eq_true_2.
      2: { assert (size (foldl insertPair ∅ pairs) ≠ 0)
             by (apply (map_size_ne_0_lookup_2 _ (idName alias)); eauto).
           lia. }
      unfold renameTarget. rewrite Hlookup, Htruthy'. apply list_elem_of_here.
Qed.

(** [export { messages as m }] of the chunk [locale-en]. *)
Lemma unshared_exports_witness :
  localExportToLocalMap
    (unsharedExportToLocal
       {| exports := [{| exportedName := "m"; localName := "messages" |}];
          hasDefault := true |})
    (unsharedRenameMap (chunkSuffix "locale-en") {["messages"]}) !! "m"
  = Some "__locale_en$messages".
Proof.
  destruct (unshared_exports_follow_renames
              {| exports := [{| exportedName := "m"; localName := "messages" |}];
                 hasDefault := true |}
              {["messages"]} (chunkSuffix "locale-en")
              {| exportedName := "m"; localName := "messages" |}) as [Hlookup _].
  - apply list_elem_of_here.
  - apply NoDup_singleton.
  - discriminate.
  - etrans; [exact Hlookup | by vm_compute].
Defined.

(** The constant that takes the place of the default export gets no prefix:
    in every unshared chunk whose default export is used it is
    [__unshared_default__], whatever the chunk's name, so the default exports
    of two unshared chunks inlined into one entry share one name. *)
Theorem unshared_default_is_not_prefixed
    (info : ExportInfo) (unsharedDeclarations : gset string) (suffix : string) :
  hasDefault info = true →
  "__unshared_default__" ∉ unsharedDeclarations →
  let renameMap := unsharedRenameMap suffix unsharedDeclarations in
  localExportToLocalMap (unsharedExportToLocal info) renameMap !! "default"
  = Some "__unshared_default__"
  ∧ renameTarget renameMap "__unshared_default__" = None.
Proof.
  intros Hdefault Hnot renameMap. unfold localExportToLocalMap, unsharedExportToLocal, renameTarget.
  rewrite Hdefault, lookup_fmap, lookup_insert_eq. cbn. unfold renameMap.
  by rewrite unsharedRenameMap_lookup, bool_decide_eq_false_2.
Qed.

Lemma unshared_default_witness :
  localExportToLocalMap
    (unsharedExportToLocal {| exports := []; hasDefault := true |})
    (unsharedRenameMap "locale_en" {["messages"]}) !! "default"
  = localExportToLocalMap
      (unsharedExportToLocal {| exports := []; hasDefault := true |})
      (unsharedRenameMap "locale_fr" {["messages"]}) !! "default".
Proof.
  assert (Hnot : "__unshared_default__" ∉ ({["messages"]} : gset string)).
  { intros Hin%elem_of_singleton. discriminate. }
  destruct (unshared_default_is_not_prefixed {| exports := []; hasDefault := true |}
              {["messages"]} "locale_en" eq_refl Hnot) as [-> _].
  destruct (unshared_default_is_not_prefixed {| exports := []; hasDefault := true |}
              {["messages"]} "locale_fr" eq_refl Hnot) as [-> _].
  reflexivity.
Defined.

Lemma allChars_app (p : ascii → bool) (s t : string) :
  allChars p (s +:+ t) = allChars p s && allChars p t.
Proof.
  induction s as [|c s IH]; [done|]. rewrite JsFacts.app_cons. cbn [allChars].
  by rewrite IH, andb_assoc.
Qed.

Lemma chunkSuffix_chars (name : string) :
  allChars isIdentifierChar (chunkSuffix name) = true.
Proof.
  unfold chunkSuffix. induction name as [|c name IH]; [done|].
  cbn [mapChars allChars]. rewrite IH, andb_true_r.
  destruct (isAlphaNumeric c) eqn:Hc; [|done].
  unfold isIdentifierChar. by rewrite Hc.
Qed.

(** The names the inlined declarations get are identifiers: whatever
    characters the chunk's name holds, the suffix made of it has its length
    and consists of letters, digits and [_]; so [__<suffix>$<name>] consists
    of identifier characters when [name] does, and starts with [__].
    Sanitising a suffix again changes nothing. *)
Theorem unsharedName_is_identifier (chunkName name : string) :
  allChars isIdentifierChar name = true →
  let newName := unsharedName (chunkSuffix chunkName) name in
  allChars isIdentifierChar newName = true
  ∧ Js.startsWith newName "__" = true
  ∧ String.length (chunkSuffix chunkName) = String.length chunkName
  ∧ chunkSuffix (chunkSuffix chunkName) = chunkSuffix chunkName.
Proof.
  intros Hname newName. split_and!.
  - unfold newName, unsharedName. rewrite !allChars_app, chunkSuffix_chars, Hname. done.
  - reflexivity.
  - unfold chunkSuffix. induction chunkName as [|c s IH]; [done|].
    cbn [mapChars String.length]. by rewrite IH.
  - unfold chunkSuffix. induction chunkName as [|c s IH]; [done|].
    cbn [mapChars]. rewrite IH. f_equal.
    destruct (isAlphaNumeric c) eqn:Hc; [by rewrite Hc | done].
Qed.

Lemma unsharedName_witness :
  unsharedName (chunkSuffix "locales/en-gb") "messages" = "__locales_en_gb$messages"
  ∧ allChars isIdentifierChar (unsharedName (chunkSuffix "locales/en-gb") "messages") = true.
Proof.
  destruct (unsharedName_is_identifier "locales/en-gb" "messages") as [Hchars _];
    [reflexivity|].
  split; [reflexivity | exact Hchars].
Defined.

Lemma mergeUnsharedIntoEntry_keeps parse unsharedChunk strippedCode exportToLocal entry entry' :
  mergeUnsharedIntoEntry parse unsharedChunk strippedCode exportToLocal entry = Some entry' →
  chName entry' = chName entry
  ∧ chFileName entry' = chFileName entry
  ∧ chIsEntry entry' = chIsEntry entry
  ∧ chImports entry' = chImports entry
  ∧ chExports entry' = chExports entry
  ∧ (chunkImportsFrom entry (chFileName unsharedChunk) = false → entry' = entry).
Proof.
  unfold mergeUnsharedIntoEntry.
  destruct (chunkImportsFrom entry (chFileName unsharedChunk)); cbn [negb].
  - intros H. repeat (apply bind_Some in H as (? & _ & H)).
    injection H as <-. by split_and!.
  - intros [= <-]. by split_and!.
Qed.

(** The unshared merge changes nothing but the code of the entries that
    import from the chunk: it returns as many entries, in the same order,
    each with its name, file name and lists of imports and exports, and an
    entry that does not import from the chunk is returned as it is.  The
    [imports] of an entry go on listing the chunk that was inlined. *)
Theorem mergeUnsharedIntoImporters_touches_importers_only
    (parse : ParseFn) (unsharedChunk : OutputChunk) (entryChunks merged : list OutputChunk) :
  mergeUnsharedIntoImporters parse unsharedChunk entryChunks = Some merged →
  Forall2 (λ entry entry',
             chName entry' = chName entry
             ∧ chFileName entry' = chFileName entry
             ∧ chIsEntry entry' = chIsEntry entry
             ∧ chImports entry' = chImports entry
             ∧ chExports entry' = chExports entry
             ∧ (chunkImportsFrom entry (chFileName unsharedChunk) = false → entry' = entry))
    entryChunks merged.
Proof.
  unfold mergeUnsharedIntoImporters. intros H.
  apply bind_Some in H as (info & _ & H). apply bind_Some in H as (stripped & _ & H).
  apply mapM_Some in H. eapply Forall2_impl; [exact H|].
  intros entry entry'. apply mergeUnsharedIntoEntry_keeps.
Qed.

Lemma mergeUnsharedIntoImporters_witness :
  ∃ merged,
    mergeUnsharedIntoImporters localeParse localeChunk [localeUser; localeStranger]
    = Some merged
    ∧ chName <$> merged = ["main"; "admin"]
    ∧ merged !! 1 = Some localeStranger.
Proof.
  destruct (mergeUnsharedIntoImporters localeParse localeChunk [localeUser; localeStranger])
    as [merged|] eqn:Hmerge; [|vm_compute in Hmerge; discriminate Hmerge].
  exists merged. split; [reflexivity|].
  pose proof (mergeUnsharedIntoImporters_touches_importers_only _ _ _ _ Hmerge) as Hall.
  apply Forall2_cons_inv_l in Hall as (user & rest & (Hname & _) & Hrest & ->).
  apply Forall2_cons_inv_l in Hrest
    as (stranger & rest' & (_ & _ & _ & _ & _ & Hsame) & Hnil & ->).
  apply Forall2_nil_inv_l in Hnil as ->.
  rewrite (Hsame eq_refl). cbn [fmap list_fmap lookup list_lookup]. rewrite Hname.
  split; reflexivity.
Defined.

(** ** Conversion *)

(** Once [bundle.generate] has resolved, the build instance is closed before
    anything else happens: the log ends with its creation and its closing
    whatever becomes of the wrapper afterwards, also when the parser rejects
    the rendered text and the conversion fails. *)
Theorem convertToIife_closes_after_generate
    (parse : ParseFn) (host : Rollup) (opts : ConvertOptions) (log : list event)
    (mappings : list ImportMapping) (rendered : string) :
  (if Js.truthyOpt (optSharedGlobalPath opts)
   then extractSharedImportMappings parse (optCode opts) else Normal []) = Normal mappings →
  rollupBuild host (optCode opts) = Normal () →
  bundleGenerate host (optCode opts) (optGlobalName opts) (rollupGlobals opts)
    = Normal rendered →
  (convertToIife parse host opts log).2 = log ++ [BundleCreated; BundleClosed]
  ∧ (parse (stripNamespaceGuards rendered) = None →
     Js.truthyOpt (optSharedGlobalPath opts) = true → mappings ≠ [] →
     (convertToIife parse host opts log).1 = Throw "SyntaxError").
Proof.
  intros Hmap Hbuild Hgen. unfold convertToIife, taskBind, await, emit, taskRet.
  destruct (Js.truthyOpt (optSharedGlobalPath opts)) eqn:Hshared.
  - rewrite Hmap, Hbuild, Hgen. cbn [andb]. rewrite <- app_assoc. cbn [app].
    case_bool_decide as Hlen.
    + split; [done|]. intros Hparse _ _. cbn [fst].
      unfold destructureSharedParameter, parseOrThrow. by rewrite Hparse.
    + split; [by repeat case_match|]. intros _ _ Hne. destruct mappings; [done|].
      cbn [length] in Hlen. lia.
  - injection Hmap as <-. rewrite Hbuild, Hgen. cbn [andb]. rewrite <- app_assoc. cbn [app].
    split; [by repeat case_match|]. done.
Qed.

Lemma convertToIife_closes_witness :
  convertToIife moduleOnlyParse wrappingHost
    {| optCode := satelliteCode; optGlobalName := Some "MyLib.Admin"; optGlobals := ∅;
       optSharedGlobalPath := Some "MyLib.Shared";
       optSharedChunkFileName := Some "__shared__.js"; optSkipRequireGlobals := None |} []
  = (Throw "SyntaxError", [BundleCreated; BundleClosed]).
Proof.
  destruct (convertToIife_closes_after_generate moduleOnlyParse wrappingHost
              {| optCode := satelliteCode; optGlobalName := Some "MyLib.Admin";
                 optGlobals := ∅; optSharedGlobalPath := Some "MyLib.Shared";
                 optSharedChunkFileName := Some "__shared__.js";
                 optSkipRequireGlobals := None |} []
              [{| mImported := "helper"; mLocal := "helper" |}] satelliteWrapper)
    as [Hlog Hthrow]; [reflexivity..|].
  apply injective_projections; [apply Hthrow; [reflexivity|reflexivity|discriminate] | exact Hlog].
Defined.

Lemma dotted_name_truthy (a b : string) : Js.truthy (a +:+ "." +:+ b) = true.
Proof. by destruct a. Qed.

Lemma dotted_name_includes_dot (a b : string) : Js.includes (a +:+ "." +:+ b) "." = true.
Proof. apply JsFacts.includes_spec. by exists a, b. Qed.

(** The primary's wrapper is what Rollup rendered: the conversion neither
    parses nor edits it.  Only a [primaryGlobal] that holds a dot makes it
    lose its namespace guards, as a satellite's wrapper does. *)
Theorem primary_wrapper_is_rendered
    (parse : ParseFn) (host : Rollup) (code primaryGlobal rendered : string)
    (outputGlobals : gmap string string) (skipRequireGlobals : option bool)
    (log : list event) :
  let opts := primaryOptions code primaryGlobal outputGlobals skipRequireGlobals in
  rollupBuild host code = Normal () →
  bundleGenerate host code (Some primaryGlobal) (rollupGlobals opts) = Normal rendered →
  convertToIife parse host opts log
  = (Normal (if Js.includes primaryGlobal "." then stripNamespaceGuards rendered else rendered),
     log ++ [BundleCreated; BundleClosed]).
Proof.
  intros opts Hbuild Hgen. unfold convertToIife, taskBind, await, emit, taskRet.
  cbn [opts primaryOptions optSharedGlobalPath optCode optGlobalName Js.truthyOpt andb
       default] in *.
  rewrite Hbuild, Hgen, <- app_assoc. cbn [app].
  destruct (Js.truthy primaryGlobal) eqn:Htruthy; cbn [andb].
  - unfold id. by destruct (Js.includes primaryGlobal ".").
  - by destruct primaryGlobal.
Qed.

(** A satellite with a property name is wrapped under
    [<primaryGlobal>.<property>], a name with a dot: its wrapper always loses
    the namespace guards, and its shared parameter is destructured exactly
    when the module has a named or default import from a source containing
    [__shared__]. *)
Theorem satellite_wrapper_loses_guards
    (parse : ParseFn) (host : Rollup) (display : string → string) (satellite : OutputChunk)
    (primaryGlobal sharedProp prop rendered : string)
    (secondaryProps : list (string * string)) (outputGlobals : gmap string string)
    (sharedChunkFileName : option string) (skipRequireGlobals : option bool)
    (ast : node) (log : list event) :
  ownProperty secondaryProps (chName satellite) = Some prop →
  Js.truthy prop = true →
  parse (chCode satellite) = Some ast →
  rollupBuild host (chCode satellite) = Normal () →
  ∃ opts,
    satelliteOptions display satellite primaryGlobal sharedProp secondaryProps outputGlobals
      sharedChunkFileName skipRequireGlobals = Normal opts
    ∧ optGlobalName opts = Some (primaryGlobal +:+ "." +:+ prop)
    ∧ (bundleGenerate host (chCode satellite) (optGlobalName opts) (rollupGlobals opts)
       = Normal rendered →
       convertToIife parse host opts log
       = (match sharedImportMappingsOf ast with
          | [] => Normal (stripNamespaceGuards rendered)
          | mappings =>
              destructureSharedParameter parse (stripNamespaceGuards rendered) mappings
          end,
          log ++ [BundleCreated; BundleClosed])).
Proof.
  intros Hprop Htruthy Hparse Hbuild. unfold satelliteOptions, getProperty.
  rewrite Hprop. cbn [truthyProperty]. rewrite Htruthy. cbn [negb andb].
  eexists. split; [reflexivity|]. cbn [optGlobalName]. split; [reflexivity|].
  intros Hgen. unfold convertToIife, taskBind, await, emit, taskRet.
  cbn [optSharedGlobalPath optCode optGlobalName Js.truthyOpt default] in *. unfold id.
  rewrite !dotted_name_truthy, dotted_name_includes_dot. cbn [andb negb].
  unfold extractSharedImportMappings, parseOrThrow. rewrite Hparse, Hbuild, Hgen.
  rewrite <- app_assoc. cbn [app].
  destruct (sharedImportMappingsOf ast) as [|m ms]; [done|].
  rewrite bool_decide_eq_true_2 by (cbn; lia). done.
Qed.

Lemma satellite_wrapper_witness :
  ∃ opts,
    satelliteOptions (λ member, member) satelliteChunk "MyLib" "Shared" [("admin", "Admin")] ∅
      (Some "__shared__.js") None = Normal opts
    ∧ convertToIife satelliteParse wrappingHost opts []
      = (Normal ("MyLib.Admin = (function (exports, { helper }) { helper(); return exports; })"
                 +:+ "({}, MyLib.Shared);"),
         [BundleCreated; BundleClosed]).
Proof.
  destruct (satellite_wrapper_loses_guards satelliteParse wrappingHost (λ member, member)
              satelliteChunk
              "MyLib" "Shared" "Admin" satelliteWrapper [("admin", "Admin")] ∅
              (Some "__shared__.js") None satelliteAst [])
    as (opts & Hopts & _ & Hconvert); [reflexivity..|].
  exists opts. split; [exact Hopts|].
  injection Hopts as <-. rewrite Hconvert by reflexivity. reflexivity.
Defined.

Lemma primary_wrapper_witness :
  convertToIife (λ _, None) wrappingHost (primaryOptions satelliteCode "MyLib" ∅ (Some true)) []
  = (Normal satelliteWrapper, [BundleCreated; BundleClosed]).
Proof.
  apply (primary_wrapper_is_rendered (λ _, None) wrappingHost satelliteCode "MyLib"
           satelliteWrapper ∅ (Some true) []); reflexivity.
Defined.

(** ** Namespace guards *)

Lemma eatLiteral_startsWith (lit s : string) :
  Js.startsWith s lit = false → eatLiteral lit s = None.
Proof.
  revert s. induction lit as [|a lit IH]; intros s; [done|].
  cbn [Js.startsWith eatLiteral]. destruct s as [|b s]; [done|].
  case_decide; [apply IH | done].
Qed.

Lemma replaceAtLineStarts_unmatched matcher (lineStart : bool) (s : string) :
  (∀ line, line ∈ linesFrom lineStart s → matcher line = None) →
  replaceAtLineStarts matcher lineStart 0 s = s.
Proof.
  revert lineStart. induction s as [|c s IH]; intros lineStart Hlines; [done|].
  cbn [replaceAtLineStarts].
  assert ((if lineStart then matcher (String c s) else None) = None) as ->.
  { destruct lineStart; [|done]. apply Hlines. cbn [linesFrom]. apply list_elem_of_here. }
  rewrite IH; [done|]. intros line Hline. apply Hlines. cbn [linesFrom].
  apply elem_of_app. by right.
Qed.

Lemma linesFrom_suffix (lineStart : bool) (s line : string) :
  line ∈ linesFrom lineStart s → ∃ pre, s = pre +:+ line.
Proof.
  revert lineStart. induction s as [|c s IH]; intros lineStart; cbn [linesFrom].
  - by intros ?%elem_of_nil.
  - intros [Hhere|Hlater]%elem_of_app.
    + destruct lineStart; [|by apply elem_of_nil in Hhere].
      apply list_elem_of_singleton in Hhere as ->. by exists "".
    + destruct (IH _ Hlater) as [pre ->]. by exists (String c pre).
Qed.

Lemma includes_suffix (pre s sub : string) :
  Js.includes (pre +:+ s) sub = false → Js.startsWith s sub = false.
Proof.
  induction pre as [|c pre IH].
  - rewrite JsFacts.app_nil_l. destruct s; cbn [Js.includes];
      by intros [? _]%orb_false_iff.
  - rewrite JsFacts.app_cons. cbn [Js.includes]. intros [_ H]%orb_false_iff. by apply IH.
Qed.

(** A wrapper none of whose lines starts with [this.] comes out of
    [stripNamespaceGuards] as it went in; in particular one that does not
    mention [this.] at all. *)
Theorem stripNamespaceGuards_leaves_other_lines (code : string) :
  (∀ line, line ∈ lineStarts code → Js.startsWith line "this." = false)
  ∨ Js.includes code "this." = false →
  stripNamespaceGuards code = code.
Proof.
  intros Hcode.
  assert (Hlines : ∀ line, line ∈ lineStarts code → Js.startsWith line "this." = false).
  { destruct Hcode as [Hlines|Hnone]; [done|].
    intros line [pre ->]%linesFrom_suffix. by eapply includes_suffix. }
  clear Hcode. unfold stripNamespaceGuards.
  rewrite (replaceAtLineStarts_unmatched matchGuardLine true code).
  - apply replaceAtLineStarts_unmatched. intros line Hline.
    unfold matchThisAssignment. by rewrite eatLiteral_startsWith by by apply Hlines.
  - intros line Hline.
    unfold matchGuardLine. by rewrite eatLiteral_startsWith by by apply Hlines.
Qed.

Lemma stripNamespaceGuards_witness :
  stripNamespaceGuards "var MyLib = (function (exports) { exports.x = this.y; })({});"
  = "var MyLib = (function (exports) { exports.x = this.y; })({});".
Proof.
  apply stripNamespaceGuards_leaves_other_lines. left.
  intros line Hline. cbn in Hline. apply list_elem_of_singleton in Hline as ->. reflexivity.
Defined.

(** ** Walks *)

Lemma entered_unfold (skips : node → bool) (n : node) :
  entered skips n
  = n :: if skips n then []
         else identLeaves n ++ flat_map (entered skips) (childNodes n).
Proof.
  destruct n as [| |? ? o p ?|? ? i ps b|? ? e|? ? i l|? ? l|? ? l|? ? specs ?|? ? l e
                |? ? d specs ?|? ? d|? ? ds|? ? i init|? ? i ps b|? ? i sup b|? ? ? cs|? ? body];
    cbn [entered identLeaves childNodes flat_map app]; destruct (skips _); try reflexivity;
    rewrite ?flat_map_app, ?app_nil_r; cbn [flat_map]; rewrite ?app_nil_r; try reflexivity.
  - destruct d; cbn [flat_map]; by rewrite ?app_nil_r.
  - destruct init; cbn [flat_map]; by rewrite ?app_nil_r.
  - destruct sup; cbn [flat_map]; by rewrite ?app_nil_r.
Qed.

Lemma identLeaves_leaf (n leaf : node) :
  leaf ∈ identLeaves n → ∃ start fin name, leaf = Identifier start fin name.
Proof.
  destruct n as [| |? ? o p ?|? ? [i|] ps b|? ? e|? ? i l|? ? l|? ? l|? ? specs ?|? ? l e
                |? ? d specs ?|? ? d|? ? ds|? ? i init|? ? [i|] ps b|? ? [i|] sup b|? ? ? cs
                |? ? body]; cbn [identLeaves];
    rewrite ?elem_of_cons, ?elem_of_nil; unfold identNode; naive_solver.
Qed.

(** What a walk with skips enters is part of the tree. *)
Lemma entered_subnodes (skips : node → bool) (n n' : node) :
  n' ∈ entered skips n → n' ∈ subnodes n.
Proof.
  unfold subnodes. revert n'. induction n as [n IH] using node_children_ind. intros n'.
  rewrite (entered_unfold skips), (entered_unfold (λ _, false)).
  intros [->|Hin]%elem_of_cons; [apply list_elem_of_here|].
  apply list_elem_of_further. destruct (skips n); [by apply elem_of_nil in Hin|].
  apply elem_of_app in Hin as [Hleaf|Hchild]; apply elem_of_app; [by left|right].
  apply elem_of_flat_map in Hchild as (c & Hc & Hin). apply elem_of_flat_map.
  exists c. split; [done|]. rewrite Forall_forall in IH. by apply IH.
Qed.

Lemma subnodes_trans (n n' n'' : node) :
  n' ∈ subnodes n → n'' ∈ subnodes n' → n'' ∈ subnodes n.
Proof.
  unfold subnodes. revert n' n''. induction n as [n IH] using node_children_ind.
  intros n' n''. rewrite (entered_unfold _ n).
  intros [->|Hin]%elem_of_cons; [by rewrite (entered_unfold _ n)|].
  intros Hn''. apply list_elem_of_further.
  apply elem_of_app in Hin as [Hleaf|Hchild]; apply elem_of_app.
  - left. destruct (identLeaves_leaf _ _ Hleaf) as (s & f & name & ->).
    cbn in Hn''. by apply list_elem_of_singleton in Hn'' as ->.
  - right. apply elem_of_flat_map in Hchild as (c & Hc & Hin). apply elem_of_flat_map.
    exists c. split; [done|]. rewrite Forall_forall in IH. by eapply IH.
Qed.

Lemma subnodes_self (n : node) : n ∈ subnodes n.
Proof. unfold subnodes. rewrite entered_unfold. apply list_elem_of_here. Qed.

(** A callback that leaves the state alone at every node of the tree leaves
    it alone over the walk. *)
Lemma walk_unchanged {S : Type} (enter : visitor S) (skips : node → bool) (ast : node) (s : S) :
  (∀ n s, (enter n s).2 = skips n) →
  (∀ n, n ∈ subnodes ast → (enter n s).1 = s) →
  walk enter ast s = s.
Proof.
  intros Hskips Hsame. rewrite (walk_entered enter skips Hskips).
  assert (Hall : ∀ n, n ∈ entered skips ast → (enter n s).1 = s).
  { intros n Hn. by apply Hsame, (entered_subnodes skips). }
  revert Hall. generalize (entered skips ast). intros l.
  induction l as [|c l IH]; intros Hall; [done|]. cbn [foldl].
  rewrite Hall by apply list_elem_of_here.
  apply IH. intros n Hn. by apply Hall, list_elem_of_further.
Qed.

(** ** What the rewriters leave alone *)

Lemma specifier_local_subnode (ast spec : node) (name : string) :
  spec ∈ subnodes ast → name ∈ specifierLocal spec →
  ∃ start fin, Identifier start fin name ∈ subnodes ast.
Proof.
  intros Hspec Hname.
  destruct spec; try (by apply elem_of_nil in Hname);
    apply list_elem_of_singleton in Hname as ->;
    exists (idStart local), (idEnd local);
    apply (subnodes_trans _ _ _ Hspec); unfold subnodes; cbn;
    rewrite ?elem_of_cons; unfold identNode; naive_solver.
Qed.

(** [renameIdentifiers] only touches identifiers the map renames: code in
    which no identifier has a name with a non-empty target (no entry, or the
    empty string, which the code takes for none) is returned as it is. *)
Theorem renameIdentifiers_leaves_other_names
    (parse : ParseFn) (code : string) (ast : node) (renameMap : gmap string string) :
  parse code = Some ast →
  (∀ start fin name, Identifier start fin name ∈ subnodes ast →
                     renameTarget renameMap name = None) →
  renameEdits renameMap ast = []
  ∧ renameIdentifiers parse code renameMap = Some code.
Proof.
  intros Hparse Hnames.
  assert (Hedits : renameEdits renameMap ast = []).
  { rewrite renameEdits_entered.
    assert (Hall : ∀ n, n ∈ entered renameSkips ast → renameNodeEdits renameMap n = []).
    { intros n Hn%entered_subnodes.
      assert (Hlocal : ∀ name, name ∈ specifierLocal n → renameTarget renameMap name = None).
      { intros name Hname.
        destruct (specifier_local_subnode ast n name Hn Hname) as (s & f & Hid).
        by eapply Hnames. }
      destruct n; try done; cbn [renameNodeEdits].
      - by rewrite (Hnames _ _ _ Hn).
      - rewrite Hlocal; [done | apply list_elem_of_here].
      - rewrite Hlocal; [done | apply list_elem_of_here].
      - rewrite Hlocal; [done | apply list_elem_of_here]. }
    revert Hall. generalize (entered renameSkips ast). intros l Hall.
    induction l as [|n l IH]; [done|]. cbn [flat_map].
    rewrite Hall by apply list_elem_of_here. apply IH.
    intros n' Hn'. by apply Hall, list_elem_of_further. }
  split; [done|]. unfold renameIdentifiers. case_decide; [done|].
  rewrite Hparse. cbn. by rewrite Hedits, toString_no_edits.
Qed.

(** No identifier of the module is named [other], and the target of
    [helper] is empty. *)
Lemma renameIdentifiers_witness :
  renameIdentifiers (λ _, Some helperSharedAst) helperSharedCode
    {["other" := "renamed"; "helper" := ""]}
  = Some helperSharedCode.
Proof.
  apply (renameIdentifiers_leaves_other_names (λ _, Some helperSharedAst) helperSharedCode
           helperSharedAst); [reflexivity|].
  assert (Hall : Forall (λ n, match n with
                              | Identifier _ _ name =>
                                  renameTarget {["other" := "renamed"; "helper" := ""]} name
                                  = None
                              | _ => True
                              end) (subnodes helperSharedAst)).
  { repeat constructor. }
  intros start fin name Hin. rewrite Forall_forall in Hall. apply (Hall _ Hin).
Defined.

(** A module with no import and no re-export whose source is taken for the
    chunk goes through both import removers unchanged: neither collects a
    name from it nor edits it. *)
Theorem import_removers_leave_other_modules
    (parse : ParseFn) (code : string) (ast : node) (chunkFileName : string)
    (exportToLocal : gmap string string) :
  parse code = Some ast →
  (∀ n, n ∈ subnodes ast →
        match n with
        | ImportDeclaration _ _ _ source
        | ExportNamedDeclaration _ _ _ _ (Some source) =>
            isSharedChunkSource source chunkFileName = false
        | _ => True
        end) →
  removeSharedImportsAndRewriteRefs parse code chunkFileName exportToLocal = Some code
  ∧ removeChunkImportsAndRewriteRefs parse code chunkFileName exportToLocal = Some code.
Proof.
  intros Hparse Hother.
  assert (Hchunk : ∀ source, isSharedChunkSource source chunkFileName = false →
                             isChunkSource source chunkFileName = false).
  { unfold isSharedChunkSource, isChunkSource. by intros source [_ ?]%orb_false_iff. }
  unfold removeSharedImportsAndRewriteRefs, removeChunkImportsAndRewriteRefs.
  rewrite Hparse. cbn [mbind option_bind]. split; f_equal.
  - unfold rewriteSharedEdits.
    rewrite (walk_unchanged _ (λ _, false)); first last.
    { intros n Hn. specialize (Hother n Hn). destruct n; try done.
      cbn [collectVisitor]. by rewrite Hother. }
    { intros n s. by destruct n. }
    rewrite (walk_unchanged _
               (λ n, (rewriteVisitor chunkFileName exportToLocal ∅ ∅ n []).2));
      [apply toString_no_edits | |].
    + intros n s. destruct n; try done; cbn [rewriteVisitor]; repeat case_match; done.
    + intros n Hn. specialize (Hother n Hn).
      destruct n; try done; cbn [rewriteVisitor].
      * repeat case_match; try done.
        exfalso. match goal with H : _ && _ = true |- _ =>
          apply andb_true_iff in H as [[_ Hin%bool_decide_eq_true]%andb_true_iff _] end.
        by apply not_elem_of_empty in Hin.
      * by rewrite Hother.
      * destruct source; [|done]. by rewrite Hother.
  - unfold chunkRewriteEdits.
    rewrite (walk_unchanged _ (λ _, false)); first last.
    { intros n Hn. specialize (Hother n Hn). destruct n; try done.
      cbn [chunkCollectVisitor]. by rewrite (Hchunk _ Hother). }
    { intros n s. by destruct n. }
    rewrite (walk_unchanged _ (λ _, false)); [apply toString_no_edits | |].
    + intros n s. destruct n; try done; cbn [chunkRewriteVisitor]; repeat case_match; done.
    + intros n Hn. specialize (Hother n Hn).
      destruct n; try done; cbn [chunkRewriteVisitor].
      * repeat case_match; try done.
        exfalso. match goal with H : _ && _ = true |- _ =>
          apply andb_true_iff in H as [[_ Hin%bool_decide_eq_true]%andb_true_iff _] end.
        by apply not_elem_of_empty in Hin.
      * by rewrite (Hchunk _ Hother).
Qed.

Lemma import_removers_witness :
  removeSharedImportsAndRewriteRefs (λ _, Some aliasPrimaryAst) aliasPrimaryCode
    "__shared__.js" ∅ = Some aliasPrimaryCode
  ∧ removeChunkImportsAndRewriteRefs (λ _, Some aliasPrimaryAst) aliasPrimaryCode
      "__shared__.js" ∅ = Some aliasPrimaryCode.
Proof.
  apply (import_removers_leave_other_modules (λ _, Some aliasPrimaryAst) aliasPrimaryCode
           aliasPrimaryAst); [reflexivity|].
  assert (Hall : Forall (λ n, match n with
                              | ImportDeclaration _ _ _ source
                              | ExportNamedDeclaration _ _ _ _ (Some source) =>
                                  isSharedChunkSource source "__shared__.js" = false
                              | _ => True
                              end) (subnodes aliasPrimaryAst)).
  { repeat constructor. }
  intros n Hn. rewrite Forall_forall in Hall. apply (Hall _ Hn).
Defined.

(** ** Destructuring *)

Lemma sharedParam_absent (ast : node) :
  (∀ n, n ∈ subnodes ast → lastIdentifierParam n = None) →
  walk sharedParamVisitor ast None = None.
Proof.
  intros Hnone. apply (walk_unchanged _ (λ _, false)).
  - intros n []; by destruct n.
  - intros n Hn. specialize (Hnone n Hn).
    destruct n; try done; cbn in Hnone |- *; by repeat case_match.
Qed.

(** A wrapper in which no function expression has an identifier for its last
    parameter (none has parameters, or it is an arrow function) is returned
    as it is, also when mappings were recorded; nothing is destructured and
    no ['use strict'] is removed. *)
Theorem destructureSharedParameter_needs_a_parameter
    (parse : ParseFn) (code : string) (ast : node) (mappings : list ImportMapping) :
  parse code = Some ast →
  (∀ n, n ∈ subnodes ast → lastIdentifierParam n = None) →
  destructureEdits ast mappings = None
  ∧ destructureSharedParameter parse code mappings = Normal code.
Proof.
  intros Hparse Hnone.
  assert (Hedits : destructureEdits ast mappings = None).
  { unfold destructureEdits. by rewrite sharedParam_absent. }
  split; [done|]. unfold destructureSharedParameter, parseOrThrow.
  by rewrite Hparse, Hedits.
Qed.

Lemma destructureSharedParameter_witness :
  destructureSharedParameter (λ _, Some arrowWrapperAst) arrowWrapperCode
    [{| mImported := "a"; mLocal := "x" |}]
  = Normal arrowWrapperCode.
Proof.
  apply (destructureSharedParameter_needs_a_parameter (λ _, Some arrowWrapperAst)
           arrowWrapperCode arrowWrapperAst); [reflexivity|].
  assert (Hall : Forall (λ n, lastIdentifierParam n = None) (subnodes arrowWrapperAst)).
  { repeat constructor. }
  intros n Hn. rewrite Forall_forall in Hall. apply (Hall _ Hn).
Defined.

(** ** What the satellites need *)

Lemma sharedImportsOf_spec (sharedChunkFileName : string) (ast : node) (name : string) :
  name ∈ sharedImportsOf sharedChunkFileName ast
  ↔ ∃ start fin specifiers source,
      ImportDeclaration start fin specifiers source ∈ subnodes ast
      ∧ isSharedChunkSource source sharedChunkFileName = true
      ∧ name ∈ sharedImportNames specifiers.
Proof.
  unfold sharedImportsOf, subnodes.
  rewrite (walk_entered _ (λ _, false)) by (intros n s; by destruct n).
  generalize (entered (λ _, false) ast). intros l.
  assert (Hgen : ∀ X : gset string,
            name ∈ foldl (λ s c, (sharedImportsVisitor sharedChunkFileName c s).1) X l
            ↔ name ∈ X
              ∨ ∃ start fin specifiers source,
                  ImportDeclaration start fin specifiers source ∈ l
                  ∧ isSharedChunkSource source sharedChunkFileName = true
                  ∧ name ∈ sharedImportNames specifiers).
  { induction l as [|n l IH]; intros X; cbn [foldl].
    - split; [by left|]. intros [?|(? & ? & ? & ? & ?%elem_of_nil & _)]; done.
    - rewrite IH. setoid_rewrite elem_of_cons. split.
      + intros [Hin|(s & f & specs & source & Hl & Hshared & Hname)].
        * destruct n; try (by left). cbn [sharedImportsVisitor fst] in Hin.
          destruct (isSharedChunkSource source sharedChunkFileName) eqn:Hshared; [|by left].
          apply elem_of_union in Hin as [?|Hin]; [by left|]. right.
          apply elem_of_list_to_set in Hin. naive_solver.
        * right. naive_solver.
      + intros [Hin|(s & f & specs & source & [<-|Hl] & Hshared & Hname)].
        * left. destruct n; try done. cbn [sharedImportsVisitor fst].
          destruct (isSharedChunkSource _ _); [|done]. apply elem_of_union. by left.
        * left. cbn [sharedImportsVisitor fst]. rewrite Hshared.
          apply elem_of_union. right. by apply elem_of_list_to_set.
        * right. naive_solver. }
  rewrite Hgen. split; [|by right]. intros [Hin|?]; [|done].
  by apply not_elem_of_empty in Hin.
Qed.

(** [collectNeededExports] gathers what the satellites import from the
    shared chunk, whatever their order: a name is needed exactly when some
    satellite has an import statement from the shared chunk that names it (a
    named specifier's imported name, or [default]); the pass fails exactly
    when the parser rejects a satellite. *)
Theorem collectNeededExports_union
    (parse : ParseFn) (satelliteCodes : list string) (sharedFileName : string) :
  match collectNeededExports parse satelliteCodes sharedFileName with
  | Some needed =>
      (∀ code, code ∈ satelliteCodes → is_Some (parse code))
      ∧ ∀ name, name ∈ needed
                ↔ ∃ code ast, code ∈ satelliteCodes ∧ parse code = Some ast
                              ∧ name ∈ sharedImportsOf sharedFileName ast
  | None => ∃ code, code ∈ satelliteCodes ∧ parse code = None
  end.
Proof.
  unfold collectNeededExports.
  set (step := λ (acc : option (gset string)) (code : string),
                 needed ← acc;
                 imports ← extractSharedImports parse code sharedFileName;
                 Some (needed ∪ imports)).
  assert (Hnone : ∀ l, foldl step None l = None).
  { induction l as [|c l IH]; [done | apply IH]. }
  assert (Hgen : ∀ l (X : gset string),
            match foldl step (Some X) l with
            | Some needed =>
                (∀ code, code ∈ l → is_Some (parse code))
                ∧ ∀ name, name ∈ needed
                          ↔ name ∈ X
                            ∨ ∃ code ast, code ∈ l ∧ parse code = Some ast
                                          ∧ name ∈ sharedImportsOf sharedFileName ast
            | None => ∃ code, code ∈ l ∧ parse code = None
            end).
  { induction l as [|c l IH]; intros X; cbn [foldl].
    - split; [by intros ? ?%elem_of_nil|]. intros name. split; [by left|].
      intros [?|(? & ? & ?%elem_of_nil & _)]; done.
    - unfold step at 2. cbn [mbind option_bind]. unfold extractSharedImports.
      destruct (parse c) as [ast|] eqn:Hc; cbn [fmap option_fmap option_map option_bind].
      + specialize (IH (X ∪ sharedImportsOf sharedFileName ast)).
        destruct (foldl step _ l) as [needed|].
        * destruct IH as [Hparse Hneeded]. split.
          -- intros code [->|?]%elem_of_cons; [by rewrite Hc | by apply Hparse].
          -- intros name. rewrite Hneeded, elem_of_union. setoid_rewrite elem_of_cons.
             split.
             ++ intros [[?|?]|(code & a & ? & ? & ?)]; [by left| |].
                ** right. exists c, ast. naive_solver.
                ** right. exists code, a. naive_solver.
             ++ intros [?|(code & a & [->|?] & Hp & ?)]; [by left; left| |].
                ** rewrite Hc in Hp. injection Hp as <-. by left; right.
                ** right. exists code, a. naive_solver.
        * destruct IH as (code & ? & ?). exists code. split; [by apply list_elem_of_further|done].
      + rewrite Hnone. exists c. split; [apply list_elem_of_here | done]. }
  specialize (Hgen satelliteCodes ∅). destruct (foldl step (Some ∅) satelliteCodes); [|done].
  destruct Hgen as [Hparse Hneeded]. split; [done|]. intros name. rewrite Hneeded.
  split; [|by right]. intros [Hin|?]; [|done]. by apply not_elem_of_empty in Hin.
Qed.

Lemma sharedExportEntries_none info renames :
  sharedExportEntries info ∅ renames = [].
Proof.
  unfold sharedExportEntries, sharedExportPairs.
  rewrite bool_decide_eq_false_2 by apply not_elem_of_empty. rewrite andb_false_r, app_nil_r.
  induction (exports info) as [|exp l IH]; [done|].
  by rewrite filter_cons_False by apply not_elem_of_empty.
Qed.

(** A namespace import asks for nothing.  When the satellites reach the
    shared chunk through [import * as ns] only, no export is needed, and the
    primary gets no shared object at all. *)
Theorem namespace_imports_need_nothing
    (parse : ParseFn) (satelliteCodes : list string) (sharedFileName sharedProperty : string)
    (info : ExportInfo) (renames : gmap string string) :
  (∀ code, code ∈ satelliteCodes →
     ∃ ast, parse code = Some ast
            ∧ ∀ start fin specifiers source,
                ImportDeclaration start fin specifiers source ∈ subnodes ast →
                isSharedChunkSource source sharedFileName = true →
                forallb isNamespaceSpecifier specifiers = true) →
  ∃ needed,
    collectNeededExports parse satelliteCodes sharedFileName = Some needed
    ∧ needed = ∅
    ∧ sharedObjectLines sharedProperty (sharedExportEntries info needed renames) = [].
Proof.
  intros Hcodes. exists ∅. split; [|split; [done | by rewrite sharedExportEntries_none]].
  unfold collectNeededExports. generalize (∅ : gset string) as X.
  induction satelliteCodes as [|code codes IH]; intros X; [done|]. cbn [foldl mbind option_bind].
  destruct (Hcodes code) as (ast & Hparse & Hspecs); [apply list_elem_of_here|].
  unfold extractSharedImports. rewrite Hparse. cbn [fmap option_fmap option_map option_bind].
  assert (sharedImportsOf sharedFileName ast = ∅) as ->.
  { apply set_eq. intros name. rewrite sharedImportsOf_spec. split; [|by intros ?%not_elem_of_empty].
    intros (s & f & specs & source & Hin & Hshared & Hname). exfalso.
    specialize (Hspecs s f specs source Hin Hshared).
    unfold sharedImportNames in Hname.
    apply elem_of_flat_map in Hname as (spec & Hspec & Hname).
    pose proof (forallb_elem _ _ _ Hspecs Hspec) as Hns.
    destruct spec; try done. by apply elem_of_nil in Hname. }
  cbn [mbind option_bind]. rewrite union_empty_r_L. apply IH.
  intros c Hc. by apply Hcodes, list_elem_of_further.
Qed.

Lemma namespace_imports_witness :
  collectNeededExports (λ _, Some namespaceSatelliteAst)
    ["import * as S from './__shared__.js'; S.helper();"] "__shared__.js"
  = Some ∅.
Proof.
  destruct (namespace_imports_need_nothing (λ _, Some namespaceSatelliteAst)
              ["import * as S from './__shared__.js'; S.helper();"] "__shared__.js" "Shared"
              {| exports := []; hasDefault := false |} ∅)
    as (needed & Hneeded & -> & _); [|exact Hneeded].
  intros code _. exists namespaceSatelliteAst. split; [reflexivity|].
  intros start fin specifiers source Hin _.
  assert (Hall : Forall (λ n, match n with
                              | ImportDeclaration _ _ specifiers _ =>
                                  forallb isNamespaceSpecifier specifiers = true
                              | _ => True
                              end) (subnodes namespaceSatelliteAst)).
  { repeat constructor. }
  rewrite Forall_forall in Hall. apply (Hall _ Hin).
Defined.

Lemma sharedImportMappingsOf_subnodes (ast : node) :
  sharedImportMappingsOf ast = flat_map mappingsOfNode (subnodes ast).
Proof.
  unfold sharedImportMappingsOf, subnodes.
  rewrite (walk_appending _ (λ _, false) mappingsOfNode); [done|].
  intros n s. destruct n; cbn [mappingsVisitor mappingsOfNode]; rewrite ?app_nil_r; try done.
  by destruct (Js.includes source SHARED_CHUNK_NAME); rewrite ?app_nil_r.
Qed.

Lemma mapping_imported_name (specifiers : list node) (m : ImportMapping) :
  m ∈ flat_map mappingOfSpecifier specifiers → mImported m ∈ sharedImportNames specifiers.
Proof.
  unfold sharedImportNames. intros (spec & Hspec & Hm)%elem_of_flat_map.
  apply elem_of_flat_map. exists spec. split; [done|].
  destruct spec; try (by apply elem_of_nil in Hm);
    apply list_elem_of_singleton in Hm as ->; apply list_elem_of_here.
Qed.

Lemma imported_name_mapping (specifiers : list node) (name : string) :
  name ∈ sharedImportNames specifiers →
  ∃ m, m ∈ flat_map mappingOfSpecifier specifiers ∧ mImported m = name.
Proof.
  unfold sharedImportNames. intros (spec & Hspec & Hname)%elem_of_flat_map.
  destruct spec; try (by apply elem_of_nil in Hname);
    apply list_elem_of_singleton in Hname as ->;
    eexists; (split; [apply elem_of_flat_map; eexists; split; [exact Hspec|apply list_elem_of_here]|done]).
Qed.

(** What a satellite's wrapper destructures from the shared object was
    asked of the primary: the imported name of every recorded mapping is one
    of the satellite's shared imports, whatever the shared file is called.
    The two agree when every source taken for the shared chunk contains
    [__shared__]; a source recognised by the file name alone is counted as
    needed but records no mapping. *)
Theorem destructured_names_are_needed (sharedChunkFileName : string) (ast : node) :
  (∀ m, m ∈ sharedImportMappingsOf ast →
        mImported m ∈ sharedImportsOf sharedChunkFileName ast)
  ∧ ((∀ start fin specifiers source,
        ImportDeclaration start fin specifiers source ∈ subnodes ast →
        isSharedChunkSource source sharedChunkFileName = true →
        Js.includes source SHARED_CHUNK_NAME = true) →
     ∀ name, name ∈ sharedImportsOf sharedChunkFileName ast →
             ∃ m, m ∈ sharedImportMappingsOf ast ∧ mImported m = name).
Proof.
  split.
  - intros m. rewrite sharedImportMappingsOf_subnodes, sharedImportsOf_spec.
    intros (n & Hn & Hm)%elem_of_flat_map. destruct n; try (by apply elem_of_nil in Hm).
    cbn [mappingsOfNode] in Hm.
    destruct (Js.includes source SHARED_CHUNK_NAME) eqn:Hsource; [|by apply elem_of_nil in Hm].
    exists start, fin, specifiers, source. split_and!; [done| |by apply mapping_imported_name].
    unfold isSharedChunkSource. by rewrite Hsource.
  - intros Hsources name (s & f & specs & source & Hin & Hshared & Hname)%sharedImportsOf_spec.
    destruct (imported_name_mapping specs name Hname) as (m & Hm & <-).
    exists m. split; [|done]. rewrite sharedImportMappingsOf_subnodes.
    apply elem_of_flat_map. exists (ImportDeclaration s f specs source). split; [done|].
    cbn [mappingsOfNode]. by rewrite (Hsources s f specs source Hin Hshared).
Qed.

(** ** Deduplication, continued *)

Lemma externalImportsOf_subnodes (code : string) (ast : node) :
  externalImportsOf code ast = flat_map (externalImportOfNode code) (subnodes ast).
Proof.
  unfold externalImportsOf, subnodes.
  rewrite (walk_appending _ (λ _, false) (externalImportOfNode code)); [done|].
  intros n s. destruct n; cbn [externalImportsVisitor externalImportOfNode];
    rewrite ?app_nil_r; try done.
  by destruct (isExternalSource source); rewrite ?app_nil_r.
Qed.

Lemma externalImport_statement (code : string) (ast : node) (imp : ExternalImport) :
  imp ∈ externalImportsOf code ast →
  ∃ specifiers,
    ImportDeclaration (eiStart imp) (eiEnd imp) specifiers (eiSource imp) ∈ subnodes ast
    ∧ isExternalSource (eiSource imp) = true
    ∧ eiSpecifiers imp = flat_map importSpecifier specifiers
    ∧ eiFullStatement imp = slice code (eiStart imp) (eiEnd imp).
Proof.
  rewrite externalImportsOf_subnodes. intros (n & Hn & Himp)%elem_of_flat_map.
  destruct n; try (by apply elem_of_nil in Himp). cbn [externalImportOfNode] in Himp.
  destruct (isExternalSource source) eqn:Hsource; [|by apply elem_of_nil in Himp].
  apply list_elem_of_singleton in Himp as ->. by exists specifiers.
Qed.

Lemma foldl_insertPair_Some (pairs : list (string * string)) m key value :
  foldl insertPair m pairs !! key = Some value → m !! key = Some value ∨ (key, value) ∈ pairs.
Proof.
  revert m. induction pairs as [|[k v] pairs IH]; intros m; [by left|]. cbn [foldl].
  intros [Hm|Hin]%IH; [|right; by apply list_elem_of_further].
  unfold insertPair in Hm. cbn [fst snd] in Hm.
  destruct (decide (k = key)) as [->|Hne].
  - rewrite lookup_insert_eq in Hm. injection Hm as ->. right. apply list_elem_of_here.
  - rewrite lookup_insert_ne in Hm by done. by left.
Qed.

(** The deduplication of external imports stays within its remit.  Every
    edit it makes replaces or removes a whole import statement of the code
    from an external source that the other chunk imports from too, and
    every rename it records sends the local name of one of the code's import
    specifiers to the different local name under which the other chunk
    imports the same binding from the same source. *)
Theorem external_dedupe_is_confined
    (code : string) (ast : node) (others : list ExternalImport) :
  let result := dedupeImports (externalImportsOf code ast) others in
  (∀ e, e ∈ result.1 →
        ∃ specifiers source o,
          ImportDeclaration (editStart e) (editEnd e) specifiers source ∈ subnodes ast
          ∧ isExternalSource source = true
          ∧ o ∈ others ∧ eiSource o = source)
  ∧ (∀ key value, result.2 !! key = Some value →
        key ≠ value
        ∧ ∃ imp spec o other,
            imp ∈ externalImportsOf code ast ∧ spec ∈ eiSpecifiers imp
            ∧ o ∈ others ∧ eiSource o = eiSource imp ∧ other ∈ eiSpecifiers o
            ∧ sameBinding spec other = true
            ∧ key = spLocalName spec ∧ value = spLocalName other).
Proof.
  intros result. unfold result. rewrite dedupeImports_spec. cbn [fst snd]. split.
  - intros e (imp & Himp & He)%elem_of_flat_map.
    destruct (externalImport_statement _ _ _ Himp) as (specs & Hnode & Hext & _).
    unfold importEdits in He.
    destruct (filter _ others) as [|o forSource] eqn:Hfilter; [by apply elem_of_nil in He|].
    assert (Ho : o ∈ filter (λ o, eiSource o = eiSource imp) others).
    { rewrite Hfilter. apply list_elem_of_here. }
    apply list_elem_of_filter in Ho as [Hsource Ho].
    assert (editStart e = eiStart imp ∧ editEnd e = eiEnd imp) as [-> ->].
    { repeat case_decide; try (by apply elem_of_nil in He);
        by apply list_elem_of_singleton in He as ->. }
    by exists specs, (eiSource imp), o.
  - intros key value [Hempty|Hpair]%foldl_insertPair_Some; [by rewrite lookup_empty in Hempty|].
    apply elem_of_flat_map in Hpair as (imp & Himp & Hpair). unfold importRenames in Hpair.
    apply elem_of_flat_map in Hpair as (spec & Hspec & Hpair). unfold specifierRename in Hpair.
    destruct (findDuplicate spec _) as [other|] eqn:Hfind; [|by apply elem_of_nil in Hpair].
    case_decide as Hne; [|by apply elem_of_nil in Hpair].
    apply list_elem_of_singleton in Hpair as [= -> ->]. split; [done|].
    apply findDuplicate_Some in Hfind as (Hsame & o & Ho & Hother).
    apply list_elem_of_filter in Ho as [Hsource Ho].
    by exists imp, spec, o, other.
Qed.

Lemma filter_nil_all {A : Type} (P : A → Prop) `{∀ x, Decision (P x)} (l : list A) :
  (∀ x, x ∈ l → ¬ P x) → filter P l = [].
Proof.
  induction l as [|x l IH]; intros Hall; [done|].
  rewrite filter_cons_False by apply Hall, list_elem_of_here.
  apply IH. intros y Hy. by apply Hall, list_elem_of_further.
Qed.

(** When the other chunk imports from none of the external sources the code
    imports from (in particular when it has no external import), the
    deduplication returns the code as it is and records no rename. *)
Theorem external_dedupe_needs_a_common_source
    (parse : ParseFn) (code : string) (ast : node) (others : list ExternalImport) :
  parse code = Some ast →
  (∀ imp o, imp ∈ externalImportsOf code ast → o ∈ others → eiSource o ≠ eiSource imp) →
  removeOrRewriteDuplicateExternalImports parse code others = Some (code, ∅).
Proof.
  intros Hparse Hsources. unfold removeOrRewriteDuplicateExternalImports, extractExternalImports.
  rewrite Hparse. cbn [fmap option_fmap option_map mbind option_bind].
  assert (Hnone : dedupeImports (externalImportsOf code ast) others = ([], ∅)).
  { rewrite dedupeImports_spec.
    assert (Hfilter : ∀ imp, imp ∈ externalImportsOf code ast →
                             filter (λ o, eiSource o = eiSource imp) others = []).
    { intros imp Himp. apply filter_nil_all. intros o Ho. by apply Hsources. }
    revert Hfilter. generalize (externalImportsOf code ast). intros imports Hfilter.
    induction imports as [|imp imports IH]; [done|]. cbn [flat_map].
    unfold importEdits at 1, importRenames at 1.
    rewrite (Hfilter imp) by apply list_elem_of_here. cbn [app].
    assert (flat_map (specifierRename []) (eiSpecifiers imp) = []) as ->.
    { induction (eiSpecifiers imp) as [|spec l IHl]; [done|]. cbn [flat_map]. by rewrite IHl. }
    apply IH. intros imp' Himp'. by apply Hfilter, list_elem_of_further. }
  rewrite Hnone. by rewrite toString_no_edits.
Qed.

Lemma external_dedupe_witness :
  removeOrRewriteDuplicateExternalImports (λ _, Some aliasPrimaryAst) aliasPrimaryCode
    [{| eiSource := "other-lib";
        eiSpecifiers := [{| spType := namedSpec; spLocalName := "a";
                            spImportedName := Some "a" |}];
        eiFullStatement := "import { a } from 'other-lib';";
        eiStart := 0; eiEnd := 30 |}]
  = Some (aliasPrimaryCode, ∅).
Proof.
  apply (external_dedupe_needs_a_common_source (λ _, Some aliasPrimaryAst) aliasPrimaryCode
           aliasPrimaryAst); [reflexivity|].
  intros imp o Himp Ho. apply list_elem_of_singleton in Ho as ->.
  vm_compute in Himp. apply list_elem_of_singleton in Himp as ->. discriminate.
Defined.

(** ** The shared object, continued *)

(** Satellites and primary see one binding.  In a shared chunk that exports
    each name once, the value written for a key of the shared object is the
    local name the primary's own references to that export are rewritten
    to, collision renames included. *)
Theorem shared_object_agrees_with_references
    (info : ExportInfo) (neededExports : gset string) (renames : gmap string string) :
  NoDup (exportedName <$> exports info) →
  (hasDefault info = true → "default" ∉ exportedName <$> exports info) →
  ∀ key value,
    (key, value) ∈ sharedExportPairs info neededExports renames →
    sharedExportToLocalMap info renames !! key = Some value
    ∧ ∀ fallback, resolveExport (sharedExportToLocalMap info renames) key fallback = value.
Proof.
  intros Hnodup Hdefault key value Hpair.
  assert (Hlookup : sharedExportToLocalMap info renames !! key = Some value);
    [|split; [done|]; intros fallback; unfold resolveExport; by rewrite Hlookup].
  unfold sharedExportPairs in Hpair. unfold sharedExportToLocalMap.
  apply elem_of_app in Hpair as [Hexport|Hdef].
  - apply list_elem_of_fmap in Hexport as (exp & [= -> ->] & Hexp).
    apply list_elem_of_filter in Hexp as [_ Hexp].
    assert (foldl (λ (m : gmap string string) e, <[exportedName e := renamedLocal renames e]> m)
              ∅ (exports info) !! exportedName exp = Some (renamedLocal renames exp)) as Hfold.
    { rewrite foldl_insert_pairs. apply foldl_insertPair_lookup.
      - by rewrite <- list_fmap_compose.
      - apply list_elem_of_fmap. by exists exp. }
    destruct (hasDefault info) eqn:Hhas; [|done].
    rewrite lookup_insert_ne; [done|]. intros Heq. apply Hdefault; [done|].
    rewrite Heq. apply list_elem_of_fmap. by exists exp.
  - destruct (hasDefault info); [|by apply elem_of_nil in Hdef]. cbn [andb] in Hdef.
    case_bool_decide; [|by apply elem_of_nil in Hdef].
    apply list_elem_of_singleton in Hdef as [= -> ->]. apply lookup_insert_eq.
Qed.

Lemma shared_object_agreement_witness :
  sharedExportToLocalMap threeExports {["usedBySatellite" := "__shared$usedBySatellite"]}
    !! "usedBySatellite"
  = Some "__shared$usedBySatellite".
Proof.
  apply (shared_object_agrees_with_references threeExports {["usedBySatellite"]}
           {["usedBySatellite" := "__shared$usedBySatellite"]}).
  - vm_compute. repeat constructor; set_solver.
  - discriminate.
  - vm_compute. repeat constructor.
Defined.

(** ** Exports *)

Lemma exportsVisitor_fold (l : list node) (info : ExportInfo) :
  let result := foldl (λ s c, (exportsVisitor c s).1) info l in
  (hasDefault result = true
   ↔ hasDefault info = true ∨ ∃ s f d, ExportDefaultDeclaration s f d ∈ l)
  ∧ ∀ exp, exp ∈ exports result
           ↔ exp ∈ exports info
             ∨ ∃ s f d specs source,
                 ExportNamedDeclaration s f d specs source ∈ l
                 ∧ (exp ∈ match d with Some d => declarationExports d | None => [] end
                    ∨ exp ∈ specifierExports specs).
Proof.
  revert info. induction l as [|n l IH]; intros info; cbn [foldl].
  - split.
    + split; [by left|]. intros [?|(? & ? & ? & ?%elem_of_nil)]; done.
    + intros exp. split; [by left|].
      intros [?|(? & ? & ? & ? & ? & ?%elem_of_nil & _)]; done.
  - destruct (IH (exportsVisitor n info).1) as [IHd IHe]. split.
    + rewrite IHd. setoid_rewrite elem_of_cons. split.
      * intros [Hn|(s & f & d & Hin)]; [|right; naive_solver].
        destruct n; try (by left). right. naive_solver.
      * intros [Hinfo|(s & f & d & [<-|Hin])]; [|by left|right; naive_solver].
        left. by destruct n.
    + intros exp. rewrite IHe. setoid_rewrite elem_of_cons. split.
      * intros [Hn|(s & f & d & specs & source & Hin & Hexp)]; [|right; naive_solver].
        destruct n; try (by left). cbn [exportsVisitor fst exports] in Hn.
        rewrite !elem_of_app in Hn. destruct Hn as [?|Hn]; [by left|].
        right. do 5 eexists. split; [by left|]. done.
      * intros [Hinfo|(s & f & d & specs & source & [<-|Hin] & Hexp)].
        -- left. destruct n; try done. cbn [exportsVisitor fst exports].
           rewrite !elem_of_app. by left.
        -- left. cbn [exportsVisitor fst exports]. rewrite !elem_of_app. by right.
        -- right. naive_solver.
Qed.

(** [extractExports] reads every export statement of the tree.  The module
    has a default export exactly when it holds an [export default]; an
    export mapping is reported exactly for the names an exported declaration
    binds through plain identifiers and for the specifiers of an export
    list, whether or not the statement has a source (a re-export counts as
    an export of a local name).  A name exported with its top-level
    declaration is exported under its own name and is one of the top-level
    declarations the collision resolver sees. *)
Theorem extractExports_reads_every_export (ast : node) :
  (hasDefault (exportsOf ast) = true
   ↔ ∃ start fin declaration, ExportDefaultDeclaration start fin declaration ∈ subnodes ast)
  ∧ (∀ exp, exp ∈ exports (exportsOf ast)
            ↔ ∃ start fin declaration specifiers source,
                ExportNamedDeclaration start fin declaration specifiers source ∈ subnodes ast
                ∧ (exp ∈ match declaration with
                         | Some d => declarationExports d
                         | None => []
                         end
                   ∨ exp ∈ specifierExports specifiers))
  ∧ (∀ start fin d specifiers source exp,
       ExportNamedDeclaration start fin (Some d) specifiers source ∈ programBody ast →
       exp ∈ declarationExports d →
       exportedName exp = localName exp ∧ localName exp ∈ topLevelDeclarations ast).
Proof.
  unfold exportsOf, subnodes.
  rewrite (walk_entered _ (λ _, false)) by (intros n s; by destruct n).
  destruct (exportsVisitor_fold (entered (λ _, false) ast)
              {| exports := []; hasDefault := false |}) as [Hdefault Hexports].
  split_and!.
  - rewrite Hdefault. cbn [hasDefault]. split; [by intros [?|?] | by right].
  - intros exp. rewrite Hexports. cbn [exports].
    split; [intros [?%elem_of_nil|?]; done | by right].
  - intros start fin d specifiers source exp Hitem Hexp.
    assert (Hnames : exportedName exp = localName exp
                     ∧ localName exp
                       ∈ declaredNames (ExportNamedDeclaration start fin (Some d)
                                          specifiers source)).
    { cbn [declaredNames]. unfold declarationExports in Hexp.
      destruct d; try (by apply elem_of_nil in Hexp).
      - apply list_elem_of_fmap in Hexp as (name & -> & Hname). done.
      - destruct id; [|by apply elem_of_nil in Hexp].
        apply list_elem_of_singleton in Hexp as ->. split; [done | apply list_elem_of_here].
      - destruct id; [|by apply elem_of_nil in Hexp].
        apply list_elem_of_singleton in Hexp as ->. split; [done | apply list_elem_of_here]. }
    destruct Hnames as [Hsame Hdeclared]. split; [done|].
    unfold topLevelDeclarations. apply elem_of_list_to_set, elem_of_flat_map. eauto.
Qed.

(** ** Namespace guards, as documented *)

Lemma string_length_app (s t : string) :
  String.length (s +:+ t) = String.length s + String.length t.
Proof. induction s as [|c s IH]; [done|]. rewrite JsFacts.app_cons. cbn. by rewrite IH. Qed.

Lemma eatLiteral_app (lit r : string) : eatLiteral lit (lit +:+ r) = Some r.
Proof.
  induction lit as [|c lit IH]; [done|]. rewrite JsFacts.app_cons. cbn [eatLiteral].
  by rewrite decide_True.
Qed.

Lemma eatWord_app (w r : string) :
  isWord w = true →
  (r = "" ∨ ∃ c r', r = String c r' ∧ isWordChar c = false) →
  eatWord (w +:+ r) = Some (w, r).
Proof.
  intros [Hne Hw]%andb_true_iff Hr.
  assert (Htake : takeWhile isWordChar (w +:+ r) = w ∧ dropWhile isWordChar (w +:+ r) = r).
  { clear Hne. induction w as [|c w IH].
    - rewrite JsFacts.app_nil_l. destruct Hr as [->|(c & r' & -> & Hc)]; [done|].
      cbn. by rewrite Hc.
    - cbn [allChars] in Hw. apply andb_true_iff in Hw as [Hc Hw].
      rewrite JsFacts.app_cons. cbn [takeWhile dropWhile]. rewrite Hc.
      destruct (IH Hw) as [-> ->]. done. }
  unfold eatWord. destruct Htake as [-> ->]. by destruct w.
Qed.

Lemma eatSpaces_space (c : ascii) (l t : string) :
  Ascii.is_space c = false →
  eatSpaces (" " +:+ String c l +:+ t) = String c l +:+ t.
Proof.
  intros Hc. unfold eatSpaces. rewrite !JsFacts.app_cons, JsFacts.app_nil_l.
  cbn [dropWhile]. rewrite Hc. done.
Qed.

Lemma eatSpaces_none (c : ascii) (l t : string) :
  Ascii.is_space c = false → eatSpaces (String c l +:+ t) = String c l +:+ t.
Proof. intros Hc. unfold eatSpaces. rewrite JsFacts.app_cons. cbn [dropWhile]. by rewrite Hc. Qed.

Lemma replaceAtLineStarts_skip matcher (lineStart : bool) (pre s : string) :
  replaceAtLineStarts matcher lineStart (String.length pre) (pre +:+ s)
  = replaceAtLineStarts matcher (lineStartAfter lineStart pre) 0 s.
Proof.
  revert lineStart. induction pre as [|c pre IH]; intros lineStart; [done|].
  rewrite JsFacts.app_cons. cbn [String.length replaceAtLineStarts lineStartAfter]. apply IH.
Qed.

Lemma linesFrom_word (w s : string) :
  allChars isWordChar w = true → linesFrom false (w +:+ s) = linesFrom false s.
Proof.
  induction w as [|c w IH]; [done|]. cbn [allChars]. intros [Hc Hw]%andb_true_iff.
  rewrite JsFacts.app_cons. cbn [linesFrom app].
  assert (isLineBreak c = false) as ->; [|by apply IH].
  unfold isWordChar in Hc. unfold isLineBreak.
  destruct (Nat.eqb_spec (nat_of_ascii c) 10) as [Heq|_];
    [rewrite Heq in Hc; discriminate|].
  destruct (Nat.eqb_spec (nat_of_ascii c) 13) as [Heq|_];
    [rewrite Heq in Hc; discriminate | done].
Qed.

Lemma matchGuardLine_guard (X Z tail : string) :
  isWord X = true → isWord Z = true →
  matchGuardLine ("this." +:+ X +:+ " " +:+ "=" +:+ " " +:+ "this." +:+ Z +:+ " " +:+ "||"
                  +:+ " " +:+ "{};" +:+ newline +:+ tail)
  = Some ("", String.length ("this." +:+ X +:+ " = this." +:+ Z +:+ " || {};" +:+ newline)).
Proof.
  intros HX HZ. unfold matchGuardLine.
  rewrite eatLiteral_app. cbn [mbind option_bind].
  rewrite (eatWord_app X) by (done || right; by eexists _, _). cbn [mbind option_bind].
  rewrite (eatSpaces_space "=" "") by done. rewrite eatLiteral_app. cbn [mbind option_bind].
  rewrite (eatSpaces_space "t" "his.") by done. rewrite eatLiteral_app. cbn [mbind option_bind].
  rewrite (eatWord_app Z) by (done || right; by eexists _, _). cbn [mbind option_bind].
  rewrite (eatSpaces_space "|" "|") by done. rewrite eatLiteral_app. cbn [mbind option_bind].
  rewrite (eatSpaces_space "{" "};") by done. rewrite eatLiteral_app. cbn [mbind option_bind].
  unfold newline. rewrite eatLiteral_app. cbn [mbind option_bind]. do 2 f_equal.
  change (String.length ("this." +:+ X +:+ " = this." +:+ Z +:+ " || {};" +:+ String "010" ""
                         +:+ tail) - String.length tail
          = String.length ("this." +:+ X +:+ " = this." +:+ Z +:+ " || {};" +:+ String "010" "")).
  rewrite !string_length_app. lia.
Qed.

Lemma matchGuardLine_assignment (X Y tail : string) :
  isWord X = true →
  matchGuardLine ("this." +:+ X +:+ "." +:+ Y +:+ tail) = None.
Proof.
  intros HX. unfold matchGuardLine.
  rewrite eatLiteral_app. cbn [mbind option_bind].
  rewrite (eatWord_app X) by (done || right; by eexists _, _). cbn [mbind option_bind].
  rewrite (eatSpaces_none "." "") by done.
  by rewrite (eatLiteral_startsWith "=") by done.
Qed.

Lemma matchThisAssignment_assignment (X Y tail : string) :
  isWord X = true → isWord Y = true →
  matchThisAssignment ("this." +:+ X +:+ "." +:+ Y +:+ " " +:+ "=" +:+ tail)
  = Some (X +:+ "." +:+ Y +:+ " =", String.length ("this." +:+ X +:+ "." +:+ Y +:+ " =")).
Proof.
  intros HX HY. unfold matchThisAssignment.
  rewrite eatLiteral_app. cbn [mbind option_bind].
  rewrite (eatWord_app X) by (done || right; by eexists _, _). cbn [mbind option_bind].
  rewrite eatLiteral_app. cbn [mbind option_bind].
  rewrite (eatWord_app Y) by (done || right; by eexists _, _). cbn [mbind option_bind].
  rewrite (eatSpaces_space "=" "") by done. rewrite eatLiteral_app. cbn [mbind option_bind].
  do 2 f_equal.
  change (String.length ("this." +:+ X +:+ "." +:+ Y +:+ " =" +:+ tail) - String.length tail
          = String.length ("this." +:+ X +:+ "." +:+ Y +:+ " =")).
  rewrite !string_length_app. lia.
Qed.

Lemma lineStartAfter_app (lineStart : bool) (p q : string) :
  lineStartAfter lineStart (p +:+ q) = lineStartAfter (lineStartAfter lineStart p) q.
Proof.
  revert lineStart. induction p as [|c p IH]; intros lineStart; [done|].
  rewrite JsFacts.app_cons. cbn [lineStartAfter]. apply IH.
Qed.

Lemma replaceAtLineStarts_match matcher (c : ascii) (p s replacement : string) :
  matcher (String c p +:+ s) = Some (replacement, String.length (String c p)) →
  replaceAtLineStarts matcher true 0 (String c p +:+ s)
  = replacement +:+ replaceAtLineStarts matcher (lineStartAfter true (String c p)) 0 s.
Proof.
  intros Hmatch. rewrite JsFacts.app_cons in Hmatch |- *.
  cbn [replaceAtLineStarts lineStartAfter]. rewrite Hmatch.
  change (String.length (String c p)) with (S (String.length p)). cbv beta iota.
  by rewrite replaceAtLineStarts_skip.
Qed.

Lemma linesFrom_line (w s : string) :
  allChars (λ c, negb (isLineBreak c)) w = true →
  linesFrom false (w +:+ s) = linesFrom false s.
Proof.
  induction w as [|c w IH]; [done|]. cbn [allChars]. intros [Hc Hw]%andb_true_iff.
  rewrite JsFacts.app_cons. cbn [linesFrom app].
  apply negb_true_iff in Hc. rewrite Hc. by apply IH.
Qed.

Lemma word_line (w : string) :
  isWord w = true → allChars (λ c, negb (isLineBreak c)) w = true.
Proof.
  intros [_ Hw]%andb_true_iff. induction w as [|c w IH]; [done|].
  cbn [allChars] in *. apply andb_true_iff in Hw as [Hc Hw]. rewrite (IH Hw), andb_true_r.
  unfold isWordChar in Hc. unfold isLineBreak.
  destruct (Nat.eqb_spec (nat_of_ascii c) 10) as [Heq|_];
    [rewrite Heq in Hc; discriminate|].
  destruct (Nat.eqb_spec (nat_of_ascii c) 13) as [Heq|_];
    [rewrite Heq in Hc; discriminate | done].
Qed.

(** Both sides are one text, up to the grouping of the concatenations. *)
Ltac same_text :=
  repeat (progress rewrite ?JsFacts.app_cons, ?JsFacts.app_nil_l, ?JsFacts.app_assoc).

(** [stripNamespaceGuards] does what its comment shows.  Given the guard
    line [this.X = this.Z || {};] followed by the assignment
    [this.X.Y = ...], for any names [X], [Z], [Y] and any text after the
    [=] none of whose later lines starts with [this.], it drops the guard
    line and the [this.] of the assignment, and nothing else. *)
Theorem stripNamespaceGuards_documented (X Z Y rest : string) :
  isWord X = true → isWord Z = true → isWord Y = true →
  (∀ line, line ∈ linesFrom false rest → Js.startsWith line "this." = false) →
  stripNamespaceGuards
    ("this." +:+ X +:+ " = this." +:+ Z +:+ " || {};" +:+ newline
     +:+ "this." +:+ X +:+ "." +:+ Y +:+ " = " +:+ rest)
  = X +:+ "." +:+ Y +:+ " = " +:+ rest.
Proof.
  intros HX HZ HY Hrest. unfold stripNamespaceGuards.
  set (assignment := "this." +:+ X +:+ "." +:+ Y +:+ " = " +:+ rest).
  assert (Hlines : linesFrom false ("his." +:+ X +:+ "." +:+ Y +:+ " = " +:+ rest)
                   = linesFrom false rest).
  { rewrite (linesFrom_line "his.") by done. rewrite (linesFrom_line X) by by apply word_line.
    rewrite (linesFrom_line ".") by done. rewrite (linesFrom_line Y) by by apply word_line.
    by rewrite (linesFrom_line " = ") by done. }
  assert (Hfirst : replaceAtLineStarts matchGuardLine true 0
                     ("this." +:+ X +:+ " = this." +:+ Z +:+ " || {};" +:+ newline
                      +:+ assignment) = assignment).
  { transitivity (replaceAtLineStarts matchGuardLine true 0
                    (String "t" ("his." +:+ X +:+ " = this." +:+ Z +:+ " || {};" +:+ newline)
                     +:+ assignment)).
    { f_equal. by same_text. }
    rewrite (replaceAtLineStarts_match _ _ _ _ "").
    - rewrite JsFacts.app_nil_l.
      change (String "t" ("his." +:+ X +:+ " = this." +:+ Z +:+ " || {};" +:+ newline))
        with ("this." +:+ X +:+ " = this." +:+ Z +:+ " || {};" +:+ newline).
      rewrite !lineStartAfter_app.
      change (lineStartAfter _ newline) with true.
      apply replaceAtLineStarts_unmatched. intros line Hline.
      unfold assignment in Hline. cbn [linesFrom] in Hline.
      apply elem_of_app in Hline as [Hline|Hline].
      + apply list_elem_of_singleton in Hline as ->. by apply matchGuardLine_assignment.
      + change (isLineBreak "t") with false in Hline.
        change (line ∈ linesFrom false ("his." +:+ X +:+ "." +:+ Y +:+ " = " +:+ rest))
          in Hline.
        rewrite Hlines in Hline. unfold matchGuardLine.
        by rewrite eatLiteral_startsWith by by apply Hrest.
    - etrans; [|exact (matchGuardLine_guard X Z assignment HX HZ)]. f_equal. by same_text. }
  rewrite Hfirst. unfold assignment.
  transitivity (replaceAtLineStarts matchThisAssignment true 0
                  (String "t" ("his." +:+ X +:+ "." +:+ Y +:+ " =") +:+ " " +:+ rest)).
  { f_equal. by same_text. }
  rewrite (replaceAtLineStarts_match _ _ _ _ (X +:+ "." +:+ Y +:+ " =")).
  - change (String "t" ("his." +:+ X +:+ "." +:+ Y +:+ " ="))
      with ("this." +:+ X +:+ "." +:+ Y +:+ " =").
    rewrite !lineStartAfter_app. change (lineStartAfter _ " =") with false.
    rewrite replaceAtLineStarts_unmatched.
    + by same_text.
    + intros line Hline. rewrite (linesFrom_line " ") in Hline by done.
      unfold matchThisAssignment. by rewrite eatLiteral_startsWith by by apply Hrest.
  - etrans; [|exact (matchThisAssignment_assignment X Y (" " +:+ rest) HX HY)].
    f_equal. by same_text.
Qed.

Lemma stripNamespaceGuards_documented_witness :
  stripNamespaceGuards satelliteWrapper
  = "MyLib.Admin = (function (exports, sh) { sh.helper(); return exports; })({}, MyLib.Shared);".
Proof.
  apply (stripNamespaceGuards_documented "MyLib" "MyLib" "Admin"
           "(function (exports, sh) { sh.helper(); return exports; })({}, MyLib.Shared);");
    [reflexivity..|].
  intros line Hline. cbn in Hline. by apply elem_of_nil in Hline.
Defined.

(** ** Stripping and extracting *)

Lemma subnodes_unfold (n : node) :
  subnodes n = n :: identLeaves n ++ flat_map subnodes (childNodes n).
Proof. unfold subnodes. by rewrite entered_unfold at 1. Qed.

(** * The merge on whole chunks *)

(** ** A name bound twice *)

(** C1 (violated by the code).  Both chunks bind each of their names once.
    [extractTopLevelDeclarations] passes over the destructuring pattern that
    binds [helper] in the shared chunk, so the collision resolver records no
    rename, and the merged text declares [helper] twice: by the shared
    chunk's pattern and by the primary's [const]. *)
Theorem merged_module_binds_helper_twice :
  helperParse destructuringSharedCode = Some destructuringSharedAst
  ∧ helperParse collidingPrimaryCode = Some collidingPrimaryAst
  ∧ collisionFree destructuringSharedAst
  ∧ collisionFree collidingPrimaryAst
  ∧ boundNames destructuringSharedAst = ["helper"; "sharedHelper"]
  ∧ extractTopLevelDeclarations helperParse destructuringSharedCode = Some {["sharedHelper"]}
  ∧ mergeSharedIntoPrimary helperParse collidingPrimaryCode destructuringSharedCode
      "__shared__.js" "Shared" {["sharedHelper"]} = Some mergedHelperCode
  ∧ helperParse mergedHelperCode = Some mergedHelperAst
  ∧ boundNames mergedHelperAst = ["helper"; "sharedHelper"; "helper"; "mainFeature"; "Shared"]
  ∧ ¬ collisionFree mergedHelperAst.
Proof.
  assert (Hdec : ∀ l : list string, bool_decide (NoDup l) = true → NoDup l)
    by (intros l; apply bool_decide_eq_true).
  assert (Hndec : ∀ l : list string, bool_decide (NoDup l) = false → ¬ NoDup l)
    by (intros l; apply bool_decide_eq_false).
  split_and!.
  - reflexivity.
  - reflexivity.
  - apply Hdec. reflexivity.
  - apply Hdec. reflexivity.
  - reflexivity.
  - reflexivity.
  - vm_compute. reflexivity.
  - reflexivity.
  - reflexivity.
  - apply Hndec. reflexivity.
Qed.

(** ** A deduplicated alias captured by a declaration *)

(** C5 (violated by the code).  The primary's copy of the import is removed
    and the rename [c -> b] recorded; the collision resolver, which runs on
    the deduplicated primary, then renames the shared chunk's alias [b] to
    [__shared$b] because the primary declares a [b] of its own.  The
    primary's reference still becomes [b]: in the merged text the call
    [c(b)] reads [b(b)] and is bound by the primary's [const b], not by the
    import, whose local name is [__shared$b]. *)
Theorem deduplicated_alias_is_captured :
  removeOrRewriteDuplicateExternalImports shadowedParse shadowedPrimaryCode
    (externalImportsOf aliasSharedCode aliasSharedAst)
  = Some (" const b = 1; c(b);", {["c" := "b"]})
  ∧ renameIdentifiers shadowedParse aliasSharedCode {["b" := "__shared$b"]}
    = Some "import { a as __shared$b } from 'lib'; export const x = __shared$b;"
  ∧ mergeSharedIntoPrimary shadowedParse shadowedPrimaryCode aliasSharedCode
      "__shared__.js" "Shared" ∅ = Some shadowedMergedCode
  ∧ shadowedParse shadowedMergedCode = Some shadowedMergedAst
  ∧ boundNames shadowedMergedAst = ["__shared$b"; "x"; "b"]
  ∧ Other 75 79 "CallExpression" [Identifier 75 76 "b"; Identifier 77 78 "b"]
    ∈ subnodes shadowedMergedAst.
Proof.
  split_and!.
  - vm_compute. reflexivity.
  - vm_compute. reflexivity.
  - vm_compute. reflexivity.
  - reflexivity.
  - reflexivity.
  - vm_compute. repeat constructor.
Qed.

(** ** The shared object, as written *)















(** * MagicString on edits made from left to right *)

Lemma substring_empty (n m : nat) : String.substring n m "" = "".
Proof. by destruct n, m. Qed.

Lemma substring_none (n : nat) (s : string) : String.substring n 0 s = "".
Proof.
  revert n. induction s as [|c s IH]; intros n; [apply substring_empty|].
  destruct n; [done|]. cbn [String.substring]. apply IH.
Qed.

Lemma substring_all (s : string) : String.substring 0 (String.length s) s = s.
Proof. induction s as [|c s IH]; [done|]. cbn [String.length String.substring]. by rewrite IH. Qed.

Lemma substring_substring (s : string) (p m k n : nat) :
  k + n ≤ m →
  String.substring k n (String.substring p m s) = String.substring (p + k) n s.
Proof.
  revert p m k n. induction s as [|c s IH]; intros p m k n Hle.
  { by rewrite !substring_empty. }
  destruct p as [|p]; [|cbn [String.substring Nat.add]; by apply IH].
  destruct m as [|m].
  { assert (k = 0) as -> by lia. assert (n = 0) as -> by lia. done. }
  cbn [String.substring Nat.add]. destruct k as [|k].
  - destruct n as [|n]; [done|]. cbn [String.substring]. f_equal.
    rewrite (IH 0 m 0 n) by lia. done.
  - cbn [String.substring]. rewrite (IH 0 m k n) by lia. done.
Qed.

Lemma chunksText_app (l k : list chunk) :
  chunksText (l ++ k) = chunksText l +:+ chunksText k.
Proof.
  induction l as [|c l IH]; [done|]. cbn [app chunksText foldr].
  fold (chunksText (l ++ k)). fold (chunksText l). by rewrite IH, JsFacts.app_assoc.
Qed.

Lemma splitAt_before (index : nat) (done rest : list chunk) :
  Forall (λ c, chunkEnd c ≤ index) done →
  splitAt index (done ++ rest) = (λ rest', done ++ rest') <$> splitAt index rest.
Proof.
  induction done as [|c done IH]; intros Hdone.
  { cbn [app]. by destruct (splitAt index rest). }
  apply Forall_cons in Hdone as [Hc Hdone]. cbn [app splitAt].
  rewrite decide_False by lia. rewrite (IH Hdone).
  by destruct (splitAt index rest).
Qed.

Lemma splitAt_original (code : string) (start index fin : nat) :
  splitAt index [originalChunk code start fin]
  = Some (if decide (start < index ∧ index < fin)
          then [originalChunk code start index; originalChunk code index fin]
          else [originalChunk code start fin]).
Proof.
  cbn [splitAt originalChunk chunkStart chunkEnd chunkEdited chunkContent andb].
  case_decide as Hin; [|done].
  assert (H1 : String.substring 0 (index - start) (slice code start fin)
               = slice code start index).
  { unfold slice. rewrite substring_substring by lia. f_equal; lia. }
  assert (H2 : String.substring (index - start) (fin - index) (slice code start fin)
               = slice code index fin).
  { unfold slice. rewrite substring_substring by lia. f_equal; lia. }
  unfold originalChunk. by rewrite H1, H2.
Qed.

Lemma editChunk_before (start fin : nat) (content : string) (c : chunk) :
  chunkStart c < start → editChunk start fin content c = c.
Proof. intros Hlt. unfold editChunk. by rewrite decide_False by lia. Qed.

(** One edit to the right of everything edited so far: it cuts the
    untouched remainder into the text before it, the edited range and the
    new remainder. *)
Lemma editRange_next (code : string) (done : list chunk) (pos start fin : nat)
    (content : string) :
  Forall (λ c, chunkStart c < chunkEnd c ∧ chunkEnd c ≤ pos) done →
  pos ≤ start → start < fin → fin ≤ String.length code →
  editRange start fin content (done ++ [originalChunk code pos (String.length code)])
  = Some (done
          ++ (if decide (pos < start) then [originalChunk code pos start] else [])
          ++ [{| chunkStart := start; chunkEnd := fin;
                 chunkContent := content; chunkEdited := true |}]
          ++ (if decide (fin < String.length code)
              then [originalChunk code fin (String.length code)] else [])).
Proof.
  intros Hdone Hpos Hlt Hfin. set (len := String.length code) in *.
  unfold editRange.
  rewrite splitAt_before, splitAt_original
    by (eapply Forall_impl; [exact Hdone | cbn; lia]).
  cbn [fmap option_fmap option_map].
  set (before := if decide (pos < start) then [originalChunk code pos start] else []).
  assert ((if decide (pos < start ∧ start < len)
           then [originalChunk code pos start; originalChunk code start len]
           else [originalChunk code pos len])
          = before ++ [originalChunk code start len]) as ->.
  { unfold before. case_decide as H1; case_decide as H2; try lia; [done|].
    assert (pos = start) as -> by lia. done. }
  assert (Hbefore : Forall (λ c, chunkStart c < chunkEnd c ∧ chunkEnd c ≤ start)
                      (done ++ before)).
  { apply Forall_app. split.
    - eapply Forall_impl; [exact Hdone | cbn; lia].
    - unfold before. case_decide; repeat constructor; cbn; lia. }
  rewrite (app_assoc done before).
  rewrite splitAt_before, splitAt_original
    by (eapply Forall_impl; [exact Hbefore | cbn; lia]).
  cbn [fmap option_fmap option_map]. f_equal.
  rewrite fmap_app, (app_assoc done before). f_equal.
  { rewrite <- (list_fmap_id (done ++ before)) at 2. apply list_fmap_ext.
    intros i c Hc%list_elem_of_lookup_2. apply editChunk_before.
    rewrite Forall_forall in Hbefore. specialize (Hbefore c Hc). cbn beta in Hbefore.
    unfold id. lia. }
  case_decide as H1; case_decide as H2; try lia.
  - cbn [fmap list_fmap]. unfold editChunk, originalChunk. cbn [chunkStart chunkEnd].
    rewrite decide_True by lia. rewrite decide_True by done.
    rewrite decide_False by lia. done.
  - assert (fin = len) as -> by lia.
    cbn [fmap list_fmap]. unfold editChunk, originalChunk. cbn [chunkStart chunkEnd].
    rewrite decide_True by lia. rewrite decide_True by done. done.
Qed.

Lemma chunksText_original (code : string) (start fin : nat) :
  chunksText (if decide (start < fin) then [originalChunk code start fin] else [])
  = if decide (start ≤ fin) then slice code start fin else "".
Proof.
  case_decide as Hlt.
  - rewrite decide_True by lia. cbn. by rewrite JsFacts.app_nil_r.
  - case_decide as Hle; [|done]. assert (start = fin) as -> by lia.
    unfold slice. by rewrite Nat.sub_diag, substring_none.
Qed.

Lemma applyEdits_cons (len : nat) (e : edit) (edits : list edit) (chunks chunks' : list chunk) :
  applyEdit len chunks e = Some chunks' →
  applyEdits len (e :: edits) chunks = applyEdits len edits chunks'.
Proof. intros Hstep. unfold applyEdits. cbn [foldl mbind option_bind]. by rewrite Hstep. Qed.

Lemma applyEdit_range (len : nat) (chunks : list chunk) (e : edit) :
  editStart e < editEnd e → editEnd e ≤ len →
  applyEdit len chunks e = editRange (editStart e) (editEnd e) (editContent e) chunks.
Proof.
  destruct e as [start fin content|start fin]; cbn [applyEdit editStart editEnd editContent];
    intros Hlt Hfin.
  - by rewrite decide_True by done.
  - rewrite decide_False by lia. by rewrite decide_True by done.
Qed.

Lemma applyEdits_leftToRight (code : string) (edits : list edit) (done : list chunk) (pos : nat) :
  Forall (λ c, chunkStart c < chunkEnd c ∧ chunkEnd c ≤ pos) done →
  pos ≤ String.length code →
  leftToRight pos (String.length code) edits →
  ∃ chunks,
    applyEdits (String.length code) edits
      (done ++ (if decide (pos < String.length code)
                then [originalChunk code pos (String.length code)] else []))
    = Some chunks
    ∧ chunksText chunks = chunksText done +:+ spliced code pos edits.
Proof.
  revert done pos. induction edits as [|e edits IH]; intros done pos Hdone Hpos Hsorted.
  - eexists. split; [reflexivity|]. rewrite chunksText_app, chunksText_original.
    by rewrite decide_True by done.
  - destruct Hsorted as (Hstart & Hlt & Hfin & Hrest).
    pose (before := if decide (pos < editStart e)
                    then [originalChunk code pos (editStart e)] else []).
    pose (edited := {| chunkStart := editStart e; chunkEnd := editEnd e;
                       chunkContent := editContent e; chunkEdited := true |}).
    assert (Hstep : applyEdit (String.length code)
                      (done ++ (if decide (pos < String.length code)
                                then [originalChunk code pos (String.length code)] else []))
                      e
                    = Some ((done ++ before ++ [edited])
                            ++ (if decide (editEnd e < String.length code)
                                then [originalChunk code (editEnd e) (String.length code)]
                                else []))).
    { rewrite decide_True by lia. rewrite applyEdit_range by done.
      rewrite <- !app_assoc.
      exact (editRange_next code done pos _ _ (editContent e) Hdone Hstart Hlt Hfin). }
    rewrite (applyEdits_cons _ _ _ _ _ Hstep).
    destruct (IH (done ++ before ++ [edited]) (editEnd e)) as (chunks & Hchunks & Htext).
    + rewrite !Forall_app. split_and!.
      * eapply Forall_impl; [exact Hdone | cbn; lia].
      * unfold before. destruct (decide (pos < editStart e)); repeat constructor;
          cbn [originalChunk chunkStart chunkEnd]; lia.
      * repeat constructor; cbn [edited chunkStart chunkEnd]; lia.
    + done.
    + exact Hrest.
    + exists chunks. split; [exact Hchunks|]. rewrite Htext, !chunksText_app.
      cbn [spliced].
      unfold before. rewrite chunksText_original, decide_True by done.
      cbn [chunksText foldr edited chunkContent].
      by rewrite !JsFacts.app_assoc, JsFacts.app_nil_l.
Qed.

(** Edits made from left to right, each on a non-empty range of the text
    and apart from the others, never make MagicString throw, and the text
    that results is the original with each range replaced by its content. *)
Lemma toString_leftToRight (code : string) (edits : list edit) :
  leftToRight 0 (String.length code) edits →
  toString code edits = Some (spliced code 0 edits).
Proof.
  intros Hsorted. unfold toString, magicString.
  destruct edits as [|e edits].
  { cbn. unfold slice. by rewrite Nat.sub_0_r, substring_all, JsFacts.app_nil_r. }
  assert (Hlen : 0 < String.length code).
  { destruct Hsorted as (_ & ? & ? & _). lia. }
  destruct (applyEdits_leftToRight code (e :: edits) [] 0) as (chunks & Hchunks & Htext);
    [constructor | lia | done |].
  rewrite decide_True in Hchunks by done. cbn [app] in Hchunks.
  assert (originalChunk code 0 (String.length code)
          = {| chunkStart := 0; chunkEnd := String.length code;
               chunkContent := code; chunkEdited := false |}) as Horiginal.
  { unfold originalChunk, slice. by rewrite Nat.sub_0_r, substring_all. }
  rewrite Horiginal in Hchunks. rewrite Hchunks. cbn [fmap option_fmap option_map].
  by rewrite Htext.
Qed.

(** * Stripping exports *)

Lemma stripVisitor_emits (n : node) (s : list edit) :
  stripVisitor n s = (s ++ stripNodeEdits n, false).
Proof. destruct n; cbn [stripVisitor stripNodeEdits]; by rewrite ?app_nil_r. Qed.

Lemma stripEdits_subnodes (ast : node) :
  stripEdits ast = flat_map stripNodeEdits (subnodes ast).
Proof.
  unfold stripEdits, subnodes.
  by rewrite (walk_appending _ (λ _, false) stripNodeEdits) by apply stripVisitor_emits.
Qed.

Lemma stripNodeEdits_none (n : node) : isExport n = false → stripNodeEdits n = [].
Proof. by destruct n. Qed.

Lemma flat_map_nil {A B : Type} (f : A → list B) (l : list A) :
  (∀ x, x ∈ l → f x = []) → flat_map f l = [].
Proof.
  induction l as [|x l IH]; intros H; [done|]. cbn [flat_map].
  rewrite (H x) by apply list_elem_of_here. apply IH. intros y Hy.
  by apply H, list_elem_of_further.
Qed.

Lemma stripNodeEdits_item (item : node) :
  forallb (λ n, negb (isExport n)) (tail (subnodes item)) = true →
  flat_map stripNodeEdits (subnodes item) = stripNodeEdits item.
Proof.
  intros Hitem. rewrite subnodes_unfold in *. cbn [tail flat_map] in *.
  rewrite (flat_map_nil stripNodeEdits), app_nil_r; [done|].
  intros n Hn. apply stripNodeEdits_none.
  rewrite forallb_forall in Hitem. apply negb_true_iff, Hitem. by apply list_elem_of_In.
Qed.

(** When its exports are module items, the edits of [stripExports] are one
    per export statement, in the order of the items. *)
Lemma stripEdits_items (ast : node) :
  exportsAtTopLevel ast = true →
  stripEdits ast = flat_map stripNodeEdits (programBody ast).
Proof.
  rewrite stripEdits_subnodes. destruct ast; try done. cbn [exportsAtTopLevel programBody].
  intros Htop. rewrite subnodes_unfold. cbn [identLeaves childNodes app flat_map stripNodeEdits].
  induction body as [|item body IH]; [done|]. cbn [flat_map forallb] in *.
  apply andb_true_iff in Htop as [Hitem Hbody].
  by rewrite flat_map_app, (IH Hbody), stripNodeEdits_item.
Qed.

Lemma spliced_strippedFrom (code : string) (pos : nat) (items : list node) :
  spliced code pos (flat_map stripNodeEdits items) = strippedFrom code pos items.
Proof.
  revert pos. induction items as [|item items IH]; intros pos; [done|].
  cbn [flat_map strippedFrom].
  destruct item as [| | | | | | | | | |? ? [d|] ? ?|? ? d| | | | | |];
    cbn [stripNodeEdits app spliced editStart editEnd editContent];
    rewrite ?IH, ?JsFacts.app_nil_l; done.
Qed.

Lemma leftToRight_exports (pos len : nat) (items : list node) :
  exportsInOrder pos len items → leftToRight pos len (flat_map stripNodeEdits items).
Proof.
  revert pos. induction items as [|item items IH]; intros pos; [done|].
  cbn [flat_map exportsInOrder].
  destruct item as [| | | | | | | | | |? ? [d|] ? ?|? ? d| | | | | |];
    cbn [stripNodeEdits app leftToRight editStart editEnd]; try apply IH;
    intros (? & ? & ? & ?); split_and!; try done; by apply IH.
Qed.

(** [stripExports] returns the stripped text. *)
Lemma stripExports_text (parse : ParseFn) (code : string) (ast : node) :
  parse code = Some ast →
  exportsAtTopLevel ast = true →
  exportsInOrder 0 (String.length code) (programBody ast) →
  stripExports parse code = Some (strippedText code ast).
Proof.
  intros Hparse Htop Horder. unfold stripExports. rewrite Hparse. cbn [mbind option_bind].
  rewrite stripEdits_items by done.
  rewrite toString_leftToRight by by apply leftToRight_exports.
  by rewrite spliced_strippedFrom.
Qed.

Lemma declaratorNames_erased (declarations : list node) :
  declaratorNames (eraseOffsets <$> declarations) = declaratorNames declarations.
Proof.
  unfold declaratorNames. induction declarations as [|d ds IH]; [done|].
  rewrite fmap_cons. cbn [flat_map]. rewrite IH. f_equal.
  destruct d as [| | | | | | | | | | | | |? ? i ?| | | |]; try done. by destruct i.
Qed.

Lemma declaredNames_erased (item : node) :
  declaredNames (eraseOffsets item) = declaredNames item.
Proof.
  destruct item as [| | | | | | | | | |? ? [d|] ? ?| |? ? ds| |? ? [i|] ? ?|? ? [i|] ? ?| |];
    try done; cbn [eraseOffsets declaredNames fmap option_fmap option_map].
  - destruct d as [| | | | | | | | | | | |? ? ds| |? ? [i|] ? ?|? ? [i|] ? ?| |]; try done.
    cbn [eraseOffsets]. apply declaratorNames_erased.
  - apply declaratorNames_erased.
Qed.

Lemma declaredNames_read (items items' : list node) :
  eraseOffsets <$> items' = eraseOffsets <$> items →
  flat_map declaredNames items' = flat_map declaredNames items.
Proof.
  intros Hsame.
  assert (H : ∀ l, flat_map declaredNames l = flat_map declaredNames (eraseOffsets <$> l)).
  { intros l. induction l as [|x l IH]; [done|].
    rewrite fmap_cons. cbn [flat_map]. by rewrite IH, declaredNames_erased. }
  by rewrite (H items'), (H items), Hsame.
Qed.

Lemma strippedItem_declaredNames item :
  exportedDeclarationOk item = true →
  flat_map declaredNames (strippedItem item)
  = declaredNames item ++ (if isDefaultExport item then ["__shared_default__"] else []).
Proof.
  destruct item as [| | | | | | | | | |? ? [d|] ? ?|? ? d| | | | | |];
    try (intros _; cbn; by rewrite ?app_nil_r).
  destruct d; try done; intros _; cbn; by rewrite !app_nil_r.
Qed.

Lemma strippedItems_declaredNames (ast : node) :
  forallb exportedDeclarationOk (programBody ast) = true →
  (list_to_set (flat_map declaredNames (strippedItems ast)) : gset string)
  = topLevelDeclarations ast
    ∪ (if existsb isDefaultExport (programBody ast) then {["__shared_default__"]} else ∅).
Proof.
  unfold topLevelDeclarations, strippedItems.
  generalize (programBody ast). intros body Hok.
  apply set_eq. intros x. rewrite elem_of_union, !elem_of_list_to_set.
  induction body as [|item body IH]; cbn [flat_map existsb forallb] in *.
  - rewrite elem_of_nil. set_solver.
  - apply andb_true_iff in Hok as [Hitem Hbody]. specialize (IH Hbody).
    rewrite flat_map_app, !elem_of_app, IH, (strippedItem_declaredNames item Hitem), elem_of_app.
    destruct (isDefaultExport item); cbn [orb].
    + destruct (existsb isDefaultExport body); set_solver.
    + rewrite elem_of_nil. tauto.
Qed.

(** C8 as stated fails: a default export becomes [const __shared_default__],
    which [extractTopLevelDeclarations] then reports. *)
Lemma stripExports_claim_counterexample :
  defaultParse "export default 42;" = Some defaultOnlyAst
  ∧ stripExports defaultParse "export default 42;" = Some "const __shared_default__ = 42;"
  ∧ extractTopLevelDeclarations defaultParse "export default 42;" = Some ∅
  ∧ extractTopLevelDeclarations defaultParse "const __shared_default__ = 42;"
    = Some {["__shared_default__"]}
  ∧ (stripped ← stripExports defaultParse "export default 42;";
     extractTopLevelDeclarations defaultParse stripped)
    ≠ extractTopLevelDeclarations defaultParse "export default 42;".
Proof.
  assert (Hstripped : stripExports defaultParse "export default 42;"
                      = Some "const __shared_default__ = 42;") by (vm_compute; reflexivity).
  assert (Hbefore : extractTopLevelDeclarations defaultParse "export default 42;" = Some ∅)
    by reflexivity.
  assert (Hafter : extractTopLevelDeclarations defaultParse "const __shared_default__ = 42;"
                   = Some {["__shared_default__"]}) by reflexivity.
  split_and!; [reflexivity | exact Hstripped | exact Hbefore | exact Hafter |].
  rewrite Hstripped. cbn [mbind option_bind]. rewrite Hbefore, Hafter. intros Heq.
  apply (f_equal (λ o : option (gset string),
                    match o with
                    | Some X => bool_decide ("__shared_default__" ∈ X)
                    | None => false
                    end)) in Heq.
  vm_compute in Heq. discriminate Heq.
Qed.

(** C8, amended.  Let the export statements of the module be its own items,
    each an exported declaration, an export list or a default export, lying
    in the text one after the other.  Then [stripExports] returns the
    stripped text, and when the parser reads that text as the module's
    items without their [export], the default export as the initializer of
    a [const], its declared names are those of the module and
    [__shared_default__] when the module has a default export. *)
Theorem stripExports_declared_names (parse : ParseFn) (code : string) (ast : node) :
  parse code = Some ast →
  exportsAtTopLevel ast = true →
  forallb exportedDeclarationOk (programBody ast) = true →
  exportsInOrder 0 (String.length code) (programBody ast) →
  readsAs parse (strippedText code ast) (strippedItems ast) →
  extractTopLevelDeclarations parse code = Some (topLevelDeclarations ast)
  ∧ stripExports parse code = Some (strippedText code ast)
  ∧ extractTopLevelDeclarations parse (strippedText code ast)
    = Some (topLevelDeclarations ast
            ∪ (if existsb isDefaultExport (programBody ast)
               then {["__shared_default__"]} else ∅)).
Proof.
  intros Hparse Htop Hok Horder (start' & fin' & body' & Hparse' & Hread). split_and!.
  - unfold extractTopLevelDeclarations. by rewrite Hparse.
  - by apply stripExports_text.
  - unfold extractTopLevelDeclarations. rewrite Hparse'. cbn [fmap option_fmap option_map].
    f_equal. rewrite <- strippedItems_declaredNames by done.
    unfold topLevelDeclarations. f_equal. by apply declaredNames_read.
Qed.

(** [export const x = 1; export default 42;] *)
Lemma stripExports_declared_names_witness :
  stripExports twoExportsParse twoExportsCode
  = Some "const x = 1; const __shared_default__ = 42;"
  ∧ extractTopLevelDeclarations twoExportsParse "const x = 1; const __shared_default__ = 42;"
    = Some (topLevelDeclarations twoExportsAst ∪ {["__shared_default__"]}).
Proof.
  destruct (stripExports_declared_names twoExportsParse twoExportsCode twoExportsAst)
    as (_ & Hstripped & Hnames).
  - reflexivity.
  - reflexivity.
  - reflexivity.
  - cbn. lia.
  - do 3 eexists. split; [by vm_compute | reflexivity].
  - split; [exact Hstripped | exact Hnames].
Defined.

(** The stripped text need not parse: of [export default (42);] the closing
    parenthesis is left behind, because the declaration starts after the
    opening one. *)
Lemma stripExports_parenthesised_default :
  stripExports (λ _, Some parenthesisedDefaultAst) "export default (42);"
  = Some "const __shared_default__ = 42);".
Proof. vm_compute. reflexivity. Qed.

(** ** Stripping, then extracting *)

Lemma forallb_flat_map {A B : Type} (p : B → bool) (f : A → list B) (l : list A) :
  forallb p (flat_map f l) = forallb (λ x, forallb p (f x)) l.
Proof. induction l as [|x l IH]; [done|]. cbn [flat_map forallb]. by rewrite forallb_app, IH. Qed.

Lemma forallb_identLeaves (n : node) :
  forallb (λ n', negb (isExport n')) (identLeaves n) = true.
Proof.
  apply forallb_forall. intros leaf Hleaf%list_elem_of_In.
  by apply identLeaves_leaf in Hleaf as (start & fin & name & ->).
Qed.

Lemma noExport_unfold (n : node) :
  noExport n = negb (isExport n) && forallb noExport (childNodes n).
Proof.
  unfold noExport at 1. rewrite subnodes_unfold. cbn [forallb].
  by rewrite forallb_app, forallb_identLeaves, forallb_flat_map.
Qed.

Lemma noExport_tail (n : node) :
  forallb (λ n', negb (isExport n')) (tail (subnodes n)) = forallb noExport (childNodes n).
Proof.
  rewrite subnodes_unfold. cbn [tail].
  by rewrite forallb_app, forallb_identLeaves, forallb_flat_map.
Qed.

Lemma childNodes_erased (n : node) :
  childNodes (eraseOffsets n) = eraseOffsets <$> childNodes n.
Proof.
  destruct n as [| |? ? o p ?|? ? i ps b|? ? e|? ? i l|? ? l|? ? l|? ? specs ?|? ? l e
                |? ? d specs ?|? ? d|? ? ds|? ? i init|? ? i ps b|? ? i sup b|? ? ? cs|? ? body];
    cbn [eraseOffsets childNodes]; rewrite ?fmap_app; try done.
  - by destruct d.
  - by destruct init.
  - by destruct sup.
Qed.

Lemma noExport_erased (n : node) : noExport (eraseOffsets n) = noExport n.
Proof.
  induction n as [n IH] using node_children_ind.
  rewrite (noExport_unfold n), (noExport_unfold (eraseOffsets n)), childNodes_erased.
  f_equal; [by destruct n|].
  induction (childNodes n) as [|c cs IHcs]; [done|].
  apply Forall_cons in IH as [Hc Hcs]. rewrite fmap_cons. cbn [forallb].
  by rewrite Hc, (IHcs Hcs).
Qed.

Lemma asInitializer_noExport (d : node) : noExport d = true → noExport (asInitializer d) = true.
Proof.
  destruct d as [| | | | | | | | | | | | | |? ? i ps b|? ? i sup b| |]; try done;
    rewrite !noExport_unfold; cbn [isExport negb andb asInitializer childNodes].
  intros H. destruct i as [i|]; cbn [forallb app]; [|done]. by rewrite H.
Qed.

Lemma strippedItem_noExport (item item' : node) :
  forallb (λ n, negb (isExport n)) (tail (subnodes item)) = true →
  item' ∈ strippedItem item → noExport item' = true.
Proof.
  rewrite noExport_tail. intros Hchildren Hin.
  destruct item as [| | | | | | | | | |? ? [d|] ? ?|? ? d| | | | | |];
    cbn [strippedItem] in Hin;
    try (apply list_elem_of_singleton in Hin as ->; rewrite noExport_unfold;
         by rewrite Hchildren).
  - apply list_elem_of_singleton in Hin as ->. cbn [childNodes app forallb] in Hchildren.
    by apply andb_true_iff in Hchildren as [? _].
  - by apply elem_of_nil in Hin.
  - apply list_elem_of_singleton in Hin as ->. cbn [childNodes forallb] in Hchildren.
    apply andb_true_iff in Hchildren as [Hd _].
    rewrite !noExport_unfold. cbn [isExport negb andb childNodes forallb].
    rewrite !noExport_unfold. cbn [isExport negb andb childNodes forallb].
    by rewrite (asInitializer_noExport d Hd).
Qed.

(** Stripping leaves nothing to extract.  When the export statements of a
    module are its own items, lying in the text one after the other, and the
    parser reads the stripped text as the module's items without their
    [export], [extractExports] finds no export and no default export in
    what [stripExports] returns. *)
Theorem stripExports_leaves_no_export (parse : ParseFn) (code : string) (ast : node) :
  parse code = Some ast →
  exportsAtTopLevel ast = true →
  exportsInOrder 0 (String.length code) (programBody ast) →
  readsAs parse (strippedText code ast) (strippedItems ast) →
  (stripped ← stripExports parse code; extractExports parse stripped)
  = Some {| exports := []; hasDefault := false |}.
Proof.
  intros Hparse Htop Horder (start' & fin' & body' & Hparse' & Hread).
  rewrite (stripExports_text parse code ast) by done. cbn [mbind option_bind].
  unfold extractExports. rewrite Hparse'. cbn [fmap option_fmap option_map]. f_equal.
  unfold exportsOf. apply (walk_unchanged _ (λ _, false)).
  { intros n s. by destruct n. }
  assert (Hitems : ∀ item', item' ∈ body' → noExport item' = true).
  { intros item' Hitem'.
    assert (eraseOffsets item' ∈ eraseOffsets <$> strippedItems ast) as Herased.
    { rewrite <- Hread. apply list_elem_of_fmap. eauto. }
    apply list_elem_of_fmap in Herased as (item'' & Hsame & Hitem'').
    rewrite <- noExport_erased, Hsame, noExport_erased.
    unfold strippedItems in Hitem''.
    apply elem_of_flat_map in Hitem'' as (item & Hitem & Hstripped).
    apply (strippedItem_noExport item); [|done].
    destruct ast; try done. cbn [exportsAtTopLevel programBody] in *.
    rewrite forallb_forall in Htop. by apply Htop, list_elem_of_In. }
  intros n Hn. rewrite subnodes_unfold in Hn. cbn [identLeaves childNodes app] in Hn.
  apply elem_of_cons in Hn as [->|Hn]; [done|].
  apply elem_of_flat_map in Hn as (item' & Hitem' & Hn).
  specialize (Hitems item' Hitem'). unfold noExport in Hitems.
  rewrite forallb_forall in Hitems. apply list_elem_of_In, Hitems in Hn.
  by destruct n.
Qed.

Lemma stripExports_leaves_no_export_witness :
  extractExports twoExportsParse twoExportsCode
  = Some {| exports := [{| exportedName := "x"; localName := "x" |}]; hasDefault := true |}
  ∧ (stripped ← stripExports twoExportsParse twoExportsCode;
     extractExports twoExportsParse stripped)
    = Some {| exports := []; hasDefault := false |}.
Proof.
  split; [reflexivity|].
  apply (stripExports_leaves_no_export twoExportsParse twoExportsCode twoExportsAst).
  - reflexivity.
  - reflexivity.
  - cbn. lia.
  - do 3 eexists. split; [by vm_compute | reflexivity].
Defined.
